(** * Reward assignment, sharding and history loading of the decision-service
      gateway: a shallow embedding of [src/worker.py] and
      [src/assign_rewards/utils.py], and the properties proved about it. *)

From Stdlib Require Import List ZArith String Ascii Bool Lia Floats.
Import ListNotations.
Open Scope string_scope.
Open Scope list_scope.
Open Scope Z_scope.
Set Warnings "-register-all".
Unset Elimination Schemes.

(** ** Python values *)

(** The values a decoded JSON line can hold, plus the [datetime] that
    [load_records] stores in place of the timestamp string.  A JSON number is
    held as the double it denotes. *)
Inductive value : Type :=
| VNone
| VBool (b : bool)
| VNum (x : float)
| VStr (s : string)
| VList (l : list value)
| VDict (d : list (string * value))
| VDatetime (t : Z).

(** A [dict] with string keys, in insertion order. *)
Definition dict (V : Type) : Type := list (string * V).

(** A history record: a decoded JSON object. *)
Definition history_record : Type := dict value.

Set Elimination Schemes.

(** ** Exceptions *)

(** The Python exceptions the modelled code can raise.  [BadGzipFile] stands
    for the three exceptions of a corrupt gzip file ([zlib.error], [EOFError],
    [gzip.BadGzipFile]), which the code treats alike.  [Unsupported] is not a
    Python exception: it marks the inputs this embedding does not cover
    (a [reward_key] or [message_id] that is a number, a boolean or [None]). *)
Inductive exn : Type :=
| InvalidType
| KeyError
| TypeError
| ValueError
| AttributeError
| JSONDecodeError
| BadGzipFile
| ZeroDivisionError
| OverflowError
| UnicodeDecodeError
| Unsupported.

Inductive result (A : Type) : Type :=
| Ok (a : A)
| Raise (e : exn).
Arguments Ok {A} a.
Arguments Raise {A} e.

Definition bind {A B : Type} (m : result A) (k : A -> result B) : result B :=
  match m with
  | Ok a => k a
  | Raise e => Raise e
  end.

Notation "x <- m ;; k" := (bind m (fun x => k))
  (at level 61, m at next level, right associativity).

(** ** Dictionaries *)

(** [d.get(k)]: the value stored under [k], if any. *)
Fixpoint dict_get {V : Type} (k : string) (d : dict V) : option V :=
  match d with
  | [] => None
  | (k', v) :: rest => if String.eqb k k' then Some v else dict_get k rest
  end.

(** [d.get(k, default)]. *)
Definition dict_get_default {V : Type} (k : string) (d : dict V) (default : V) : V :=
  match dict_get k d with
  | Some v => v
  | None => default
  end.

(** [d[k] = v]: overwrite in place, or append a new key at the end. *)
Fixpoint dict_set {V : Type} (k : string) (v : V) (d : dict V) : dict V :=
  match d with
  | [] => [(k, v)]
  | (k', v') :: rest =>
      if String.eqb k k' then (k', v) :: rest else (k', v') :: dict_set k v rest
  end.

(** [k in d]. *)
Definition dict_has {V : Type} (k : string) (d : dict V) : bool :=
  match dict_get k d with
  | Some _ => true
  | None => false
  end.

(** The dictionary without the key [k]. *)
Definition dict_remove {V : Type} (k : string) (d : dict V) : dict V :=
  filter (fun kv => negb (String.eqb k (fst kv))) d.

(** [list(d.keys())]. *)
Definition dict_keys {V : Type} (d : dict V) : list string := map fst d.

(** [record.get('type') == name]. *)
Definition type_is (r : history_record) (name : string) : bool :=
  match dict_get "type" r with
  | Some (VStr s) => String.eqb s name
  | _ => false
  end.

(** ** Configuration of [worker.py] *)

(** A [datetime]: the instant it denotes, and the time that its own fields
    show ([wall]), which is ahead of the instant by the offset of its zone;
    both in microseconds from 1970-01-01T00:00:00.  Two datetimes compare as
    their instants do. *)
Record datetime : Type := {
  instant : Z;
  wall : Z
}.

(** [datetime.min] and [datetime.max]: the fields of a [datetime] show a time
    from 0001-01-01T00:00:00 to 9999-12-31T23:59:59.999999. *)
Definition datetime_min : Z := -62135596800000000.
Definition datetime_max : Z := 253402300799999999.

(** [d + timedelta(microseconds=delta)]: the fields move by [delta], whatever
    the zone, and [OverflowError] is raised when they leave the years 1 to
    9999. *)
Definition datetime_add (d : datetime) (delta : Z) : result datetime :=
  if (datetime_min <=? wall d + delta) && (wall d + delta <=? datetime_max)
  then Ok {| instant := instant d + delta; wall := wall d + delta |}
  else Raise OverflowError.

(** The names [worker.py] imports from its [config] module, which is not part
    of the sources, the environment variable it reads, and the two conversions
    of Python that it applies to strings.  [strptime s] stands for
    [datetime.strptime(s, DATETIME_FORMAT)], [None] when it raises
    [ValueError]; [float_of_str s] stands for [float(s)] on a string, [None]
    when it raises [ValueError]. *)
Record config : Type := {
  DEFAULT_REWARD_WINDOW_IN_SECONDS : Z;
  DEFAULT_REWARD_KEY : string;
  DEFAULT_REWARD_VALUE : float;
  DEFAULT_EVENTS_REWARD_VALUE : float;
  strptime : string -> option datetime;
  float_of_str : string -> option float
}.

(** [window = timedelta(seconds=int(os.environ[...]))], in microseconds. *)
Definition window (cfg : config) : Z :=
  DEFAULT_REWARD_WINDOW_IN_SECONDS cfg * 1000000.

(** ** The reward engine ([worker.py]) *)

Section Engine.

Variable cfg : config.

(** [datetime.strptime(r['timestamp'], DATETIME_FORMAT)]. *)
Definition strptime_datetime (r : history_record) : result datetime :=
  match dict_get "timestamp" r with
  | None => Raise KeyError
  | Some (VStr s) =>
      match strptime cfg s with
      | Some t => Ok t
      | None => Raise ValueError
      end
  | Some _ => Raise TypeError
  end.

(** The instant of [datetime.strptime(r['timestamp'], DATETIME_FORMAT)]. *)
Definition strptime_timestamp (r : history_record) : result Z :=
  t <- strptime_datetime r ;;
  Ok (instant t).

(** [float(reward)]. *)
Definition to_float (reward : value) : result float :=
  match reward with
  | VNum x => Ok x
  | VBool b => Ok (if b then 1%float else 0%float)
  | VStr s =>
      match float_of_str cfg s with
      | Some x => Ok x
      | None => Raise ValueError
      end
  | VNone | VList _ | VDict _ | VDatetime _ => Raise TypeError
  end.

(** The left operand of [v + y] for a float [y]: a number, or [TypeError]. *)
Definition number_of (v : value) : result float :=
  match v with
  | VNum x => Ok x
  | VBool b => Ok (if b then 1%float else 0%float)
  | VNone | VStr _ | VList _ | VDict _ | VDatetime _ => Raise TypeError
  end.

(** [v + y] for a float [y]. *)
Definition add_float (v : value) (y : float) : result float :=
  x <- number_of v ;;
  Ok (x + y)%float.

(** The body of the loop of [update_listeners] for one listener: the listener
    is deleted ([[]]) when its window closed before the record, and has the
    reward added otherwise. *)
Definition update_listener (listener record : history_record) (reward : value)
  : result (list history_record) :=
  listener_timestamp <- strptime_datetime listener ;;
  record_timestamp <- strptime_datetime record ;;
  window_end <- datetime_add listener_timestamp (window cfg) ;;
  if instant window_end <? instant record_timestamp then Ok []
  else
    let current := dict_get_default "reward" listener (VNum (DEFAULT_REWARD_VALUE cfg)) in
    amount <- to_float reward ;;
    total <- add_float current amount ;;
    Ok [dict_set "reward" (VNum total) listener].

(** [update_listeners(listeners, record, reward)]: the list as the call leaves
    it.  The loop runs from the last index down to the first, so the tail is
    updated before the head. *)
Fixpoint update_listeners (listeners : list history_record) (record : history_record) (reward : value)
  : result (list history_record) :=
  match listeners with
  | [] => Ok []
  | listener :: rest =>
      rest' <- update_listeners rest record reward ;;
      kept <- update_listener listener record reward ;;
      Ok (kept ++ rest')
  end.

(** The buckets of live listeners, [decision_records_by_reward_key]. *)
Definition buckets : Type := dict (list history_record).

(** [record.get('reward_key', DEFAULT_REWARD_KEY)] as a key of the buckets. *)
Definition reward_key_of (r : history_record) : result string :=
  match dict_get "reward_key" r with
  | None => Ok (DEFAULT_REWARD_KEY cfg)
  | Some (VStr s) => Ok s
  | Some _ => Raise Unsupported
  end.

(** [record['rewards'].items()]. *)
Definition rewards_items (r : history_record) : result (list (string * value)) :=
  match dict_get "rewards" r with
  | None => Raise KeyError
  | Some (VDict items) => Ok items
  | Some _ => Raise AttributeError
  end.

(** [record.get('properties', { 'properties': {} }).get('value',
    DEFAULT_EVENTS_REWARD_VALUE)]. *)
Definition event_reward (r : history_record) : result value :=
  match dict_get_default "properties" r (VDict [("properties", VDict [])]) with
  | VDict properties =>
      Ok (dict_get_default "value" properties (VNum (DEFAULT_EVENTS_REWARD_VALUE cfg)))
  | _ => Raise AttributeError
  end.

(** The loop over [record['rewards'].items()].  The listeners fetched with
    [.get(reward_key, [])] are the bucket itself when the key exists, and a
    fresh list that is dropped after the call when it does not. *)
Fixpoint for_rewards (d : buckets) (record : history_record) (items : list (string * value))
  : result buckets :=
  match items with
  | [] => Ok d
  | (reward_key, reward) :: rest =>
      listeners' <- update_listeners (dict_get_default reward_key d []) record reward ;;
      for_rewards
        (if dict_has reward_key d then dict_set reward_key listeners' d else d)
        record rest
  end.

(** The loop over [decision_records_by_reward_key.items()]. *)
Fixpoint for_buckets (items : buckets) (record : history_record) (reward : value)
  : result buckets :=
  match items with
  | [] => Ok []
  | (reward_key, listeners) :: rest =>
      listeners' <- update_listeners listeners record reward ;;
      rest' <- for_buckets rest record reward ;;
      Ok ((reward_key, listeners') :: rest')
  end.

(** One iteration of the loop of [assign_rewards_to_decisions]. *)
Definition process_record (d : buckets) (record : history_record) : result buckets :=
  if type_is record "decision" then
    reward_key <- reward_key_of record ;;
    Ok (dict_set reward_key (dict_get_default reward_key d [] ++ [record]) d)
  else if type_is record "rewards" then
    items <- rewards_items record ;;
    for_rewards d record items
  else if type_is record "event" then
    reward <- event_reward record ;;
    for_buckets d record reward
  else Raise InvalidType.

(** The loop of [assign_rewards_to_decisions], from the buckets [d]. *)
Fixpoint process_records (d : buckets) (records : list history_record) : result buckets :=
  match records with
  | [] => Ok d
  | record :: rest =>
      d' <- process_record d record ;;
      process_records d' rest
  end.

Definition assign_rewards_to_decisions (records : list history_record) : result buckets :=
  process_records [] records.

(** *** Notions used to state the properties of the engine *)

(** The listeners stored under [k], none when the key is absent. *)
Definition bucket (k : string) (d : buckets) : list history_record :=
  dict_get_default k d [].

(** The rewards that processing [record] hands to [update_listeners] for the
    bucket [k]: the entries of a rewards record under the key [k], the value
    of an event, nothing for a decision. *)
Definition rewards_for (k : string) (record : history_record) : list value :=
  if type_is record "decision" then []
  else if type_is record "rewards" then
    match rewards_items record with
    | Ok items => map snd (filter (fun kv => String.eqb (fst kv) k) items)
    | Raise _ => []
    end
  else if type_is record "event" then
    match event_reward record with
    | Ok v => [v]
    | Raise _ => []
    end
  else [].

(** Every (record, reward) pair of [records] addressed to the bucket [k], in
    the order the engine meets them. *)
Definition touches (k : string) (records : list history_record)
  : list (history_record * value) :=
  flat_map (fun r => map (fun v => (r, v)) (rewards_for k r)) records.

(** The listeners [ls] after the calls of [update_listeners] for the pairs
    [ts], one after the other. *)
Fixpoint apply_touches (ls : list history_record) (ts : list (history_record * value))
  : result (list history_record) :=
  match ts with
  | [] => Ok ls
  | (r, v) :: rest =>
      ls' <- update_listeners ls r v ;;
      apply_touches ls' rest
  end.

(** What enrolling [record] appends to the bucket [k]. *)
Definition enrolled (k : string) (record : history_record) : result (list history_record) :=
  if type_is record "decision" then
    key <- reward_key_of record ;;
    Ok (if String.eqb key k then [record] else [])
  else Ok [].

(** The bucket [k] along the loop of [assign_rewards_to_decisions], seen on
    its own. *)
Fixpoint evolve (k : string) (ls : list history_record) (records : list history_record)
  : result (list history_record) :=
  match records with
  | [] => Ok ls
  | r :: rest =>
      ls' <- apply_touches ls (map (fun v => (r, v)) (rewards_for k r)) ;;
      new <- enrolled k r ;;
      evolve k (ls' ++ new) rest
  end.

(** The same pairs as (instant, amount) contributions. *)
Fixpoint contributions (ts : list (history_record * value)) : result (list (Z * float)) :=
  match ts with
  | [] => Ok []
  | (r, v) :: rest =>
      t <- strptime_timestamp r ;;
      a <- to_float v ;;
      cs <- contributions rest ;;
      Ok ((t, a) :: cs)
  end.

(** The reward a listener holds before an addition:
    [listener.get('reward', DEFAULT_REWARD_VALUE)] as a number. *)
Definition initial_reward (listener : history_record) : result float :=
  number_of (dict_get_default "reward" listener (VNum (DEFAULT_REWARD_VALUE cfg))).

(** The instants of the records, in order. *)
Fixpoint timestamps (records : list history_record) : result (list Z) :=
  match records with
  | [] => Ok []
  | r :: rest =>
      t <- strptime_timestamp r ;;
      ts <- timestamps rest ;;
      Ok (t :: ts)
  end.

Fixpoint sortedb (ts : list Z) : bool :=
  match ts with
  | a :: (b :: _) as rest => (a <=? b) && sortedb rest
  | _ => true
  end.

(** The records are sorted by their [timestamp] property. *)
Definition records_sorted (records : list history_record) : bool :=
  match timestamps records with
  | Ok ts => sortedb ts
  | Raise _ => false
  end.

(** The shape of an emitted listener [D] that started as [l] and received the
    contributions [cs]: untouched when there are none, and otherwise [l] with
    its reward set to the initial reward plus the amounts, added in order, all
    of them no later than the end of the window of [l]. *)
Definition rewarded_form (l : history_record) (cs : list (Z * float)) (D : history_record)
  : Prop :=
  match cs with
  | [] => D = l
  | _ :: _ =>
      exists tl r0,
        strptime_timestamp l = Ok tl /\ initial_reward l = Ok r0 /\
        Forall (fun c => fst c <= tl + window cfg) cs /\
        D = dict_set "reward" (VNum (fold_left PrimFloat.add (map snd cs) r0)) l
  end.

Definition is_ok {A : Type} (m : result A) : bool :=
  match m with
  | Ok _ => true
  | Raise _ => false
  end.

(** A reward that [float()] converts: a number, a boolean, or a string that
    writes a number. *)
Definition convertible (v : value) : bool := is_ok (to_float v).

(** The end of the window of a listener, [listener_timestamp + window]. *)
Definition window_end (listener : history_record) : result datetime :=
  listener_timestamp <- strptime_datetime listener ;;
  datetime_add listener_timestamp (window cfg).

(** A record the engine can process whatever came before it: its timestamp
    parses and its type is one of the three; a decision has a string (or no)
    reward key, a numeric (or no) reward, and a window that ends within the
    range of [datetime]; the rewards of a rewards record and the value of an
    event are convertible. *)
Definition well_formed (r : history_record) : bool :=
  is_ok (strptime_timestamp r) &&
  (if type_is r "decision" then
     is_ok (reward_key_of r) && is_ok (initial_reward r) && is_ok (window_end r)
   else if type_is r "rewards" then
     match rewards_items r with
     | Ok items => forallb (fun kv => convertible (snd kv)) items
     | Raise _ => false
     end
   else if type_is r "event" then
     match event_reward r with
     | Ok v => convertible v
     | Raise _ => false
     end
   else false).



End Engine.

(** ** Bytes and 32-bit words *)

(** The UTF-8 bytes of a string ([s.encode()]); a [string] holds them. *)
Fixpoint bytes_of (s : string) : list Z :=
  match s with
  | EmptyString => []
  | String c rest => Z.of_N (N_of_ascii c) :: bytes_of rest
  end.

Definition wrap32 (x : Z) : Z := x mod 4294967296.

Definition rotl32 (x r : Z) : Z :=
  wrap32 (Z.lor (Z.shiftl x r) (Z.shiftr x (32 - r))).

Definition rotr32 (x r : Z) : Z :=
  wrap32 (Z.lor (Z.shiftr x r) (Z.shiftl x (32 - r))).

(** ** MurmurHash3_x86_32 ([mmh3.hash]) *)

Definition murmur_c1 : Z := 0xcc9e2d51.
Definition murmur_c2 : Z := 0x1b873593.

(** The scrambling of one 32-bit block. *)
Definition murmur_scramble (k : Z) : Z :=
  wrap32 (rotl32 (wrap32 (k * murmur_c1)) 15 * murmur_c2).

(** The body over the 4-byte little-endian blocks, then the tail of one to
    three bytes. *)
Fixpoint murmur_body (h : Z) (data : list Z) : Z :=
  match data with
  | b0 :: b1 :: b2 :: b3 :: rest =>
      let k := b0 + Z.shiftl b1 8 + Z.shiftl b2 16 + Z.shiftl b3 24 in
      let h1 := rotl32 (Z.lxor h (murmur_scramble k)) 13 in
      murmur_body (wrap32 (h1 * 5 + 0xe6546b64)) rest
  | [b0; b1; b2] => Z.lxor h (murmur_scramble (b0 + Z.shiftl b1 8 + Z.shiftl b2 16))
  | [b0; b1] => Z.lxor h (murmur_scramble (b0 + Z.shiftl b1 8))
  | [b0] => Z.lxor h (murmur_scramble b0)
  | [] => h
  end.

(** The final avalanche. *)
Definition murmur_fmix (h : Z) : Z :=
  let h1 := Z.lxor h (Z.shiftr h 16) in
  let h2 := wrap32 (h1 * 0x85ebca6b) in
  let h3 := Z.lxor h2 (Z.shiftr h2 13) in
  let h4 := wrap32 (h3 * 0xc2b2ae35) in
  Z.lxor h4 (Z.shiftr h4 16).

(** [mmh3.hash(key, seed, signed=False)]. *)
Definition mmh3_hash (key : string) (seed : Z) : Z :=
  let data := bytes_of key in
  murmur_fmix (Z.lxor (murmur_body (wrap32 seed) data) (Z.of_nat (List.length data))).

(** ** The shard planner ([worker.py]) *)

(** A continuation byte of a UTF-8 sequence ([10xxxxxx]). *)
Definition is_continuation (c : ascii) : bool :=
  let b := Z.of_N (N_of_ascii c) in (128 <=? b) && (b <? 192).

(** [s[:n]]: the first [n] characters of [s]. *)
Fixpoint str_prefix (n : nat) (s : string) : string :=
  match s with
  | EmptyString => EmptyString
  | String c rest =>
      if is_continuation c then String c (str_prefix n rest)
      else match n with
           | O => EmptyString
           | S n' => String c (str_prefix n' rest)
           end
  end.

(** An entry of a directory listing: a [Path] with what [is_dir()] says. *)
Record path : Type := {
  name : string;
  is_dir : bool
}.

(** [(mmh3.hash(d.name[:2], signed=False) % node_count) == node_id]; the
    modulo raises [ZeroDivisionError] when [node_count] is zero. *)
Definition owned_by (d : path) (node_id node_count : Z) : option bool :=
  if node_count =? 0 then None
  else Some (mmh3_hash (str_prefix 2 (name d)) 0 mod node_count =? node_id).

(** [identify_dirs_to_process(input_dir, node_id, node_count)], over the
    entries that [input_dir.iterdir()] yields; [None] is [ZeroDivisionError]. *)
Fixpoint identify_dirs_to_process (entries : list path) (node_id node_count : Z)
  : option (list path) :=
  match entries with
  | [] => Some []
  | d :: rest =>
      if is_dir d then
        match owned_by d node_id node_count with
        | None => None
        | Some mine =>
            match identify_dirs_to_process rest node_id node_count with
            | None => None
            | Some dirs_to_process => Some (if mine then d :: dirs_to_process else dirs_to_process)
            end
        end
      else identify_dirs_to_process rest node_id node_count
  end.

(** ** SHA-256 ([hashlib.sha256(...).hexdigest()]) *)

(** Trial division: [n] has no divisor among [2 .. 2 + fuel - 1]. *)
Fixpoint no_divisor (n : Z) (from : Z) (fuel : nat) : bool :=
  match fuel with
  | O => true
  | S fuel' =>
      if n <? from * from then true
      else if n mod from =? 0 then false
      else no_divisor n (from + 1) fuel'
  end.

(** The primes below 312: the first 64 of them. *)
Definition first_primes : list Z :=
  filter (fun n => no_divisor n 2 20) (map Z.of_nat (seq 2 310)).

(** The integer cube root of [n], built bit by bit from bit [bits - 1] down. *)
Fixpoint cube_root (bits : nat) (r n : Z) : Z :=
  match bits with
  | O => r
  | S b =>
      let r' := r + 2 ^ Z.of_nat b in
      cube_root b (if r' * r' * r' <=? n then r' else r) n
  end.

(** The round constants: the first 32 bits of the fractional parts of the
    cube roots of the first 64 primes. *)
Definition sha256_k : list Z :=
  Eval vm_compute in map (fun p => wrap32 (cube_root 36 0 (p * 2 ^ 96))) first_primes.

(** The initial state: the first 32 bits of the fractional parts of the
    square roots of the first 8 primes. *)
Definition sha256_h0 : list Z :=
  Eval vm_compute in map (fun p => wrap32 (Z.sqrt (p * 2 ^ 64))) (firstn 8 first_primes).

(** The big-endian bytes of [x], [n] of them. *)
Fixpoint be_bytes (n : nat) (x : Z) : list Z :=
  match n with
  | O => []
  | S n' => be_bytes n' (Z.shiftr x 8) ++ [x mod 256]
  end.

(** The message followed by the bit [1], zeros, and its length in bits, up to
    a multiple of 64 bytes. *)
Definition sha256_pad (msg : list Z) : list Z :=
  let len := Z.of_nat (List.length msg) in
  let zeros := Z.to_nat ((55 - len) mod 64) in
  msg ++ [128] ++ repeat 0 zeros ++ be_bytes 8 (len * 8).

(** Big-endian 32-bit words of a byte list. *)
Fixpoint be_words (data : list Z) : list Z :=
  match data with
  | b0 :: b1 :: b2 :: b3 :: rest =>
      (Z.shiftl b0 24 + Z.shiftl b1 16 + Z.shiftl b2 8 + b3) :: be_words rest
  | _ => []
  end.

Definition sha256_s0 (x : Z) : Z :=
  Z.lxor (Z.lxor (rotr32 x 7) (rotr32 x 18)) (Z.shiftr x 3).

Definition sha256_s1 (x : Z) : Z :=
  Z.lxor (Z.lxor (rotr32 x 17) (rotr32 x 19)) (Z.shiftr x 10).

(** The message schedule, latest word first: [n] more words after [w]. *)
Fixpoint sha256_schedule (n : nat) (w : list Z) : list Z :=
  match n with
  | O => w
  | S n' =>
      let next := wrap32 (sha256_s1 (nth 1 w 0) + nth 6 w 0 + sha256_s0 (nth 14 w 0) + nth 15 w 0) in
      sha256_schedule n' (next :: w)
  end.

(** One round on the working variables [a..h]. *)
Definition sha256_round (s : list Z) (kw : Z * Z) : list Z :=
  match s with
  | [a; b; c; d; e; f; g; h] =>
      let S1 := Z.lxor (Z.lxor (rotr32 e 6) (rotr32 e 11)) (rotr32 e 25) in
      let ch := Z.lxor (Z.land e f) (Z.land (wrap32 (Z.lnot e)) g) in
      let t1 := wrap32 (h + S1 + ch + fst kw + snd kw) in
      let S0 := Z.lxor (Z.lxor (rotr32 a 2) (rotr32 a 13)) (rotr32 a 22) in
      let maj := Z.lxor (Z.lxor (Z.land a b) (Z.land a c)) (Z.land b c) in
      let t2 := wrap32 (S0 + maj) in
      [wrap32 (t1 + t2); a; b; c; wrap32 (d + t1); e; f; g]
  | _ => s
  end.

(** The compression of one 64-byte block into the state. *)
Definition sha256_block (state : list Z) (block : list Z) : list Z :=
  let w := rev (sha256_schedule 48 (rev (be_words block))) in
  let s := fold_left sha256_round (combine sha256_k w) state in
  map (fun p => wrap32 (fst p + snd p)) (combine state s).

Fixpoint sha256_blocks (fuel : nat) (state : list Z) (data : list Z) : list Z :=
  match fuel, data with
  | S fuel', _ :: _ => sha256_blocks fuel' (sha256_block state (firstn 64 data)) (skipn 64 data)
  | _, _ => state
  end.

Definition hex_digit (x : Z) : ascii :=
  ascii_of_N (Z.to_N (if x <? 10 then 48 + x else 87 + x)).

Fixpoint hex_of_bytes (data : list Z) : string :=
  match data with
  | [] => EmptyString
  | b :: rest => String (hex_digit (b / 16)) (String (hex_digit (b mod 16)) (hex_of_bytes rest))
  end.

(** [hashlib.sha256(s.encode()).hexdigest()]. *)
Definition sha256_hexdigest (s : string) : string :=
  let data := sha256_pad (bytes_of s) in
  let state := sha256_blocks (List.length data) sha256_h0 data in
  hex_of_bytes (flat_map (be_bytes 4) state).

(** ** The history loader ([assign_rewards/utils.py]) *)

(** A line of an input file as [json.loads] sees it: the decoded value, or
    [Malformed] when decoding raises [JSONDecodeError]. *)
Inductive line : Type :=
| Decoded (v : value)
| Malformed.

(** A gzipped file: [lines] is what [gzip.open] and [gzf.readlines()] give,
    the lines, or the exception raised while opening or reading:
    [BadGzipFile] for a corrupt archive, [UnicodeDecodeError] for content
    that is not UTF-8. *)
Record file : Type := {
  file_name : string;
  lines : result (list line)
}.

(** The counters of the [stats] object that the loader increments. *)
Record stats : Type := {
  duplicate_records : Z;
  unique_records : Z;
  unrecoverable_parse_errors : Z
}.

(** What loading reads and writes besides its result: the set of message ids
    seen, the counters, and the files under [UNRECOVERABLE_PATH], by name. *)
Record loader_state : Type := {
  message_ids : list string;
  counters : stats;
  unrecoverable : dict file
}.

(** [v[k]] for a string [k]. *)
Definition subscript (v : value) (k : string) : result value :=
  match v with
  | VDict d =>
      match dict_get k d with
      | Some x => Ok x
      | None => Raise KeyError
      end
  | _ => Raise TypeError
  end.

(** [v[k] = x]. *)
Definition store (v : value) (k : string) (x : value) : result history_record :=
  match v with
  | VDict d => Ok (dict_set k x d)
  | _ => Raise TypeError
  end.

(** A message id as a member of the set [message_ids]. *)
Definition hashable_id (v : value) : result string :=
  match v with
  | VStr s => Ok s
  | VList _ | VDict _ => Raise TypeError
  | VNone | VBool _ | VNum _ | VDatetime _ => Raise Unsupported
  end.

Definition mem_string (s : string) (l : list string) : bool :=
  existsb (String.eqb s) l.

(** [stats[RECORD_COUNT] += n] and
    [stats[UNRECOVERABLE_PARSE_ERROR_COUNT] += 1]. *)
Definition count_records (c : stats) (n : Z) : stats :=
  {| duplicate_records := duplicate_records c;
     unique_records := unique_records c + n;
     unrecoverable_parse_errors := unrecoverable_parse_errors c |}.

Definition count_unrecoverable (c : stats) : stats :=
  {| duplicate_records := duplicate_records c;
     unique_records := unique_records c;
     unrecoverable_parse_errors := unrecoverable_parse_errors c + 1 |}.

(** [copy_to_unrecoverable(file)]: the file is copied under its own name. *)
Definition copy_to_unrecoverable (f : file) (dir : dict file) : dict file :=
  dict_set (file_name f) f dir.

(** What [dateutil.parser.parse] makes of a string: the instant parsed, or one
    of the two exceptions it raises, [ParserError] (a [ValueError]) for a
    string that is no date, and [OverflowError] for a date with a number too
    large for the platform. *)
Inductive parsed : Type :=
| Parsed (t : Z)
| ParserError
| ParserOverflow.

Section Loader.

(** [dateutil.parser.parse] on a string. *)
Variable dateutil_parse : string -> parsed.

(** [dateutil.parser.parse(v)]. *)
Definition parse_timestamp (v : value) : result Z :=
  match v with
  | VStr s =>
      match dateutil_parse s with
      | Parsed t => Ok t
      | ParserError => Raise ValueError
      | ParserOverflow => Raise OverflowError
      end
  | _ => Raise TypeError
  end.

(** The body of the inner [try] for one line: the record to append and its
    message id, or [None] for a duplicate. *)
Definition load_line (l : line) (ids : list string) : result (option (history_record * string)) :=
  match l with
  | Malformed => Raise JSONDecodeError
  | Decoded v =>
      timestamp <- subscript v "timestamp" ;;
      parsed <- parse_timestamp timestamp ;;
      record <- store v "timestamp" (VDatetime parsed) ;;
      message_id <- subscript (VDict record) "message_id" ;;
      id <- hashable_id message_id ;;
      if negb (mem_string id ids) then Ok (Some (record, id)) else Ok None
  end.

(** [except (json.decoder.JSONDecodeError, ValueError)], which also catches
    the subclass [UnicodeDecodeError]. *)
Definition caught_per_line (e : exn) : bool :=
  match e with
  | JSONDecodeError | ValueError | UnicodeDecodeError => true
  | _ => false
  end.

(** [except (zlib.error, EOFError, gzip.BadGzipFile)]. *)
Definition caught_per_file (e : exn) : bool :=
  match e with
  | BadGzipFile => true
  | _ => false
  end.

(** The local variables of [load_records] while it reads the lines. *)
Record reading : Type := {
  records_read : list history_record;
  ids_seen : list string;
  duplicates : Z;
  error : option exn
}.

(** The loop over [gzf.readlines()]. *)
Fixpoint load_lines (ls : list line) (st : reading) : result reading :=
  match ls with
  | [] => Ok st
  | l :: rest =>
      match load_line l (ids_seen st) with
      | Ok (Some (record, id)) =>
          load_lines rest
            {| records_read := records_read st ++ [record];
               ids_seen := id :: ids_seen st;
               duplicates := duplicates st;
               error := error st |}
      | Ok None =>
          load_lines rest
            {| records_read := records_read st;
               ids_seen := ids_seen st;
               duplicates := duplicates st + 1;
               error := error st |}
      | Raise e =>
          if caught_per_line e then
            load_lines rest
              {| records_read := records_read st;
                 ids_seen := ids_seen st;
                 duplicates := duplicates st;
                 error := Some e |}
          else Raise e
      end
  end.

(** [load_records(file, message_ids, stats)]: the records returned and the
    state left behind, or the exception that escapes. *)
Definition load_records (f : file) (s : loader_state)
  : result (list history_record * loader_state) :=
  let start := {| records_read := []; ids_seen := message_ids s;
                  duplicates := 0; error := None |} in
  st <- match lines f with
        | Ok ls => load_lines ls start
        | Raise e =>
            if caught_per_file e then
              Ok {| records_read := []; ids_seen := message_ids s;
                    duplicates := 0; error := Some e |}
            else Raise e
        end ;;
  let c := {| duplicate_records := duplicate_records (counters s) + duplicates st;
              unique_records := unique_records (counters s);
              unrecoverable_parse_errors := unrecoverable_parse_errors (counters s) |} in
  let quarantined := match error st with Some _ => true | None => false end in
  Ok (records_read st,
      {| message_ids := ids_seen st;
         counters := count_records (if quarantined then count_unrecoverable c else c)
                       (Z.of_nat (List.length (records_read st)));
         unrecoverable := if quarantined then copy_to_unrecoverable f (unrecoverable s)
                          else unrecoverable s |}).

(** The loop of [load_history] over the files of a group. *)
Fixpoint load_files (file_group : list file) (records : list history_record) (s : loader_state)
  : result (list history_record * loader_state) :=
  match file_group with
  | [] => Ok (records, s)
  | f :: rest =>
      loaded <- load_records f s ;;
      load_files rest (records ++ fst loaded) (snd loaded)
  end.

(** [load_history(file_group, stats)], with the quarantine directory as it
    stands before the call. *)
Definition load_history (file_group : list file) (c : stats) (dir : dict file)
  : result (list history_record * loader_state) :=
  load_files file_group [] {| message_ids := []; counters := c; unrecoverable := dir |}.

End Loader.

(** ** The validator ([assign_rewards/utils.py]) *)

(** [if history_id:], for [None] or a string. *)
Definition truthy (history_id : option string) : bool :=
  match history_id with
  | Some s => negb (String.eqb s "")
  | None => false
  end.

(** [validate_record(record, history_id, hashed_history_id)]: returns, or
    raises. *)
Definition validate_record (record : history_record) (history_id : option string)
  (hashed_history_id : string) : result unit :=
  if negb (dict_has "timestamp" record) || negb (dict_has "type" record)
     || negb (dict_has "history_id" record)
  then Raise ValueError
  else if type_is record "decision" && negb (dict_has "model" record)
  then Raise ValueError
  else
    let record_history_id := dict_get_default "history_id" record VNone in
    if truthy history_id then
      match record_history_id, history_id with
      | VStr s, Some h => if String.eqb h s then Ok tt else Raise ValueError
      | _, _ => Raise ValueError
      end
    else
      match record_history_id with
      | VStr s =>
          if String.eqb (sha256_hexdigest s) hashed_history_id then Ok tt
          else Raise ValueError
      | _ => Raise AttributeError
      end.

(** The local variables of [filter_valid_records]. *)
Record filtering : Type := {
  results : list history_record;
  latched_history_id : option string;
  skipped_record_count : Z
}.

(** One iteration of the loop of [filter_valid_records]; [except Exception]
    catches whatever validation raises. *)
Definition filter_step (hashed_history_id : string) (st : filtering) (record : history_record)
  : filtering :=
  match validate_record record (latched_history_id st) hashed_history_id with
  | Ok _ =>
      {| results := results st ++ [record];
         latched_history_id :=
           if truthy (latched_history_id st) then latched_history_id st
           else match dict_get "history_id" record with
                | Some (VStr s) => Some s
                | _ => latched_history_id st
                end;
         skipped_record_count := skipped_record_count st |}
  | Raise _ =>
      {| results := results st;
         latched_history_id := latched_history_id st;
         skipped_record_count := skipped_record_count st + 1 |}
  end.

Definition filter_loop (hashed_history_id : string) (records : list history_record) (st : filtering)
  : filtering :=
  fold_left (filter_step hashed_history_id) records st.

(** [filter_valid_records(hashed_history_id, records)]. *)
Definition filter_valid_records (hashed_history_id : string) (records : list history_record)
  : list history_record :=
  results (filter_loop hashed_history_id records
             {| results := []; latched_history_id := None; skipped_record_count := 0 |}).

(** The number of skipped records that [filter_valid_records] prints. *)
Definition skipped_records (hashed_history_id : string) (records : list history_record) : Z :=
  skipped_record_count (filter_loop hashed_history_id records
             {| results := []; latched_history_id := None; skipped_record_count := 0 |}).

(** ** A concrete configuration *)

Definition digit_of (c : ascii) : option Z :=
  let n := Z.of_N (N_of_ascii c) in
  if (48 <=? n) && (n <=? 57) then Some (n - 48) else None.

(** The number written by the first [n] characters, and the rest. *)
Fixpoint take_number (n : nat) (acc : Z) (cs : list ascii) : option (Z * list ascii) :=
  match n with
  | O => Some (acc, cs)
  | S n' =>
      match cs with
      | c :: rest =>
          match digit_of c with
          | Some d => take_number n' (acc * 10 + d) rest
          | None => None
          end
      | [] => None
      end
  end.

(** The leading digits, at most [n] of them: their number, how many, the rest. *)
Fixpoint take_digits (n : nat) (acc : Z) (count : nat) (cs : list ascii)
  : Z * nat * list ascii :=
  match n, cs with
  | S n', c :: rest =>
      match digit_of c with
      | Some d => take_digits n' (acc * 10 + d) (S count) rest
      | None => (acc, count, cs)
      end
  | _, _ => (acc, count, cs)
  end.

Definition expect (c : ascii) (cs : list ascii) : option (list ascii) :=
  match cs with
  | c' :: rest => if Ascii.eqb c c' then Some rest else None
  | [] => None
  end.

Definition is_leap (y : Z) : bool :=
  ((y mod 4 =? 0) && negb (y mod 100 =? 0)) || (y mod 400 =? 0).

Definition days_in_month (y m : Z) : Z :=
  if m =? 2 then (if is_leap y then 29 else 28)
  else if (m =? 4) || (m =? 6) || (m =? 9) || (m =? 11) then 30
  else 31.

(** Days from 1970-01-01 to the given date of the proleptic Gregorian
    calendar. *)
Definition days_from_civil (y m d : Z) : Z :=
  let y' := if m <=? 2 then y - 1 else y in
  let era := y' / 400 in
  let yoe := y' - era * 400 in
  let doy := (153 * (if 2 <? m then m - 3 else m + 9) + 2) / 5 + d - 1 in
  let doe := yoe * 365 + yoe / 4 - yoe / 100 + doy in
  era * 146097 + doe - 719468.

(** The offset in seconds that [%z] reads: [Z], [+HH:MM] or [+HHMM]. *)
Definition take_zone (cs : list ascii) : option Z :=
  match cs with
  | [c] => if Ascii.eqb c "Z" then Some 0 else None
  | sign :: rest =>
      match take_number 2 0 rest with
      | Some (hh, rest1) =>
          let rest2 := match expect ":" rest1 with Some r => r | None => rest1 end in
          match take_number 2 0 rest2 with
          | Some (mm, []) =>
              if (hh <? 24) && (mm <? 60) then
                if Ascii.eqb sign "+" then Some (hh * 3600 + mm * 60)
                else if Ascii.eqb sign "-" then Some (- (hh * 3600 + mm * 60))
                else None
              else None
          | _ => None
          end
      | None => None
      end
  | [] => None
  end.

Definition option_bind {A B : Type} (m : option A) (k : A -> option B) : option B :=
  match m with
  | Some a => k a
  | None => None
  end.

(** Modelled from the spec: [DATETIME_FORMAT] is not part of the sources; the
    tests write timestamps as [2020-01-01T00:00:00.000-05:00] and the spec as
    ISO-8601 with a time-zone offset, which is the format
    [%Y-%m-%dT%H:%M:%S.%f%z].  [strptime_iso] reads that format, with two-digit
    fields and one to six digits of fraction, into the instant, in
    microseconds since 1970-01-01T00:00:00Z, and the time that the fields
    show; [None] is [ValueError]. *)
Definition strptime_iso (s : string) : option datetime :=
  option_bind (take_number 4 0 (list_ascii_of_string s)) (fun '(year, r) =>
  option_bind (expect "-" r) (fun r =>
  option_bind (take_number 2 0 r) (fun '(month, r) =>
  option_bind (expect "-" r) (fun r =>
  option_bind (take_number 2 0 r) (fun '(day, r) =>
  option_bind (expect "T" r) (fun r =>
  option_bind (take_number 2 0 r) (fun '(hour, r) =>
  option_bind (expect ":" r) (fun r =>
  option_bind (take_number 2 0 r) (fun '(minute, r) =>
  option_bind (expect ":" r) (fun r =>
  option_bind (take_number 2 0 r) (fun '(second, r) =>
  option_bind (expect "." r) (fun r =>
  let '(fraction, count, r) := take_digits 6 0 0 r in
  option_bind (take_zone r) (fun offset =>
  if (1 <=? year) && (1 <=? month) && (month <=? 12) && (1 <=? day)
     && (day <=? days_in_month year month) && (hour <? 24) && (minute <? 60)
     && (second <? 60) && (0 <? Z.of_nat count)
  then
    let shown := (days_from_civil year month day * 86400 + hour * 3600 + minute * 60
                  + second) * 1000000
                 + fraction * 10 ^ (6 - Z.of_nat count) in
    Some {| instant := shown - offset * 1000000; wall := shown |}
  else None))))))))))))).

(** The instant alone. *)
Definition instant_iso (s : string) : option Z :=
  option_map instant (strptime_iso s).

(** [dateutil.parser.parse] on the timestamps of the runs below, which are
    written in that format: the instant, or [ParserError] for a date that
    does not exist. *)
Definition dateutil_iso (s : string) : parsed :=
  match instant_iso s with
  | Some t => Parsed t
  | None => ParserError
  end.

(** ASCII white space, as [str.isspace] has it. *)
Definition is_space (c : ascii) : bool :=
  let n := Z.of_N (N_of_ascii c) in
  ((9 <=? n) && (n <=? 13)) || ((28 <=? n) && (n <=? 32)).

Fixpoint drop_spaces (cs : list ascii) : list ascii :=
  match cs with
  | c :: rest => if is_space c then drop_spaces rest else cs
  | [] => []
  end.

Definition strip (cs : list ascii) : list ascii :=
  rev (drop_spaces (rev (drop_spaces cs))).

(** The digits that follow in a [digitpart], where one underscore may stand
    between two digits: the number with them appended to [acc], how many
    there are, and the rest. *)
Fixpoint more_digits (acc : Z) (count : Z) (cs : list ascii) : Z * Z * list ascii :=
  match cs with
  | c :: rest =>
      match digit_of c with
      | Some d => more_digits (acc * 10 + d) (count + 1) rest
      | None =>
          if Ascii.eqb c "_" then
            match rest with
            | c' :: rest' =>
                match digit_of c' with
                | Some d => more_digits (acc * 10 + d) (count + 1) rest'
                | None => (acc, count, cs)
                end
            | [] => (acc, count, cs)
            end
          else (acc, count, cs)
      end
  | [] => (acc, count, cs)
  end.

(** A [digitpart] appended to [acc], if one starts here. *)
Definition digitpart (acc : Z) (cs : list ascii) : option (Z * Z * list ascii) :=
  match cs with
  | c :: rest =>
      match digit_of c with
      | Some d => Some (more_digits (acc * 10 + d) 1 rest)
      | None => None
      end
  | [] => None
  end.

Definition lower (c : ascii) : ascii :=
  let n := N_of_ascii c in
  if (65 <=? n)%N && (n <=? 90)%N then ascii_of_N (n + 32) else c.

Definition sign_of (cs : list ascii) : bool * list ascii :=
  match cs with
  | c :: rest =>
      if Ascii.eqb c "-" then (true, rest)
      else if Ascii.eqb c "+" then (false, rest)
      else (false, cs)
  | [] => (false, cs)
  end.

(** [mantissa * 10 ^ exponent] for a positive mantissa of [digits] digits,
    rounded to the nearest double, ties to even. *)
Definition decimal_to_float (mantissa digits exponent : Z) : float :=
  if mantissa =? 0 then 0%float
  else if 310 <? exponent then infinity
  else if digits + exponent <? -330 then 0%float
  else if 0 <=? exponent then
    SF2Prim (binary_normalize prec emax (mantissa * 10 ^ exponent) 0 false)
  else
    SF2Prim (SFdiv prec emax
               (S754_finite false (Z.to_pos mantissa) 0)
               (S754_finite false (Z.to_pos (10 ^ (- exponent))) 0)).

(** [floatnumber]: the mantissa, the number of its digits and the exponent of
    ten, when the characters are one and nothing follows. *)
Definition floatnumber (cs : list ascii) : option (Z * Z * Z) :=
  let whole := digitpart 0 cs in
  let '(m1, n1, rest1) :=
    match whole with
    | Some x => x
    | None => (0, 0, cs)
    end in
  let fraction :=
    match rest1 with
    | c :: rest =>
        if Ascii.eqb c "." then
          match digitpart m1 rest with
          | Some (m2, n2, rest2) => Some (m2, n2, rest2)
          | None =>
              match whole with
              | Some _ => Some (m1, 0, rest)
              | None => None
              end
          end
        else match whole with Some _ => Some (m1, 0, rest1) | None => None end
    | [] => match whole with Some _ => Some (m1, 0, rest1) | None => None end
    end in
  match fraction with
  | None => None
  | Some (m, n2, rest2) =>
      match rest2 with
      | [] => Some (m, n1 + n2, - n2)
      | c :: rest =>
          if Ascii.eqb (lower c) "e" then
            let '(negative, rest3) := sign_of rest in
            match digitpart 0 rest3 with
            | Some (e, _, []) => Some (m, n1 + n2, (if negative then - e else e) - n2)
            | _ => None
            end
          else None
      end
  end.

(** [float(s)] for a string of ASCII characters; [None] is [ValueError]. *)
Definition float_of_ascii (s : string) : option float :=
  let '(negative, cs) := sign_of (strip (list_ascii_of_string s)) in
  let name := string_of_list_ascii (map lower cs) in
  let absolute :=
    if String.eqb name "inf" || String.eqb name "infinity" then Some infinity
    else if String.eqb name "nan" then Some nan
    else
      match floatnumber cs with
      | Some (m, digits, exponent) => Some (decimal_to_float m digits exponent)
      | None => None
      end in
  match absolute with
  | Some x => Some (if negative then (- x)%float else x)
  | None => None
  end.

(** The records of the spec's scenarios. *)
Definition decision_at (ts key : string) : history_record :=
  [("type", VStr "decision"); ("timestamp", VStr ts); ("reward_key", VStr key)].

Definition rewards_at (ts : string) (items : list (string * value)) : history_record :=
  [("type", VStr "rewards"); ("timestamp", VStr ts); ("rewards", VDict items)].

Definition event_at (ts : string) (properties : list (string * value)) : history_record :=
  [("type", VStr "event"); ("timestamp", VStr ts); ("properties", VDict properties)].

(** The configuration of the spec's scenarios: a window of 60 seconds, the
    default key [default], rewards starting from 0 and events worth 0 by
    default. *)
Definition scenario_config : config :=
  {| DEFAULT_REWARD_WINDOW_IN_SECONDS := 60;
     DEFAULT_REWARD_KEY := "default";
     DEFAULT_REWARD_VALUE := 0%float;
     DEFAULT_EVENTS_REWARD_VALUE := 0%float;
     strptime := strptime_iso;
     float_of_str := float_of_ascii |}.

(** ** Concrete data and the claims as the spec states them *)

(** The listing of the sharding test: three directories and a stray file. *)
Definition test_listing : list path :=
  [ {| name := "aa"; is_dir := true |};
    {| name := "bb"; is_dir := true |};
    {| name := "cc"; is_dir := true |};
    {| name := "aa1.jsonl"; is_dir := false |} ].

Definition t0 : string := "2020-01-01T00:00:00.000Z".

(** [decision@t0 key=k; rewards@t0+30s {k: 1.5}]: the second scenario of the
    spec. *)
Definition scenario_2 : list history_record :=
  [ decision_at t0 "k"; rewards_at "2020-01-01T00:00:30.000Z" [("k", VNum 1.5)] ].

(** [decision@t0 key=k; rewards@t0+60s {k: 2}]: the third scenario of the
    spec. *)
Definition scenario_3 : list history_record :=
  [ decision_at t0 "k"; rewards_at "2020-01-01T00:01:00.000Z" [("k", VNum 2)] ].

(** A rewards record at the very instant of the decision it follows. *)
Definition same_instant_records : list history_record :=
  [ decision_at t0 "k"; rewards_at t0 [("k", VNum 2)] ].

(** [decision@t0 key=k; rewards@t0+60.001s {k: 2}]: the fourth scenario of the
    spec. *)
Definition scenario_4 : list history_record :=
  [ decision_at t0 "k"; rewards_at "2020-01-01T00:01:00.001Z" [("k", VNum 2)] ].

(** The decision of the scenarios with a reward. *)
Definition rewarded_decision (x : float) : history_record :=
  decision_at t0 "k" ++ [("reward", VNum x)].

(** The sum the claim C1 names: the amounts of the contributions [cs] whose
    instant [t] satisfies [t_D < t <= t_D + window]. *)
Definition open_window_sum (cfg : config) (t_D : Z) (cs : list (Z * float)) : float :=
  fold_left PrimFloat.add
    (map snd (filter (fun c => (t_D <? fst c) && (fst c <=? t_D + window cfg)) cs))
    0%float.

(** C1 as the spec states it, for one record list: the reward of every
    emitted decision (0 when it carries none) is the sum of the contributions
    for its key that fall in the half-open window [(t_D, t_D + window]]. *)
Definition reward_is_open_window_sum (cfg : config) (records : list history_record) : Prop :=
  records_sorted cfg records = true ->
  forall out k ls D t_D cs,
    assign_rewards_to_decisions cfg records = Ok out ->
    dict_get k out = Some ls ->
    In D ls ->
    strptime_timestamp cfg D = Ok t_D ->
    contributions cfg (touches cfg k records) = Ok cs ->
    number_of (dict_get_default "reward" D (VNum 0)) = Ok (open_window_sum cfg t_D cs).

(** C3 as the spec states it: a record at the very instant of a listener
    leaves the listener as it was. *)
Definition same_instant_is_not_added (cfg : config) : Prop :=
  forall listener record reward t listeners',
    strptime_timestamp cfg listener = Ok t ->
    strptime_timestamp cfg record = Ok t ->
    update_listeners cfg [listener] record reward = Ok listeners' ->
    listeners' = [listener].

(** C4 as the spec states it, for one record list: a decision that no
    contribution follows is emitted with a [reward] field equal to 0. *)
Definition unrewarded_decision_has_reward_zero (cfg : config) (records : list history_record)
  : Prop :=
  forall before d after out k,
    assign_rewards_to_decisions cfg records = Ok out ->
    records = before ++ d :: after ->
    type_is d "decision" = true ->
    reward_key_of cfg d = Ok k ->
    touches cfg k after = [] ->
    exists ls D, dict_get k out = Some ls /\ In D ls /\
                 dict_get "reward" D = Some (VNum 0).

(** An event ten seconds after [t0]. *)
Definition event_after_10s (properties : list (string * value)) : history_record :=
  event_at "2020-01-01T00:00:10.000Z" properties.



(** The state of the filtering loop with [n] more records counted as
    skipped. *)
Definition more_skipped (n : Z) (st : filtering) : filtering :=
  {| results := results st;
     latched_history_id := latched_history_id st;
     skipped_record_count := skipped_record_count st + n |}.

(** Two states of the loader with the same message ids and the same counts of
    duplicate and unique records. *)
Definition same_load (a b : loader_state) : Prop :=
  message_ids a = message_ids b /\
  duplicate_records (counters a) = duplicate_records (counters b) /\
  unique_records (counters a) = unique_records (counters b).

(** Two states of the reading loop that differ at most in the error they
    remember. *)
Definition same_reading (a b : reading) : Prop :=
  records_read a = records_read b /\ ids_seen a = ids_seen b /\
  duplicates a = duplicates b.

(** A line that decodes to a record of the history [user-1]. *)
Definition line_of (message_id timestamp type : string) : line :=
  Decoded (VDict [("message_id", VStr message_id); ("timestamp", VStr timestamp);
                  ("type", VStr type); ("history_id", VStr "user-1")]).

(** The record that [load_records] makes of such a line. *)
Definition loaded (message_id : string) (t : Z) (type : string) : history_record :=
  [("message_id", VStr message_id); ("timestamp", VDatetime t);
   ("type", VStr type); ("history_id", VStr "user-1")].

Definition first_line : line := line_of "A" "2021-10-07T07:24:06.126+02:00" "event".
Definition last_line : line := line_of "B" "2021-10-07T07:25:06.126+02:00" "event".


Definition file_of (ls : list line) : file :=
  {| file_name := "c6c2-1.jsonl.gz"; lines := Ok ls |}.

Definition fresh_state : loader_state :=
  {| message_ids := [];
     counters := {| duplicate_records := 0; unique_records := 0;
                    unrecoverable_parse_errors := 0 |};
     unrecoverable := [] |}.

(** What loading the two good lines leaves behind. *)
Definition state_after_two : loader_state :=
  {| message_ids := ["B"; "A"];
     counters := {| duplicate_records := 0; unique_records := 2;
                    unrecoverable_parse_errors := 0 |};
     unrecoverable := [] |}.

Definition two_records : list history_record :=
  [loaded "A" 1633584246126000 "event"; loaded "B" 1633584306126000 "event"].

(** A second file of the same group, with one more record. *)
Definition second_file : file :=
  {| file_name := "c6c2-2.jsonl.gz";
     lines := Ok [line_of "E" "2021-10-07T07:26:06.126+02:00" "event"] |}.

Definition three_records : list history_record :=
  two_records ++ [loaded "E" 1633584366126000 "event"].

(** What loading the three good lines of the group leaves behind. *)
Definition state_after_three : loader_state :=
  {| message_ids := ["E"; "B"; "A"];
     counters := {| duplicate_records := 0; unique_records := 3;
                    unrecoverable_parse_errors := 0 |};
     unrecoverable := [] |}.

(** C5 as the spec states it: a line that fails to decode is skipped and has
    no other effect, so the file is not copied to the unrecoverable directory
    and no counter of unrecoverable files moves. *)
Definition malformed_line_has_no_file_impact (parse : string -> parsed) : Prop :=
  forall f l1 l2 s records s_clean,
    lines f = Ok (l1 ++ Malformed :: l2) ->
    load_records parse {| file_name := file_name f; lines := Ok (l1 ++ l2) |} s
    = Ok (records, s_clean) ->
    exists s',
      load_records parse f s = Ok (records, s') /\
      unrecoverable s' = unrecoverable s_clean /\
      unrecoverable_parse_errors (counters s')
      = unrecoverable_parse_errors (counters s_clean).

(** A record without [timestamp], as it would reach validation. *)
Definition record_without_timestamp : history_record :=
  [("message_id", VStr "D"); ("type", VStr "event"); ("history_id", VStr "user-1")].

Definition hashed_user_1 : string := sha256_hexdigest "user-1".



(** A decision without [model]. *)
Definition decision_without_model : history_record :=
  [("message_id", VStr "E"); ("timestamp", VDatetime 1633584246126000);
   ("type", VStr "decision"); ("history_id", VStr "user-1"); ("count", VNum 1)].

(** A decision with an empty [model] and no [count]. *)
Definition decision_with_empty_model : history_record :=
  [("message_id", VStr "F"); ("timestamp", VDatetime 1633584246126000);
   ("type", VStr "decision"); ("history_id", VStr "user-1"); ("model", VStr "")].

(** Conditions under which the claim C7 calls a decision invalid: no [model],
    an empty [model], or no [count]. *)
Definition claimed_invalid_decision (r : history_record) : bool :=
  negb (dict_has "model" r)
  || match dict_get "model" r with
     | Some (VStr s) => String.eqb s ""
     | _ => false
     end
  || negb (dict_has "count" r).

(** C7 as the spec states it: such a decision never survives validation. *)
Definition invalid_decision_is_discarded : Prop :=
  forall hashed r,
    type_is r "decision" = true ->
    claimed_invalid_decision r = true ->
    filter_valid_records hashed [r] = [].

(** ** More notions for the engine *)



(** [sub] is [l] with some elements left out, the others in the same order. *)
Inductive subseq {A : Type} : list A -> list A -> Prop :=
| subseq_nil : subseq [] []
| subseq_skip (x : A) (sub l : list A) : subseq sub l -> subseq sub (x :: l)
| subseq_take (x : A) (sub l : list A) : subseq sub l -> subseq (x :: sub) (x :: l).

(** The decision records of [records] filed under the key [k], in order. *)
Definition decisions_for (cfg : config) (k : string) (records : list history_record)
  : list history_record :=
  filter (fun r => type_is r "decision" &&
                   match reward_key_of cfg r with
                   | Ok key => String.eqb key k
                   | Raise _ => false
                   end) records.

(** [D] is [d], or [d] with its [reward] field set. *)
Definition only_reward_differs (d D : history_record) : Prop :=
  D = d \/ exists x, D = dict_set "reward" (VNum x) d.

(** ** More notions for the validator *)

(** The identity that [filter_valid_records] holds after it kept [record]. *)
Definition latch (history_id : option string) (record : history_record) : option string :=
  if truthy history_id then history_id
  else match dict_get "history_id" record with
       | Some (VStr s) => Some s
       | _ => history_id
       end.

(** The records that the loop of [filter_valid_records] appends to its
    results when it starts with the identity [history_id]. *)
Fixpoint kept_from (hashed_history_id : string) (history_id : option string)
  (records : list history_record) : list history_record :=
  match records with
  | [] => []
  | record :: rest =>
      match validate_record record history_id hashed_history_id with
      | Ok _ => record :: kept_from hashed_history_id (latch history_id record) rest
      | Raise _ => kept_from hashed_history_id history_id rest
      end
  end.

(** What a record that passed validation against [hashed_history_id] has. *)
Definition valid_record (hashed_history_id : string) (r : history_record) : Prop :=
  dict_has "timestamp" r = true /\
  dict_has "type" r = true /\
  (type_is r "decision" = true -> dict_has "model" r = true) /\
  exists s, dict_get "history_id" r = Some (VStr s) /\
            sha256_hexdigest s = hashed_history_id.

(** ** More notions for the loader *)

(** [r] is what [load_records] makes of the line [l]: the decoded object with
    its timestamp string replaced by the instant it parses to. *)
Definition record_of_line (dateutil_parse : string -> parsed) (l : line) (r : history_record)
  : Prop :=
  exists d ts t,
    l = Decoded (VDict d) /\
    dict_get "timestamp" d = Some (VStr ts) /\
    dateutil_parse ts = Parsed t /\
    r = dict_set "timestamp" (VDatetime t) d.

(** The local variables of [load_records] before the first line is read. *)
Definition start_reading (s : loader_state) : reading :=
  {| records_read := []; ids_seen := message_ids s; duplicates := 0; error := None |}.

(** ** The work list and the output files ([worker.py]) *)

(** What a file below a subdirectory of the input or the output directory
    is: a gzipped JSON-lines file, held as the records of its lines, or
    something [is_dir()] answers yes for. *)
Inductive kind : Type :=
| RegularFile (written : list history_record)
| SubDirectory.

(** Such a file as the worker sees it: its name, its kind and its
    [stat().st_mtime]. *)
Record entry : Type := {
  entry_name : string;
  entry_kind : kind;
  st_mtime : float
}.

Definition entry_is_dir (f : entry) : bool :=
  match entry_kind f with
  | SubDirectory => true
  | RegularFile _ => false
  end.

(** A child of [PATH_INPUT_DIR] or [PATH_OUTPUT_DIR]: a plain file, or a
    directory with its entries in the order a listing yields them. *)
Inductive node : Type :=
| PlainFile
| Folder (listing : list entry).

(** The children of [PATH_INPUT_DIR] or [PATH_OUTPUT_DIR], by name, in the
    order [iterdir()] yields them.  A directory that is absent and one that
    is empty look the same to the worker, which creates it where it needs
    it. *)
Definition tree : Type := dict node.

Definition is_folder (n : node) : bool :=
  match n with
  | Folder _ => true
  | PlainFile => false
  end.

(** The entries of [root / name]; none when it is absent or a plain file. *)
Definition listing_of (root : tree) (name : string) : list entry :=
  match dict_get name root with
  | Some (Folder listing) => listing
  | _ => []
  end.

(** [input_dir.iterdir()] for the shard planner. *)
Definition iterdir (root : tree) : list path :=
  map (fun kv => {| name := fst kv; is_dir := is_folder (snd kv) |}) root.

Definition ends_with (suffix s : string) : bool :=
  let n := String.length s in
  let m := String.length suffix in
  (m <=? n)%nat && String.eqb (substring (n - m) m s) suffix.

(** [d.glob('*' + suffix)]. *)
Definition glob (suffix : string) (listing : list entry) : list entry :=
  filter (fun f => ends_with suffix (entry_name f)) listing.

(** What can go wrong when [gzip_records] writes: the output subdirectory is
    a plain file, the output file is a directory, or [json.dumps] meets a
    value it cannot write (a [TypeError]). *)
Inductive write_error : Type :=
| NotADirectoryError
| IsADirectoryError
| NotSerializable.

(** The values [json.dumps] can write: all but a [datetime]. *)
Fixpoint serializable (v : value) : bool :=
  match v with
  | VNone | VBool _ | VNum _ | VStr _ => true
  | VList l => forallb serializable l
  | VDict d => forallb (fun kv => serializable (snd kv)) d
  | VDatetime _ => false
  end.

(** The loop that writes one line per record: the records written, and
    whether it came to its end or [json.dumps] raised. *)
Fixpoint write_lines (records : list history_record) : list history_record * bool :=
  match records with
  | [] => ([], true)
  | record :: rest =>
      if serializable (VDict record) then
        let (written, finished) := write_lines rest in (record :: written, finished)
      else ([], false)
  end.

(** Creating or overwriting the file named as [f]. *)
Definition put_entry (f : entry) (listing : list entry) : list entry :=
  if existsb (fun g => String.eqb (entry_name g) (entry_name f)) listing
  then map (fun g => if String.eqb (entry_name g) (entry_name f) then f else g) listing
  else listing ++ [f].

(** The file of that name in [root / dir]. *)
Definition lookup_entry (root : tree) (dir file_name : string) : option entry :=
  find (fun g => String.eqb (entry_name g) file_name) (listing_of root dir).

(** The removals that fail while [delete_output_files] runs, each with an
    exception that the function catches and logs before it goes on:
    [removal_fails dir file_name] when the entry of that name in the output
    subdirectory [dir] cannot be removed, a file by [os.unlink], a directory
    with what it holds, and [rmdir_fails dir] when the emptied subdirectory
    cannot. *)
Record failures : Type := {
  removal_fails : string -> string -> bool;
  rmdir_fails : string -> bool
}.

Definition no_failure : failures :=
  {| removal_fails := fun _ _ => false;
     rmdir_fails := fun _ => false |}.

Section WorkList.

(** [name_no_ext] of [utils] and [OUTPUT_FILENAME.format] of [config], which
    are not part of the sources: functions of a file's name. *)
Variable name_no_ext : string -> string.
Variable OUTPUT_FILENAME : string -> string.

(** The removals that fail during the run. *)
Variable failing : failures.

(** [{name_no_ext(f) : f for f in files}]. *)
Definition by_name_no_ext (files : list entry) : dict entry :=
  fold_left (fun d f => dict_set (name_no_ext (entry_name f)) f d) files [].

(** The body of the loop over the input files of a directory whose output
    directory exists: whether [f_in] is appended. *)
Definition is_stale (output_files : dict entry) (f_in : entry) : bool :=
  match dict_get (name_no_ext (entry_name f_in)) output_files with
  | None => true
  | Some f_out =>
      String.eqb (name_no_ext (entry_name f_in)) (name_no_ext (entry_name f_out))
      && PrimFloat.ltb (st_mtime f_out) (st_mtime f_in)
  end.

(** The body of the loop over [dirs_to_process]: the files appended for one
    input directory, each with the name of the directory it lies in. *)
Definition files_of_dir (input_root output_root : tree) (input_dir : path)
  : list (string * entry) :=
  let inputs := glob ".jsonl" (listing_of input_root (name input_dir)) in
  if negb (dict_has (name input_dir) output_root) then
    map (pair (name input_dir)) inputs
  else
    let output_files := by_name_no_ext (glob ".gz" (listing_of output_root (name input_dir))) in
    map (pair (name input_dir)) (filter (is_stale output_files) inputs).

(** [identify_files_to_process(dirs_to_process)], reading the input and the
    output directory. *)
Definition identify_files_to_process (input_root output_root : tree)
  (dirs_to_process : list path) : list (string * entry) :=
  flat_map (files_of_dir input_root output_root) dirs_to_process.

(** The loop of [shutil.rmtree] over the entries of the directory, in the
    order of the listing: it ends with the first removal that fails, and
    leaves that entry and those after it. *)
Fixpoint rmtree_entries (dir : string) (listing : list entry) : list entry :=
  match listing with
  | [] => []
  | f :: rest =>
      if removal_fails failing dir (entry_name f) then listing
      else rmtree_entries dir rest
  end.

(** [shutil.rmtree(output_dir)] inside its [try]: [None] when the directory
    is removed, and the entries left in it when a step raised. *)
Definition rmtree (dir : string) (listing : list entry) : option (list entry) :=
  match rmtree_entries dir listing with
  | [] => if rmdir_fails failing dir then Some [] else None
  | remaining => Some remaining
  end.

(** [shutil.rmtree(output_dir)] with the [try] around it: the output
    directory it leaves, without the subdirectory or with what is left of
    it. *)
Definition try_rmtree (output_root : tree) (output_dir : string) (listing : list entry) : tree :=
  match rmtree output_dir listing with
  | None => dict_remove output_dir output_root
  | Some remaining => dict_set output_dir (Folder remaining) output_root
  end.

(** One iteration of the loop over [PATH_OUTPUT_DIR.iterdir()] when
    [delete_all] is true, for the child of the name [output_dir]: the output
    directory it leaves. *)
Definition removed (output_root : tree) (output_dir : string) : tree :=
  match dict_get output_dir output_root with
  | Some (Folder listing) => try_rmtree output_root output_dir listing
  | _ => output_root
  end.

(** Whether the loop over [output_dir.glob('*.gz')] removes [output_file]
    from the output subdirectory [dir]: it has no input file of its name,
    and [unlink] succeeds, which it never does on a directory. *)
Definition unlinked (dir : string) (input_files : dict entry) (output_file : entry) : bool :=
  ends_with ".gz" (entry_name output_file)
  && negb (dict_has (name_no_ext (entry_name output_file)) input_files)
  && negb (entry_is_dir output_file)
  && negb (removal_fails failing dir (entry_name output_file)).

(** What the loop over [output_dir.glob('*.gz')] leaves of the entries of the
    output subdirectory [dir]. *)
Definition kept_outputs (input_root : tree) (dir : string) (listing : list entry) : list entry :=
  let input_files := by_name_no_ext (glob ".jsonl" (listing_of input_root dir)) in
  filter (fun f => negb (unlinked dir input_files f)) listing.

(** One iteration of the loop over [PATH_OUTPUT_DIR.iterdir()] when
    [delete_all] is false, for the child of the name [output_dir]: the output
    directory it leaves. *)
Definition pruned (input_root output_root : tree) (output_dir : string) : tree :=
  match dict_get output_dir output_root with
  | Some (Folder listing) =>
      if negb (dict_has output_dir input_root) then try_rmtree output_root output_dir listing
      else dict_set output_dir (Folder (kept_outputs input_root output_dir listing)) output_root
  | _ => output_root
  end.

(** [delete_output_files(dirs_to_process, delete_all)]: the output directory
    it leaves.  The loops go through the names that [iterdir()] lists and
    look at what stands under each name when its turn comes.  The argument
    [dirs_to_process] is not used by the code. *)
Definition delete_output_files (dirs_to_process : list path) (input_root output_root : tree)
  (delete_all : bool) : tree :=
  if delete_all then fold_left removed (dict_keys output_root) output_root
  else fold_left (pruned input_root) (dict_keys output_root) output_root.

(** What [shutil.rmtree] leaves of the entries of the output subdirectory
    [dir]: nothing when it succeeds, or when there is no such directory. *)
Definition left_by_rmtree (output_root : tree) (dir : string) : list entry :=
  match dict_get dir output_root with
  | Some (Folder listing) =>
      match rmtree dir listing with
      | Some remaining => remaining
      | None => []
      end
  | _ => []
  end.

(** [gzip_records(input_file, rewarded_records)] at the time [now]: the
    output directory it leaves, and the error it raises if any. *)
Definition gzip_records (output_root : tree) (now : float) (input_file : string * entry)
  (rewarded_records : buckets) : tree * option write_error :=
  let output_subdir := fst input_file in
  let output_root :=
    if negb (dict_has output_subdir output_root)
    then dict_set output_subdir (Folder []) output_root
    else output_root in
  let output_file := OUTPUT_FILENAME (entry_name (snd input_file)) in
  match dict_get output_subdir output_root with
  | Some (Folder listing) =>
      if existsb (fun g => String.eqb (entry_name g) output_file && entry_is_dir g) listing
      then (output_root, Some IsADirectoryError)
      else
        let (written, finished) := write_lines (flat_map snd rewarded_records) in
        (dict_set output_subdir
           (Folder (put_entry {| entry_name := output_file;
                                 entry_kind := RegularFile written;
                                 st_mtime := now |} listing))
           output_root,
         if finished then None else Some NotSerializable)
  | _ => (output_root, Some NotADirectoryError)
  end.

(** Whether [gzip.open] can open the output file for [input_file]: the output
    subdirectory is absent, and is then created, or is a directory that
    holds no directory of the output file's name. *)
Definition writable (output_root : tree) (input_file : string * entry) : bool :=
  match dict_get (fst input_file) output_root with
  | None => true
  | Some PlainFile => false
  | Some (Folder listing) =>
      negb (existsb (fun g => String.eqb (entry_name g)
                                (OUTPUT_FILENAME (entry_name (snd input_file)))
                              && entry_is_dir g) listing)
  end.

(** The file that [gzip_records] writes for [input_file] at the time [now]
    when it writes the records [written]. *)
Definition output_entry (now : float) (input_file : string * entry)
  (written : list history_record) : entry :=
  {| entry_name := OUTPUT_FILENAME (entry_name (snd input_file));
     entry_kind := RegularFile written;
     st_mtime := now |}.

(** The output file that the work list compares an input file of the name
    stem [stem] with: the last [*.gz] entry of that stem. *)
Definition last_output (listing : list entry) (stem : string) : option entry :=
  find (fun f => String.eqb (name_no_ext (entry_name f)) stem) (rev (glob ".gz" listing)).

(** An input file with no output of its stem, or one newer than the last
    output of its stem. *)
Definition newer_than_output (output_root : tree) (dir : string) (f_in : entry) : bool :=
  match last_output (listing_of output_root dir) (name_no_ext (entry_name f_in)) with
  | None => true
  | Some f_out => PrimFloat.ltb (st_mtime f_out) (st_mtime f_in)
  end.

End WorkList.

(** ** The worker ([worker.py]) *)

(** How a run of [worker] ends: it returns, it leaves through [sys.exit()]
    in [handle_signals], or an exception escapes, from the loading, from the
    engine or from the writing. *)
Inductive outcome : Type :=
| Finished
| SystemExit
| Raised (e : exn)
| WriteFailed (e : write_error).

Section Worker.

Variable cfg : config.
Variable name_no_ext : string -> string.
Variable OUTPUT_FILENAME : string -> string.

(** The removals that fail during the run. *)
Variable failing : failures.

(** [load_sorted_records] of [utils], which is not part of the sources: the
    records of an input file, or the exception raised. *)
Variable load_sorted_records : string * entry -> result (list history_record).

(** The loop of [worker] over [files_to_process], from its [k]-th iteration
    on.  The handler [signal_handler] sets the flag [SIGTERM] whenever the
    signal arrives, and the loop reads the flag in [handle_signals] alone:
    [sigterm k] is what the flag is at the [k]-th reading.  [clock k] is the
    time of the [k]-th write. *)
Fixpoint process_files (sigterm : nat -> bool) (clock : nat -> float) (k : nat)
  (output_root : tree) (files_to_process : list (string * entry)) : tree * outcome :=
  match files_to_process with
  | [] => (output_root, Finished)
  | f :: rest =>
      if sigterm k then (output_root, SystemExit)
      else
        match load_sorted_records f with
        | Raise e => (output_root, Raised e)
        | Ok sorted_records =>
            match assign_rewards_to_decisions cfg sorted_records with
            | Raise e => (output_root, Raised e)
            | Ok rewarded_records =>
                match gzip_records OUTPUT_FILENAME output_root (clock k) f rewarded_records with
                | (output_root', Some e) => (output_root', WriteFailed e)
                | (output_root', None) => process_files sigterm clock (S k) output_root' rest
                end
            end
        end
  end.

(** [worker()], for the node id, the node count and the mode read from the
    environment, over the input directory as it stands during the run: the
    output directory it leaves and how it ends. *)
Definition worker (node_id node_count : Z) (reprocess_all : bool)
  (input_root output_root : tree) (sigterm : nat -> bool) (clock : nat -> float)
  : tree * outcome :=
  match identify_dirs_to_process (iterdir input_root) node_id node_count with
  | None => (output_root, Raised ZeroDivisionError)
  | Some dirs_to_process =>
      let output_root :=
        delete_output_files name_no_ext failing dirs_to_process input_root output_root
          reprocess_all in
      process_files sigterm clock 0 output_root
        (identify_files_to_process name_no_ext input_root output_root dirs_to_process)
  end.

(** *** Notions used to state the properties of the worker *)





End Worker.

(** Modelled from the spec: the output file for the input [X.jsonl] is
    [X.jsonl.gz]. *)
Definition output_filename (input_name : string) : string := input_name ++ ".gz".

(** Modelled from the spec: the stem of a file name, which ignores the
    suffixes [.jsonl] and [.jsonl.gz]. *)
Definition file_stem (file_name : string) : string :=
  let n := String.length file_name in
  if ends_with ".jsonl.gz" file_name then substring 0 (n - 9) file_name
  else if ends_with ".jsonl" file_name then substring 0 (n - 6) file_name
  else file_name.

(** *** Concrete directories *)

Definition jsonl_file (file_name : string) (mtime : float) : entry :=
  {| entry_name := file_name; entry_kind := RegularFile []; st_mtime := mtime |}.

(** An input directory with two shards, and an output directory that has the
    output of one input file, an orphan and a directory without input. *)
Definition input_tree : tree :=
  [ ("aa", Folder [jsonl_file "abc-1.jsonl" 100; jsonl_file "abd-2.jsonl" 300]);
    ("bb", Folder [jsonl_file "bcd-1.jsonl" 100]) ].

Definition output_tree : tree :=
  [ ("aa", Folder [jsonl_file "abc-1.jsonl.gz" 200; jsonl_file "gone-9.jsonl.gz" 50]);
    ("zz", Folder [jsonl_file "zzz-1.jsonl.gz" 50]) ].

(** The output directory with the output of the other shard in it. *)
Definition shared_output_tree : tree :=
  ("bb", Folder [jsonl_file "bcd-1.jsonl.gz" 50]) :: output_tree.

(** A run in which the two orphans of the output directory cannot be
    removed. *)
Definition stuck_orphans : failures :=
  {| removal_fails := fun _ file_name =>
       String.eqb file_name "gone-9.jsonl.gz" || String.eqb file_name "zzz-1.jsonl.gz";
     rmdir_fails := fun _ => false |}.

(** A run in which no signal arrives, every write happens at the time 400,
    and every input file holds the records of the second scenario. *)
Definition no_sigterm : nat -> bool := fun _ => false.

Definition clock_400 : nat -> float := fun _ => 400%float.

Definition load_scenario_2 : string * entry -> result (list history_record) :=
  fun _ => Ok scenario_2.


(** * Properties *)

(** ** The result monad and dictionaries *)

Lemma bind_Ok {A B : Type} (m : result A) (k : A -> result B) (b : B) :
  bind m k = Ok b -> exists a, m = Ok a /\ k a = Ok b.
Proof.
  destruct m as [a | e]; simpl; intros H.
  - exists a. split; [reflexivity | exact H].
  - discriminate H.
Qed.

Tactic Notation "bind_inv" hyp(H) "as" ident(x) ident(Hx) :=
  apply bind_Ok in H; destruct H as [x [Hx H]].

Lemma dict_get_set_eq {V : Type} (k : string) (v : V) (d : dict V) :
  dict_get k (dict_set k v d) = Some v.
Proof.
  induction d as [| [k' v'] rest IH]; simpl.
  - rewrite String.eqb_refl. reflexivity.
  - destruct (String.eqb k k') eqn:E; simpl; rewrite E.
    + reflexivity.
    + exact IH.
Qed.

Lemma dict_get_set_neq {V : Type} (k k' : string) (v : V) (d : dict V) :
  k <> k' -> dict_get k' (dict_set k v d) = dict_get k' d.
Proof.
  intros Hne. induction d as [| [k0 v0] rest IH]; simpl.
  - destruct (String.eqb k' k) eqn:E; [| reflexivity].
    apply String.eqb_eq in E. congruence.
  - destruct (String.eqb k k0) eqn:E; simpl.
    + apply String.eqb_eq in E. subst k0.
      destruct (String.eqb k' k) eqn:E'; [| reflexivity].
      apply String.eqb_eq in E'. congruence.
    + rewrite IH. reflexivity.
Qed.

Lemma dict_set_set {V : Type} (k : string) (v1 v2 : V) (d : dict V) :
  dict_set k v2 (dict_set k v1 d) = dict_set k v2 d.
Proof.
  induction d as [| [k' v'] rest IH]; simpl.
  - rewrite String.eqb_refl. reflexivity.
  - destruct (String.eqb k k') eqn:E; simpl; rewrite E.
    + reflexivity.
    + rewrite IH. reflexivity.
Qed.


Lemma dict_keys_set_present {V : Type} (k : string) (v : V) (d : dict V) :
  dict_has k d = true -> dict_keys (dict_set k v d) = dict_keys d.
Proof.
  unfold dict_has, dict_keys. induction d as [| [k0 v0] rest IH]; simpl.
  - discriminate.
  - destruct (String.eqb k k0) eqn:E; simpl.
    + reflexivity.
    + intros H. rewrite (IH H). reflexivity.
Qed.

Lemma dict_get_None {V : Type} (k : string) (d : dict V) :
  dict_get k d = None <-> ~ In k (dict_keys d).
Proof.
  unfold dict_keys. induction d as [| [k0 v0] rest IH]; simpl.
  - split; auto.
  - destruct (String.eqb k k0) eqn:E.
    + apply String.eqb_eq in E. subst k0. split; [discriminate | intros H; exfalso; auto].
    + apply String.eqb_neq in E. rewrite IH. split.
      * intros H [H' | H']; [congruence | contradiction].
      * intros H H'. apply H. right. exact H'.
Qed.

Lemma dict_has_get {V : Type} (k : string) (d : dict V) :
  dict_has k d = false <-> dict_get k d = None.
Proof.
  unfold dict_has. destruct (dict_get k d); split; intros H; congruence.
Qed.

(** ** The shard planner *)

(** With a non-zero node count the planner keeps, in listing order, the
    directories whose hash falls on the node. *)
Lemma identify_dirs_to_process_filter (entries : list path) (node_id node_count : Z) :
  node_count <> 0 ->
  identify_dirs_to_process entries node_id node_count =
  Some (filter (fun d => is_dir d &&
                         (mmh3_hash (str_prefix 2 (name d)) 0 mod node_count =? node_id))
               entries).
Proof.
  intros Hn. induction entries as [| d rest IH]; simpl.
  - reflexivity.
  - destruct (is_dir d) eqn:Edir; simpl.
    + unfold owned_by. apply Z.eqb_neq in Hn. rewrite Hn. rewrite IH.
      destruct (mmh3_hash (str_prefix 2 (name d)) 0 mod node_count =? node_id); reflexivity.
    + exact IH.
Qed.

(** The directories of the repository's sharding test: with three nodes,
    [bb] goes to node 0, [aa] to node 1 and [cc] to node 2. *)
Example mmh3_hash_known_values :
  mmh3_hash "hello" 0 = 613153351 /\
  mmh3_hash "aa" 0 mod 3 = 1 /\ mmh3_hash "bb" 0 mod 3 = 0 /\ mmh3_hash "cc" 0 mod 3 = 2.
Proof. vm_compute. repeat split. Qed.

(** C9: for a positive node count, a directory of the input listing is
    returned by [identify_dirs_to_process] for exactly one node id of
    [0, node_count), the one equal to
    [mmh3_hash(name[:2], seed 0, unsigned) mod node_count]; that node depends on
    the directory's name and the node count alone, so two runs with the same
    count (over any two listings that contain the directory) hand it to the
    same node. *)
Theorem shard_owner_unique (entries : list path) (d : path) (node_count : Z) :
  0 < node_count ->
  In d entries ->
  is_dir d = true ->
  let owner := mmh3_hash (str_prefix 2 (name d)) 0 mod node_count in
  0 <= owner < node_count /\
  (forall node_id,
      (exists dirs, identify_dirs_to_process entries node_id node_count = Some dirs /\ In d dirs)
      <-> node_id = owner) /\
  (forall entries' id1 id2 dirs1 dirs2,
      identify_dirs_to_process entries id1 node_count = Some dirs1 -> In d dirs1 ->
      identify_dirs_to_process entries' id2 node_count = Some dirs2 -> In d dirs2 ->
      id1 = id2).
Proof.
  intros Hpos Hin Hdir owner.
  assert (Hne : node_count <> 0) by lia.
  assert (Hmem : forall es id dirs,
             identify_dirs_to_process es id node_count = Some dirs -> In d dirs ->
             id = owner).
  { intros es id dirs Hrun Hd.
    rewrite (identify_dirs_to_process_filter es id node_count Hne) in Hrun.
    injection Hrun as <-. apply filter_In in Hd. destruct Hd as [_ Hd].
    apply andb_prop in Hd. destruct Hd as [_ Hd]. apply Z.eqb_eq in Hd.
    subst owner. symmetry. exact Hd. }
  split; [| split].
  - subst owner. apply Z.mod_pos_bound. exact Hpos.
  - intros node_id. split.
    + intros [dirs [Hrun Hd]]. exact (Hmem entries node_id dirs Hrun Hd).
    + intros ->. eexists. split.
      * apply identify_dirs_to_process_filter. exact Hne.
      * apply filter_In. split; [exact Hin |].
        rewrite Hdir. simpl. apply Z.eqb_refl.
  - intros entries' id1 id2 dirs1 dirs2 H1 Hd1 H2 Hd2.
    rewrite (Hmem entries id1 dirs1 H1 Hd1), (Hmem entries' id2 dirs2 H2 Hd2).
    reflexivity.
Qed.

Lemma shard_owner_unique_witness :
  let d := {| name := "aa"; is_dir := true |} in
  let owner := mmh3_hash (str_prefix 2 (name d)) 0 mod 3 in
  0 <= owner < 3 /\
  (forall node_id,
      (exists dirs, identify_dirs_to_process test_listing node_id 3 = Some dirs /\ In d dirs)
      <-> node_id = owner) /\
  (forall entries' id1 id2 dirs1 dirs2,
      identify_dirs_to_process test_listing id1 3 = Some dirs1 -> In d dirs1 ->
      identify_dirs_to_process entries' id2 3 = Some dirs2 -> In d dirs2 ->
      id1 = id2).
Proof.
  apply (shard_owner_unique test_listing {| name := "aa"; is_dir := true |} 3).
  - lia.
  - simpl. left. reflexivity.
  - reflexivity.
Defined.

(** ** The reward engine *)

Section EngineFacts.

Variable cfg : config.

Lemma strptime_datetime_set_reward (l : history_record) (v : value) :
  strptime_datetime cfg (dict_set "reward" v l) = strptime_datetime cfg l.
Proof.
  unfold strptime_datetime. rewrite dict_get_set_neq; [reflexivity | discriminate].
Qed.

Lemma strptime_timestamp_set_reward (l : history_record) (v : value) :
  strptime_timestamp cfg (dict_set "reward" v l) = strptime_timestamp cfg l.
Proof.
  unfold strptime_timestamp. rewrite strptime_datetime_set_reward. reflexivity.
Qed.


(** The end of a window that can be computed lies one window after the
    instant of the listener. *)
Lemma window_end_instant (l : history_record) (closes : datetime) :
  window_end cfg l = Ok closes ->
  exists tl, strptime_timestamp cfg l = Ok tl /\ instant closes = tl + window cfg.
Proof.
  unfold window_end, strptime_timestamp, datetime_add. intros H.
  bind_inv H as t Ht. exists (instant t). split; [rewrite Ht; reflexivity |].
  destruct ((datetime_min <=? wall t + window cfg) && (wall t + window cfg <=? datetime_max));
    [| discriminate].
  injection H as <-. reflexivity.
Qed.

Lemma initial_reward_set_reward (l : history_record) (x : float) :
  initial_reward cfg (dict_set "reward" (VNum x) l) = Ok x.
Proof.
  unfold initial_reward, dict_get_default. rewrite dict_get_set_eq. reflexivity.
Qed.

(** What one pass of the loop body does to a listener: it is deleted when its
    window closed strictly before the record, and gets the amount added to
    its reward otherwise. *)
Lemma update_listener_cases (l r : history_record) (v : value) (kept : list history_record) :
  update_listener cfg l r v = Ok kept ->
  exists tl tr,
    strptime_timestamp cfg l = Ok tl /\ strptime_timestamp cfg r = Ok tr /\
    ((tl + window cfg < tr /\ kept = []) \/
     (tr <= tl + window cfg /\
      exists r0 a, initial_reward cfg l = Ok r0 /\ to_float cfg v = Ok a /\
                   kept = [dict_set "reward" (VNum (r0 + a)%float) l])).
Proof.
  unfold update_listener. intros H.
  bind_inv H as dl Hdl. bind_inv H as dr Hdr. bind_inv H as closes Hcloses.
  assert (Hend : window_end cfg l = Ok closes).
  { unfold window_end. rewrite Hdl. exact Hcloses. }
  destruct (window_end_instant l closes Hend) as [tl [Htl Hinstant]].
  exists tl, (instant dr). split; [exact Htl |]. split.
  { unfold strptime_timestamp. rewrite Hdr. reflexivity. }
  rewrite Hinstant in H.
  destruct (tl + window cfg <? instant dr) eqn:E.
  - left. apply Z.ltb_lt in E. injection H as <-. split; [exact E | reflexivity].
  - right. apply Z.ltb_ge in E. split; [exact E |].
    bind_inv H as amount Hamount. bind_inv H as total Htotal.
    unfold add_float in Htotal. bind_inv Htotal as r0 Hr0.
    injection Htotal as <-. injection H as <-.
    exists r0, amount. repeat split; assumption.
Qed.

Lemma update_listeners_app (a b : list history_record) (r : history_record) (v : value)
  (out : list history_record) :
  update_listeners cfg (a ++ b) r v = Ok out ->
  exists a' b', update_listeners cfg a r v = Ok a' /\
                update_listeners cfg b r v = Ok b' /\ out = a' ++ b'.
Proof.
  revert out. induction a as [| l a0 IH]; intros out H.
  - exists [], out. simpl in *. auto.
  - simpl in H. bind_inv H as rest' Hrest. bind_inv H as kept Hkept.
    injection H as <-.
    destruct (IH rest' Hrest) as [a0' [b' [Ha0 [Hb ->]]]].
    exists (kept ++ a0'), b'. simpl. rewrite Ha0. simpl. rewrite Hkept. simpl.
    rewrite app_assoc. auto.
Qed.

Lemma apply_touches_nil (ts : list (history_record * value)) :
  apply_touches cfg [] ts = Ok [].
Proof.
  induction ts as [| [r v] rest IH]; simpl; [reflexivity | exact IH].
Qed.

Lemma apply_touches_app (ls : list history_record) (t1 t2 : list (history_record * value)) :
  apply_touches cfg ls (t1 ++ t2) =
  (ls' <- apply_touches cfg ls t1 ;; apply_touches cfg ls' t2).
Proof.
  revert ls. induction t1 as [| [r v] rest IH]; intros ls; simpl.
  - reflexivity.
  - destruct (update_listeners cfg ls r v) as [ls' | e]; simpl; [apply IH | reflexivity].
Qed.

Lemma apply_touches_split (ts : list (history_record * value)) :
  forall a b out,
    apply_touches cfg (a ++ b) ts = Ok out ->
    exists a' b', apply_touches cfg a ts = Ok a' /\
                  apply_touches cfg b ts = Ok b' /\ out = a' ++ b'.
Proof.
  induction ts as [| [r v] rest IH]; intros a b out H; simpl in *.
  - injection H as <-. exists a, b. auto.
  - bind_inv H as ls' Hls.
    destruct (update_listeners_app a b r v ls' Hls) as [a1 [b1 [Ha1 [Hb1 ->]]]].
    destruct (IH a1 b1 out H) as [a' [b' [Ha' [Hb' ->]]]].
    exists a', b'. rewrite Ha1, Hb1. simpl. auto.
Qed.

Lemma touches_cons (k : string) (r : history_record) (rest : list history_record) :
  touches cfg k (r :: rest) =
  map (fun v => (r, v)) (rewards_for cfg k r) ++ touches cfg k rest.
Proof. reflexivity. Qed.

(** A bucket evolves listener by listener: the listeners already there just
    receive the touches, the rest evolves on its own. *)
Lemma evolve_split (k : string) (records : list history_record) :
  forall a b out,
    evolve cfg k (a ++ b) records = Ok out ->
    exists a' b', apply_touches cfg a (touches cfg k records) = Ok a' /\
                  evolve cfg k b records = Ok b' /\ out = a' ++ b'.
Proof.
  induction records as [| r rest IH]; intros a b out H; simpl in H.
  - injection H as <-. exists a, b. simpl. auto.
  - bind_inv H as ls' Hls. bind_inv H as new Hnew.
    destruct (apply_touches_split _ a b ls' Hls) as [a1 [b1 [Ha1 [Hb1 ->]]]].
    rewrite <- app_assoc in H.
    destruct (IH a1 (b1 ++ new) out H) as [a' [b' [Ha' [Hb' ->]]]].
    exists a', b'. split; [| split; [| reflexivity]].
    + rewrite touches_cons, apply_touches_app, Ha1. simpl. exact Ha'.
    + simpl. rewrite Hb1. simpl. rewrite Hnew. simpl. exact Hb'.
Qed.

Lemma evolve_app (k : string) (r1 r2 : list history_record) (ls : list history_record) :
  evolve cfg k ls (r1 ++ r2) = (ls' <- evolve cfg k ls r1 ;; evolve cfg k ls' r2).
Proof.
  revert ls. induction r1 as [| r rest IH]; intros ls; simpl.
  - reflexivity.
  - destruct (apply_touches cfg ls _) as [ls' | e]; simpl; [| reflexivity].
    destruct (enrolled cfg k r) as [new | e]; simpl; [apply IH | reflexivity].
Qed.

(** Every listener of a bucket that started empty is a decision record of the
    input with that key, after the touches of the records that follow it. *)
Lemma evolve_origin (k : string) (records : list history_record) :
  forall out D,
    evolve cfg k [] records = Ok out -> In D out ->
    exists before d after a',
      records = before ++ d :: after /\
      type_is d "decision" = true /\ reward_key_of cfg d = Ok k /\
      apply_touches cfg [d] (touches cfg k after) = Ok a' /\ In D a'.
Proof.
  induction records as [| r rest IH]; intros out D H HD; simpl in H.
  - injection H as <-. contradiction.
  - rewrite apply_touches_nil in H. simpl in H. bind_inv H as new Hnew.
    unfold enrolled in Hnew. destruct (type_is r "decision") eqn:Etype.
    + bind_inv Hnew as key Hkey. injection Hnew as <-.
      destruct (String.eqb key k) eqn:Ekey.
      * apply String.eqb_eq in Ekey. subst key.
        change [r] with ([r] ++ []) in H.
        destruct (evolve_split k rest [r] [] out H) as [a' [b' [Ha' [Hb' ->]]]].
        apply in_app_or in HD. destruct HD as [HD | HD].
        -- exists [], r, rest, a'. simpl. auto.
        -- destruct (IH b' D Hb' HD) as [before [d [after [a'' [-> Hrest]]]]].
           exists (r :: before), d, after, a''. simpl. auto.
      * destruct (IH out D H HD) as [before [d [after [a'' [-> Hrest]]]]].
        exists (r :: before), d, after, a''. simpl. auto.
    + injection Hnew as <-.
      destruct (IH out D H HD) as [before [d [after [a'' [-> Hrest]]]]].
      exists (r :: before), d, after, a''. simpl. auto.
Qed.

Lemma bucket_set_eq (k : string) (ls : list history_record) (d : buckets) :
  bucket k (dict_set k ls d) = ls.
Proof. unfold bucket, dict_get_default. rewrite dict_get_set_eq. reflexivity. Qed.

Lemma bucket_set_neq (k k' : string) (ls : list history_record) (d : buckets) :
  k <> k' -> bucket k' (dict_set k ls d) = bucket k' d.
Proof.
  intros Hne. unfold bucket, dict_get_default. rewrite dict_get_set_neq by exact Hne.
  reflexivity.
Qed.

Lemma bucket_absent (k : string) (d : buckets) :
  dict_has k d = false -> bucket k d = [].
Proof.
  unfold dict_has, bucket, dict_get_default. destruct (dict_get k d); [discriminate | reflexivity].
Qed.

(** The loop over the entries of a rewards record, seen from one bucket: the
    bucket receives the entries filed under its key, in order. *)
Lemma for_rewards_bucket (r : history_record) (items : list (string * value)) :
  forall d d' k,
    for_rewards cfg d r items = Ok d' ->
    apply_touches cfg (bucket k d)
      (map (fun v => (r, v)) (map snd (filter (fun kv => String.eqb (fst kv) k) items)))
    = Ok (bucket k d').
Proof.
  induction items as [| [k0 v] rest IH]; intros d d' k H; simpl in H.
  - injection H as <-. reflexivity.
  - bind_inv H as ls' Hls. fold (bucket k0 d) in Hls.
    specialize (IH _ d' k H). simpl.
    destruct (String.eqb k0 k) eqn:E; simpl.
    + apply String.eqb_eq in E. subst k0. rewrite Hls. simpl.
      destruct (dict_has k d) eqn:Ehas.
      * rewrite bucket_set_eq in IH. exact IH.
      * rewrite (bucket_absent k d Ehas) in *. simpl in Hls. injection Hls as <-. exact IH.
    + apply String.eqb_neq in E.
      destruct (dict_has k0 d) eqn:Ehas.
      * rewrite bucket_set_neq in IH by exact E. exact IH.
      * exact IH.
Qed.

(** The loop over the buckets for an event, seen from one bucket. *)
Lemma for_buckets_bucket (r : history_record) (v : value) :
  forall d d' k,
    for_buckets cfg d r v = Ok d' ->
    update_listeners cfg (bucket k d) r v = Ok (bucket k d').
Proof.
  induction d as [| [k0 ls] rest IH]; intros d' k H; simpl in H.
  - injection H as <-. reflexivity.
  - bind_inv H as ls' Hls. bind_inv H as rest' Hrest. injection H as <-.
    unfold bucket, dict_get_default. simpl.
    destruct (String.eqb k k0) eqn:E.
    + exact Hls.
    + exact (IH rest' k Hrest).
Qed.

Lemma type_is_exclusive (r : history_record) (a b : string) :
  type_is r a = true -> a <> b -> type_is r b = false.
Proof.
  unfold type_is. destruct (dict_get "type" r) as [[| | | s | | |] |]; try discriminate.
  intros Ha Hne. apply String.eqb_eq in Ha. subst s. apply String.eqb_neq. exact Hne.
Qed.

(** One iteration of the engine, seen from the bucket [k]: the listeners get
    the record's rewards for [k], then the record is enrolled if it is a
    decision with that key. *)
Lemma process_record_bucket (d d' : buckets) (r : history_record) (k : string) :
  process_record cfg d r = Ok d' ->
  exists ls' new,
    apply_touches cfg (bucket k d) (map (fun v => (r, v)) (rewards_for cfg k r)) = Ok ls' /\
    enrolled cfg k r = Ok new /\ bucket k d' = ls' ++ new.
Proof.
  unfold process_record, rewards_for, enrolled. intros H.
  destruct (type_is r "decision") eqn:Edec.
  - bind_inv H as key Hkey. injection H as <-.
    exists (bucket k d). simpl. rewrite Hkey. simpl.
    destruct (String.eqb key k) eqn:E.
    + apply String.eqb_eq in E. subst key. exists [r].
      rewrite bucket_set_eq. auto.
    + apply String.eqb_neq in E. exists [].
      rewrite bucket_set_neq by exact E. rewrite app_nil_r. auto.
  - destruct (type_is r "rewards") eqn:Erew.
    + bind_inv H as items Hitems. rewrite Hitems.
      exists (bucket k d'), []. rewrite app_nil_r.
      split; [| split; reflexivity].
      exact (for_rewards_bucket r items d d' k H).
    + destruct (type_is r "event") eqn:Eev; [| discriminate].
      bind_inv H as v Hv. rewrite Hv.
      exists (bucket k d'), []. rewrite app_nil_r.
      split; [| split; reflexivity].
      simpl. rewrite (for_buckets_bucket r v d d' k H). reflexivity.
Qed.

(** The engine, seen from the bucket [k]. *)
Lemma process_records_evolve (records : list history_record) :
  forall d d' k,
    process_records cfg d records = Ok d' ->
    evolve cfg k (bucket k d) records = Ok (bucket k d').
Proof.
  induction records as [| r rest IH]; intros d d' k H; simpl in H.
  - injection H as <-. reflexivity.
  - bind_inv H as d1 Hd1.
    destruct (process_record_bucket d d1 r k Hd1) as [ls' [new [Hls [Hnew Hb]]]].
    simpl. rewrite Hls. simpl. rewrite Hnew. simpl. rewrite <- Hb.
    exact (IH d1 d' k H).
Qed.

(** A listener that survives a sequence of touches received every one of
    them. *)
Lemma single_listener (ts : list (history_record * value)) :
  forall l a' D,
    apply_touches cfg [l] ts = Ok a' -> In D a' ->
    exists cs, contributions cfg ts = Ok cs /\ rewarded_form cfg l cs D.
Proof.
  induction ts as [| [r v] rest IH]; intros l a' D H HD; simpl in H.
  - injection H as <-. destruct HD as [<- | []]. exists []. simpl. auto.
  - bind_inv H as ls' Hls. simpl in Hls. bind_inv Hls as kept Hkept.
    injection Hls as <-. rewrite app_nil_r in H.
    destruct (update_listener_cases l r v kept Hkept)
      as [tl [tr [Htl [Htr [[_ ->] | [Hle [r0 [a [Hr0 [Ha ->]]]]]]]]]].
    + rewrite apply_touches_nil in H. injection H as <-. contradiction.
    + destruct (IH _ a' D H HD) as [cs' [Hcs' Hform]].
      exists ((tr, a) :: cs'). split.
      * simpl. rewrite Htr. simpl. rewrite Ha. simpl. rewrite Hcs'. reflexivity.
      * simpl. exists tl, r0. split; [exact Htl | split; [exact Hr0 |]].
        destruct cs' as [| c cs''].
        -- simpl in Hform. subst D. split; [| reflexivity].
           constructor; [exact Hle | constructor].
        -- simpl in Hform. destruct Hform as [tl' [r0' [Htl' [Hr0' [Hall ->]]]]].
           rewrite strptime_timestamp_set_reward in Htl'.
           rewrite initial_reward_set_reward in Hr0'.
           assert (tl' = tl) by congruence. subst tl'.
           injection Hr0' as <-.
           split.
           ++ constructor; [exact Hle | exact Hall].
           ++ rewrite dict_set_set. reflexivity.
Qed.

Lemma contributions_in (ts : list (history_record * value)) :
  forall cs c,
    contributions cfg ts = Ok cs -> In c cs ->
    exists r v, In (r, v) ts /\ strptime_timestamp cfg r = Ok (fst c).
Proof.
  induction ts as [| [r v] rest IH]; intros cs c H Hc; simpl in H.
  - injection H as <-. contradiction.
  - bind_inv H as t Ht. bind_inv H as a Ha. bind_inv H as cs' Hcs'.
    injection H as <-. destruct Hc as [<- | Hc].
    + exists r, v. simpl. auto.
    + destruct (IH cs' c Hcs' Hc) as [r' [v' [Hin Hts]]].
      exists r', v'. simpl. auto.
Qed.

Lemma touches_in (k : string) (records : list history_record) (r : history_record) (v : value) :
  In (r, v) (touches cfg k records) -> In r records.
Proof.
  unfold touches. intros H. apply in_flat_map in H. destruct H as [r' [Hr' H]].
  apply in_map_iff in H. destruct H as [v' [Heq _]]. injection Heq as -> _. exact Hr'.
Qed.

Lemma sortedb_head_le (ts : list Z) :
  forall a x, sortedb (a :: ts) = true -> In x ts -> a <= x.
Proof.
  induction ts as [| b rest IH]; intros a x H Hx.
  - contradiction.
  - simpl in H. apply andb_prop in H. destruct H as [Hab Hrest].
    apply Z.leb_le in Hab. destruct Hx as [<- | Hx]; [exact Hab |].
    specialize (IH b x Hrest Hx). lia.
Qed.

Lemma sortedb_app_r (l1 l2 : list Z) :
  sortedb (l1 ++ l2) = true -> sortedb l2 = true.
Proof.
  induction l1 as [| a rest IH]; intros H; [exact H |].
  apply IH. simpl in H. destruct (rest ++ l2) eqn:E; [reflexivity |].
  apply andb_prop in H. destruct H as [_ H]. exact H.
Qed.

Lemma timestamps_app (l1 l2 : list history_record) (ts : list Z) :
  timestamps cfg (l1 ++ l2) = Ok ts ->
  exists t1 t2, timestamps cfg l1 = Ok t1 /\ timestamps cfg l2 = Ok t2 /\ ts = t1 ++ t2.
Proof.
  revert ts. induction l1 as [| r rest IH]; intros ts H; simpl in H.
  - exists [], ts. simpl. auto.
  - bind_inv H as t Ht. bind_inv H as ts' Hts'. injection H as <-.
    destruct (IH ts' Hts') as [t1 [t2 [H1 [H2 ->]]]].
    exists (t :: t1), t2. simpl. rewrite Ht. simpl. rewrite H1. simpl. auto.
Qed.

Lemma timestamps_in (l : list history_record) (ts : list Z) (r : history_record) (t : Z) :
  timestamps cfg l = Ok ts -> In r l -> strptime_timestamp cfg r = Ok t -> In t ts.
Proof.
  revert ts. induction l as [| r' rest IH]; intros ts H Hr Ht; simpl in H.
  - contradiction.
  - bind_inv H as t' Ht'. bind_inv H as ts' Hts'. injection H as <-.
    destruct Hr as [-> | Hr].
    + left. congruence.
    + right. exact (IH ts' Hts' Hr Ht).
Qed.

(** In a sorted list a record is not earlier than the records before it. *)
Lemma records_sorted_later (before after : list history_record) (d r : history_record)
  (td tr : Z) :
  records_sorted cfg (before ++ d :: after) = true ->
  strptime_timestamp cfg d = Ok td -> In r after -> strptime_timestamp cfg r = Ok tr ->
  td <= tr.
Proof.
  unfold records_sorted. intros H Hd Hr Htr.
  destruct (timestamps cfg (before ++ d :: after)) as [ts | e] eqn:E; [| discriminate].
  destruct (timestamps_app _ _ _ E) as [t1 [t2 [_ [H2 ->]]]].
  apply sortedb_app_r in H. simpl in H2.
  bind_inv H2 as td' Htd'. bind_inv H2 as ta Hta. injection H2 as <-.
  assert (td' = td) by congruence. subst td'.
  apply (sortedb_head_le ta td tr H).
  exact (timestamps_in after ta r tr Hta Hr Htr).
Qed.

(** C1: for a timestamp-sorted record list on which
    [assign_rewards_to_decisions] returns, every decision [D] it emits in the
    bucket [k] is a decision record [d] of the input with that reward key,
    unchanged when no contribution for [k] follows it in the list, and
    otherwise with its [reward] set to its initial reward (its own [reward]
    field, else [DEFAULT_REWARD_VALUE]) plus, in list order, all the
    contributions for [k] listed after it (entries of rewards records under the
    key [k], and the value of every event); each of them has a timestamp [t]
    with [t_D <= t <= t_D + window]. *)
Theorem emitted_reward_is_sum_of_later_contributions
  (records : list history_record) (out : buckets) (k : string)
  (ls : list history_record) (D : history_record) :
  records_sorted cfg records = true ->
  assign_rewards_to_decisions cfg records = Ok out ->
  dict_get k out = Some ls ->
  In D ls ->
  exists before d after cs,
    records = before ++ d :: after /\
    type_is d "decision" = true /\
    reward_key_of cfg d = Ok k /\
    contributions cfg (touches cfg k after) = Ok cs /\
    match cs with
    | [] => D = d
    | _ :: _ =>
        exists t_D r0,
          strptime_timestamp cfg d = Ok t_D /\
          initial_reward cfg d = Ok r0 /\
          Forall (fun c => t_D <= fst c <= t_D + window cfg) cs /\
          D = dict_set "reward" (VNum (fold_left PrimFloat.add (map snd cs) r0)) d
    end.
Proof.
  intros Hsorted Hrun Hget HD.
  unfold assign_rewards_to_decisions in Hrun.
  pose proof (process_records_evolve records [] out k Hrun) as Hev.
  assert (Hb : bucket k out = ls).
  { unfold bucket, dict_get_default. rewrite Hget. reflexivity. }
  rewrite Hb in Hev. change (bucket k []) with (@nil history_record) in Hev.
  destruct (evolve_origin k records ls D Hev HD)
    as [before [d [after [a' [Hsplit [Htype [Hkey [Htouch HDa]]]]]]]].
  destruct (single_listener _ d a' D Htouch HDa) as [cs [Hcs Hform]].
  exists before, d, after, cs.
  split; [exact Hsplit | split; [exact Htype | split; [exact Hkey | split; [exact Hcs |]]]].
  destruct cs as [| c cs']; [exact Hform |].
  simpl in Hform. destruct Hform as [tl [r0 [Htl [Hr0 [Hall ->]]]]].
  exists tl, r0. split; [exact Htl | split; [exact Hr0 | split; [| reflexivity]]].
  rewrite Forall_forall in *. intros x Hx. split; [| exact (Hall x Hx)].
  destruct (contributions_in _ _ x Hcs Hx) as [r [v [Hin Hts]]].
  apply touches_in in Hin. subst records.
  exact (records_sorted_later before after d r tl (fst x) Hsorted Htl Hin Hts).
Qed.

Lemma update_listeners_in (ls : list history_record) (r : history_record) (v : value) :
  forall ls' l,
    update_listeners cfg ls r v = Ok ls' -> In l ls ->
    exists kept, update_listener cfg l r v = Ok kept /\ incl kept ls'.
Proof.
  induction ls as [| l0 rest IH]; intros ls' l H Hl; simpl in H.
  - contradiction.
  - bind_inv H as rest' Hrest. bind_inv H as kept Hkept. injection H as <-.
    destruct Hl as [-> | Hl].
    + exists kept. split; [exact Hkept | apply incl_appl, incl_refl].
    + destruct (IH rest' l Hrest Hl) as [kept' [Hk Hincl]].
      exists kept'. split; [exact Hk | apply incl_appr, Hincl].
Qed.

(** A listener whose window has not closed before the record gets the amount
    added to its reward. *)
Lemma update_listeners_adds (ls ls' : list history_record) (r l : history_record)
  (v : value) (tl tr : Z) :
  update_listeners cfg ls r v = Ok ls' -> In l ls ->
  strptime_timestamp cfg l = Ok tl -> strptime_timestamp cfg r = Ok tr ->
  tr <= tl + window cfg ->
  exists r0 a, initial_reward cfg l = Ok r0 /\ to_float cfg v = Ok a /\
               In (dict_set "reward" (VNum (r0 + a)%float) l) ls'.
Proof.
  intros H Hl Htl Htr Hle.
  destruct (update_listeners_in ls r v ls' l H Hl) as [kept [Hkept Hincl]].
  destruct (update_listener_cases l r v kept Hkept)
    as [tl' [tr' [Htl' [Htr' [[Hlt _] | [_ [r0 [a [Hr0 [Ha ->]]]]]]]]]].
  - assert (tl' = tl) by congruence. assert (tr' = tr) by congruence. lia.
  - exists r0, a. split; [exact Hr0 | split; [exact Ha |]].
    apply Hincl. left. reflexivity.
Qed.

(** C3: with a non-negative window, a rewards or event record that carries
    exactly the timestamp of an enrolled decision (a decision listed before
    it) does have its contribution added to that decision's reward: the window
    is closed on the left. *)
Theorem same_instant_contribution_is_added
  (listeners listeners' : list history_record) (listener record : history_record)
  (reward : value) (t : Z) :
  0 <= DEFAULT_REWARD_WINDOW_IN_SECONDS cfg ->
  update_listeners cfg listeners record reward = Ok listeners' ->
  In listener listeners ->
  strptime_timestamp cfg listener = Ok t ->
  strptime_timestamp cfg record = Ok t ->
  exists r0 a,
    initial_reward cfg listener = Ok r0 /\ to_float cfg reward = Ok a /\
    In (dict_set "reward" (VNum (r0 + a)%float) listener) listeners'.
Proof.
  intros Hw H Hl Htl Htr.
  apply (update_listeners_adds listeners listeners' record listener reward t t);
    try assumption.
  unfold window. lia.
Qed.






(** C4: a decision record that no contribution for its key follows in the
    list is emitted in its bucket exactly as it came in: no [reward] field is
    added to it. *)
Theorem unrewarded_decision_is_emitted_unchanged
  (records before after : list history_record) (d : history_record)
  (out : buckets) (k : string) :
  assign_rewards_to_decisions cfg records = Ok out ->
  records = before ++ d :: after ->
  type_is d "decision" = true ->
  reward_key_of cfg d = Ok k ->
  touches cfg k after = [] ->
  exists ls, dict_get k out = Some ls /\ In d ls.
Proof.
  intros Hrun -> Htype Hkey Htouch.
  unfold assign_rewards_to_decisions in Hrun.
  pose proof (process_records_evolve _ [] out k Hrun) as Hev.
  change (bucket k []) with (@nil history_record) in Hev.
  rewrite evolve_app in Hev. bind_inv Hev as ls1 Hls1.
  simpl in Hev. bind_inv Hev as ls2 Hls2. bind_inv Hev as new Hnew.
  unfold enrolled in Hnew. rewrite Htype, Hkey in Hnew. simpl in Hnew.
  rewrite String.eqb_refl in Hnew. injection Hnew as <-.
  destruct (evolve_split k after ls2 [d] _ Hev) as [a' [b' [_ [Hb' Hout]]]].
  change [d] with ([d] ++ []) in Hb'.
  destruct (evolve_split k after [d] [] _ Hb') as [a'' [b'' [Ha'' [_ ->]]]].
  rewrite Htouch in Ha''. simpl in Ha''. injection Ha'' as <-.
  assert (Hin : In d (bucket k out)).
  { rewrite Hout. apply in_or_app. right. simpl. left. reflexivity. }
  unfold bucket, dict_get_default in Hin.
  destruct (dict_get k out) as [ls |]; [| contradiction].
  exists ls. split; [reflexivity | exact Hin].
Qed.

Lemma for_rewards_keys (r : history_record) (items : list (string * value)) :
  forall d d', for_rewards cfg d r items = Ok d' -> dict_keys d' = dict_keys d.
Proof.
  induction items as [| [k0 v] rest IH]; intros d d' H; simpl in H.
  - injection H as <-. reflexivity.
  - bind_inv H as ls' Hls. rewrite (IH _ d' H).
    destruct (dict_has k0 d) eqn:E; [| reflexivity].
    apply dict_keys_set_present. exact E.
Qed.

Lemma for_buckets_keys (r : history_record) (v : value) :
  forall d d', for_buckets cfg d r v = Ok d' -> dict_keys d' = dict_keys d.
Proof.
  induction d as [| [k0 ls] rest IH]; intros d' H; simpl in H.
  - injection H as <-. reflexivity.
  - bind_inv H as ls' Hls. bind_inv H as rest' Hrest. injection H as <-.
    unfold dict_keys in *. simpl. rewrite (IH rest' Hrest). reflexivity.
Qed.

















(** X2: a contribution exactly one window after a listener still counts: the
    listener is kept and the amount is added to its reward. *)
Theorem window_is_closed_on_the_right
  (listeners listeners' : list history_record) (listener record : history_record)
  (reward : value) (t : Z) :
  update_listeners cfg listeners record reward = Ok listeners' ->
  In listener listeners ->
  strptime_timestamp cfg listener = Ok t ->
  strptime_timestamp cfg record = Ok (t + window cfg) ->
  exists r0 a,
    initial_reward cfg listener = Ok r0 /\ to_float cfg reward = Ok a /\
    In (dict_set "reward" (VNum (r0 + a)%float) listener) listeners'.
Proof.
  intros H Hl Htl Htr.
  apply (update_listeners_adds listeners listeners' record listener reward t (t + window cfg));
    try assumption.
  lia.
Qed.


End EngineFacts.

(** *** Concrete runs of the engine *)

Lemma emitted_reward_is_sum_of_later_contributions_witness :
  exists before d after cs,
    scenario_2 = before ++ d :: after /\
    type_is d "decision" = true /\
    reward_key_of scenario_config d = Ok "k" /\
    contributions scenario_config (touches scenario_config "k" after) = Ok cs /\
    match cs with
    | [] => rewarded_decision 1.5 = d
    | _ :: _ =>
        exists t_D r0,
          strptime_timestamp scenario_config d = Ok t_D /\
          initial_reward scenario_config d = Ok r0 /\
          Forall (fun c => t_D <= fst c <= t_D + window scenario_config) cs /\
          rewarded_decision 1.5
          = dict_set "reward" (VNum (fold_left PrimFloat.add (map snd cs) r0)) d
    end.
Proof.
  apply (emitted_reward_is_sum_of_later_contributions scenario_config scenario_2
           [("k", [rewarded_decision 1.5])] "k" [rewarded_decision 1.5]).
  - vm_compute. reflexivity.
  - vm_compute. reflexivity.
  - reflexivity.
  - simpl. left. reflexivity.
Defined.

(** A rewards record at the instant of the decision before it is added to the
    decision's reward, although it lies outside [(t_D, t_D + window]]. *)
Lemma reward_is_open_window_sum_fails :
  ~ reward_is_open_window_sum scenario_config same_instant_records.
Proof.
  intros H.
  assert (Hs : records_sorted scenario_config same_instant_records = true)
    by (vm_compute; reflexivity).
  specialize (H Hs [("k", [rewarded_decision 2])] "k" [rewarded_decision 2]
                (rewarded_decision 2) 1577836800000000 [(1577836800000000, 2%float)]).
  assert (Hf : number_of (dict_get_default "reward" (rewarded_decision 2) (VNum 0))
               = Ok (open_window_sum scenario_config 1577836800000000
                       [(1577836800000000, 2%float)])).
  { apply H.
    - vm_compute. reflexivity.
    - reflexivity.
    - simpl. left. reflexivity.
    - vm_compute. reflexivity.
    - vm_compute. reflexivity. }
  apply (f_equal (fun r => match r with
                           | Ok x => PrimFloat.ltb 1 x
                           | Raise _ => false
                           end)) in Hf.
  vm_compute in Hf. discriminate Hf.
Qed.

(** C2, at the fourth scenario of the spec: the rewards record arrives one
    millisecond after the window of the decision closed; [update_listeners]
    deletes the decision from its bucket, which is the very list that is
    returned, so the decision is not emitted at all. *)
Lemma expired_decision_is_not_emitted :
  assign_rewards_to_decisions scenario_config scenario_4 = Ok [("k", [])].
Proof. vm_compute. reflexivity. Qed.

Lemma same_instant_contribution_is_added_witness :
  exists r0 a,
    initial_reward scenario_config (decision_at t0 "k") = Ok r0 /\
    to_float scenario_config (VNum 2) = Ok a /\
    In (dict_set "reward" (VNum (r0 + a)%float) (decision_at t0 "k")) [rewarded_decision 2].
Proof.
  apply (same_instant_contribution_is_added scenario_config
           [decision_at t0 "k"] [rewarded_decision 2] (decision_at t0 "k")
           (rewards_at t0 [("k", VNum 2)]) (VNum 2) 1577836800000000).
  - simpl. lia.
  - vm_compute. reflexivity.
  - simpl. left. reflexivity.
  - vm_compute. reflexivity.
  - vm_compute. reflexivity.
Defined.

Lemma same_instant_is_not_added_fails :
  ~ same_instant_is_not_added scenario_config.
Proof.
  intros H.
  specialize (H (decision_at t0 "k") (rewards_at t0 [("k", VNum 2)]) (VNum 2)
                1577836800000000 [rewarded_decision 2]).
  assert (Hf : [rewarded_decision 2] = [decision_at t0 "k"]).
  { apply H; vm_compute; reflexivity. }
  discriminate Hf.
Qed.

Lemma unrewarded_decision_is_emitted_unchanged_witness :
  exists ls, dict_get "k" [("k", [decision_at t0 "k"])] = Some ls /\ In (decision_at t0 "k") ls.
Proof.
  apply (unrewarded_decision_is_emitted_unchanged scenario_config
           [decision_at t0 "k"] [] [] (decision_at t0 "k") [("k", [decision_at t0 "k"])] "k").
  - vm_compute. reflexivity.
  - reflexivity.
  - reflexivity.
  - reflexivity.
  - reflexivity.
Defined.

(** The first scenario of the spec: a lone decision is returned without any
    [reward] field. *)
Lemma unrewarded_decision_has_reward_zero_fails :
  ~ unrewarded_decision_has_reward_zero scenario_config [decision_at t0 "k"].
Proof.
  intros H.
  destruct (H [] (decision_at t0 "k") [] [("k", [decision_at t0 "k"])] "k")
    as [ls [D [Hget [HD Hreward]]]]; try reflexivity.
  simpl in Hget. injection Hget as <-.
  destruct HD as [<- | []]. discriminate Hreward.
Qed.



(** [float()] on strings: numbers in decimal notation are read, with signs,
    surrounding white space, exponents and single underscores between digits;
    other strings are refused. *)
Example float_of_ascii_reads_decimal_numbers :
  map float_of_ascii ["2.5"; " 1e3 "; "-12.5e-1"; "1_000.5"; "+.5"; "5."; "1E-2"; "Infinity"]
  = map Some [2.5; 1000; -1.25; 1000.5; 0.5; 5; 0x1.47ae147ae147bp-7; infinity]%float /\
  map float_of_ascii [""; "abc"; "1e"; "1__0"; "0x10"; "1 2"; "- 1"]
  = map (fun _ => None) [1; 2; 3; 4; 5; 6; 7].
Proof. split; vm_compute; reflexivity. Qed.

(** An event whose [properties.value] is a string that [float()] reads adds
    the number read: the decision comes back with reward [2.5]. *)
Example numeric_string_is_converted :
  assign_rewards_to_decisions scenario_config
    [decision_at t0 "k"; event_after_10s [("value", VStr "2.5")]]
  = Ok [("k", [rewarded_decision 2.5])].
Proof. vm_compute. reflexivity. Qed.

(** A decision of the last minute of the year 9999 is not well formed: the
    end of its window lies after [datetime.max], and the first record that
    reaches it raises [OverflowError]. *)
Example window_past_datetime_max_raises :
  well_formed scenario_config (decision_at "9999-12-31T23:59:30.000Z" "k") = false /\
  assign_rewards_to_decisions scenario_config
    [decision_at "9999-12-31T23:59:30.000Z" "k";
     rewards_at "9999-12-31T23:59:40.000Z" [("k", VNum 1)]]
  = Raise OverflowError.
Proof. split; vm_compute; reflexivity. Qed.


Lemma window_is_closed_on_the_right_witness :
  exists r0 a,
    initial_reward scenario_config (decision_at t0 "k") = Ok r0 /\
    to_float scenario_config (VNum 2) = Ok a /\
    In (dict_set "reward" (VNum (r0 + a)%float) (decision_at t0 "k")) [rewarded_decision 2].
Proof.
  apply (window_is_closed_on_the_right scenario_config
           [decision_at t0 "k"] [rewarded_decision 2] (decision_at t0 "k")
           (rewards_at "2020-01-01T00:01:00.000Z" [("k", VNum 2)]) (VNum 2)
           1577836800000000).
  - vm_compute. reflexivity.
  - simpl. left. reflexivity.
  - vm_compute. reflexivity.
  - vm_compute. reflexivity.
Defined.

(** The scenarios of the spec that the engine meets: a reward inside the
    window and a reward exactly at its end. *)
Example scenarios_2_and_3 :
  assign_rewards_to_decisions scenario_config scenario_2
  = Ok [("k", [rewarded_decision 1.5])] /\
  assign_rewards_to_decisions scenario_config scenario_3
  = Ok [("k", [rewarded_decision 2])].
Proof. vm_compute. split; reflexivity. Qed.


(** ** The validator *)

Lemma dict_has_set_neq {V : Type} (k k' : string) (v : V) (d : dict V) :
  k <> k' -> dict_has k' (dict_set k v d) = dict_has k' d.
Proof.
  intros Hne. unfold dict_has. rewrite dict_get_set_neq by exact Hne. reflexivity.
Qed.

Lemma dict_has_set_eq {V : Type} (k : string) (v : V) (d : dict V) :
  dict_has k (dict_set k v d) = true.
Proof. unfold dict_has. rewrite dict_get_set_eq. reflexivity. Qed.


Lemma validate_record_decision_without_model
  (r : history_record) (history_id : option string) (hashed : string) :
  type_is r "decision" = true -> dict_has "model" r = false ->
  validate_record r history_id hashed = Raise ValueError.
Proof.
  unfold validate_record. intros -> ->. simpl.
  destruct (negb (dict_has "timestamp" r) || negb (dict_has "type" r)
            || negb (dict_has "history_id" r)); reflexivity.
Qed.

(** Validation reads a field other than [timestamp], [type], [history_id] and
    [model] in no way. *)
Lemma validate_record_ignores_field
  (k : string) (v : value) (r : history_record) (history_id : option string)
  (hashed : string) :
  k <> "timestamp" -> k <> "type" -> k <> "history_id" -> k <> "model" ->
  validate_record (dict_set k v r) history_id hashed = validate_record r history_id hashed.
Proof.
  intros H1 H2 H3 H4. unfold validate_record, type_is, dict_get_default.
  rewrite !dict_has_set_neq by assumption.
  rewrite !dict_get_set_neq by assumption. reflexivity.
Qed.

(** Of the field [model], validation reads the presence alone. *)
Lemma validate_record_ignores_model_value
  (v : value) (r : history_record) (history_id : option string) (hashed : string) :
  dict_has "model" r = true ->
  validate_record (dict_set "model" v r) history_id hashed
  = validate_record r history_id hashed.
Proof.
  intros Hm. unfold validate_record, type_is, dict_get_default.
  rewrite dict_has_set_eq, Hm.
  rewrite !dict_has_set_neq by discriminate.
  rewrite !dict_get_set_neq by discriminate. reflexivity.
Qed.

Lemma filter_step_more_skipped (hashed : string) (n : Z) (st : filtering) (r : history_record) :
  filter_step hashed (more_skipped n st) r = more_skipped n (filter_step hashed st r).
Proof.
  unfold filter_step, more_skipped. simpl.
  destruct (validate_record r (latched_history_id st) hashed); simpl.
  - reflexivity.
  - f_equal. lia.
Qed.

Lemma filter_loop_more_skipped (hashed : string) (n : Z) (records : list history_record) :
  forall st,
    filter_loop hashed records (more_skipped n st)
    = more_skipped n (filter_loop hashed records st).
Proof.
  unfold filter_loop. induction records as [| r rest IH]; intros st; simpl.
  - reflexivity.
  - rewrite filter_step_more_skipped. apply IH.
Qed.

(** A record that validation rejects whatever identity is latched is dropped
    and counted, and the records around it are filtered as if it were not
    there. *)
Lemma filter_loop_drops (hashed : string) (r : history_record)
  (before after : list history_record) (st : filtering) :
  (forall history_id, validate_record r history_id hashed = Raise ValueError) ->
  filter_loop hashed (before ++ r :: after) st
  = more_skipped 1 (filter_loop hashed (before ++ after) st).
Proof.
  intros Hbad. unfold filter_loop. rewrite !fold_left_app. simpl.
  set (st1 := fold_left (filter_step hashed) before st).
  assert (Hstep : filter_step hashed st1 r = more_skipped 1 st1).
  { unfold filter_step. rewrite Hbad. reflexivity. }
  rewrite Hstep. apply filter_loop_more_skipped.
Qed.

Lemma filter_valid_records_drops (hashed : string) (r : history_record)
  (before after : list history_record) :
  (forall history_id, validate_record r history_id hashed = Raise ValueError) ->
  filter_valid_records hashed (before ++ r :: after)
  = filter_valid_records hashed (before ++ after) /\
  skipped_records hashed (before ++ r :: after)
  = skipped_records hashed (before ++ after) + 1.
Proof.
  intros Hbad. unfold filter_valid_records, skipped_records.
  rewrite (filter_loop_drops hashed r before after _ Hbad). simpl. auto.
Qed.

(** C7: [filter_valid_records] discards a decision record that has no
    [model] field, counts it as skipped and filters the other records of the
    group as if it were absent; no other property of [model] and nothing of
    [count] is checked: for any record, validation gives the same verdict
    whatever value [model] is given and whatever [count] is or is not. *)
Theorem decision_validation_checks_model_presence_only
  (hashed : string) (r : history_record) (before after : list history_record)
  (r' : history_record) :
  type_is r "decision" = true ->
  dict_has "model" r = false ->
  (filter_valid_records hashed (before ++ r :: after)
   = filter_valid_records hashed (before ++ after) /\
   skipped_records hashed (before ++ r :: after)
   = skipped_records hashed (before ++ after) + 1) /\
  (forall history_id v,
      validate_record (dict_set "count" v r') history_id hashed
      = validate_record r' history_id hashed) /\
  (forall history_id v w,
      validate_record (dict_set "model" v r') history_id hashed
      = validate_record (dict_set "model" w r') history_id hashed).
Proof.
  intros Htype Hmodel. split; [| split].
  - apply filter_valid_records_drops.
    intros history_id. apply validate_record_decision_without_model; assumption.
  - intros history_id v. apply validate_record_ignores_field; discriminate.
  - intros history_id v w.
    rewrite <- (dict_set_set "model" w v r').
    apply validate_record_ignores_model_value. apply dict_has_set_eq.
Qed.

(** ** The history loader *)

Section LoaderFacts.

Variable dateutil_parse : string -> parsed.

Lemma load_lines_app (l1 l2 : list line) :
  forall st,
    load_lines dateutil_parse (l1 ++ l2) st =
    (st1 <- load_lines dateutil_parse l1 st ;; load_lines dateutil_parse l2 st1).
Proof.
  induction l1 as [| l rest IH]; intros st; simpl.
  - reflexivity.
  - destruct (load_line dateutil_parse l (ids_seen st)) as [[[record id] |] | e].
    + apply IH.
    + apply IH.
    + destruct (caught_per_line e); [apply IH | reflexivity].
Qed.

(** The error remembered so far changes neither what the loop reads nor
    whether it raises; and once an error is remembered, one stays
    remembered. *)
Lemma load_lines_same_reading (ls : list line) :
  forall st1 st2,
    same_reading st1 st2 ->
    match load_lines dateutil_parse ls st1, load_lines dateutil_parse ls st2 with
    | Ok a, Ok b => same_reading a b /\ (error st2 <> None -> error b <> None)
    | Raise e1, Raise e2 => e1 = e2
    | _, _ => False
    end.
Proof.
  induction ls as [| l rest IH]; intros st1 st2 Hsame; simpl.
  - split; [exact Hsame | auto].
  - destruct Hsame as [Hr [Hi Hd]]. rewrite Hi.
    destruct (load_line dateutil_parse l (ids_seen st2)) as [[[record id] |] | e].
    + specialize (IH
        {| records_read := records_read st1 ++ [record]; ids_seen := id :: ids_seen st2;
           duplicates := duplicates st1; error := error st1 |}
        {| records_read := records_read st2 ++ [record]; ids_seen := id :: ids_seen st2;
           duplicates := duplicates st2; error := error st2 |}).
      simpl in IH. apply IH. unfold same_reading. simpl. rewrite Hr, Hd. auto.
    + specialize (IH
        {| records_read := records_read st1; ids_seen := ids_seen st2;
           duplicates := duplicates st1 + 1; error := error st1 |}
        {| records_read := records_read st2; ids_seen := ids_seen st2;
           duplicates := duplicates st2 + 1; error := error st2 |}).
      simpl in IH. apply IH. unfold same_reading. simpl. rewrite Hr, Hd. auto.
    + destruct (caught_per_line e); [| reflexivity].
      specialize (IH
        {| records_read := records_read st1; ids_seen := ids_seen st2;
           duplicates := duplicates st1; error := Some e |}
        {| records_read := records_read st2; ids_seen := ids_seen st2;
           duplicates := duplicates st2; error := Some e |}).
      simpl in IH.
      assert (Hs : same_reading
        {| records_read := records_read st1; ids_seen := ids_seen st2;
           duplicates := duplicates st1; error := Some e |}
        {| records_read := records_read st2; ids_seen := ids_seen st2;
           duplicates := duplicates st2; error := Some e |}).
      { unfold same_reading. simpl. auto. }
      specialize (IH Hs).
      destruct (load_lines dateutil_parse rest _) as [a | e1];
        destruct (load_lines dateutil_parse rest _) as [b | e2]; try exact IH.
      destruct IH as [Hab Herr]. split; [exact Hab |].
      intros _. apply Herr. discriminate.
Qed.

(** A line whose loading raises an exception that the inner [except] catches
    is skipped: the loop reads what it reads without that line, and leaves
    with an error remembered. *)
Lemma load_lines_skips_caught (l : line) (e : exn) (l1 l2 : list line) (st clean : reading) :
  (forall ids, load_line dateutil_parse l ids = Raise e) ->
  caught_per_line e = true ->
  load_lines dateutil_parse (l1 ++ l2) st = Ok clean ->
  exists st',
    load_lines dateutil_parse (l1 ++ l :: l2) st = Ok st' /\
    same_reading clean st' /\ error st' <> None.
Proof.
  intros Hraise Hcaught Hclean.
  rewrite load_lines_app in Hclean. rewrite load_lines_app.
  bind_inv Hclean as st1 Hst1. rewrite Hst1. simpl.
  rewrite Hraise, Hcaught.
  pose proof (load_lines_same_reading l2 st1
                {| records_read := records_read st1; ids_seen := ids_seen st1;
                   duplicates := duplicates st1; error := Some e |}) as H.
  assert (Hs : same_reading st1
                 {| records_read := records_read st1; ids_seen := ids_seen st1;
                    duplicates := duplicates st1; error := Some e |}).
  { unfold same_reading. simpl. auto. }
  specialize (H Hs). rewrite Hclean in H.
  match type of H with
  | match ?run with _ => _ end => destruct run as [st' |]
  end.
  - exists st'. destruct H as [Hsame Herr].
    split; [reflexivity | split; [exact Hsame |]]. apply Herr. simpl. discriminate.
  - contradiction.
Qed.

(** The same at the level of [load_records]: the file returns the records it
    returns without the line, and it is copied to the unrecoverable directory
    with the counter incremented by one. *)
Lemma load_records_skips_caught (f : file) (l : line) (e : exn) (l1 l2 : list line)
  (s s_clean : loader_state) (records : list history_record) :
  (forall ids, load_line dateutil_parse l ids = Raise e) ->
  caught_per_line e = true ->
  lines f = Ok (l1 ++ l :: l2) ->
  load_records dateutil_parse {| file_name := file_name f; lines := Ok (l1 ++ l2) |} s
  = Ok (records, s_clean) ->
  exists s',
    load_records dateutil_parse f s = Ok (records, s') /\
    message_ids s' = message_ids s_clean /\
    duplicate_records (counters s') = duplicate_records (counters s_clean) /\
    unique_records (counters s') = unique_records (counters s_clean) /\
    unrecoverable_parse_errors (counters s')
    = unrecoverable_parse_errors (counters s) + 1 /\
    unrecoverable s' = copy_to_unrecoverable f (unrecoverable s).
Proof.
  intros Hraise Hcaught Hlines Hclean.
  unfold load_records in *. rewrite Hlines. simpl in Hclean.
  bind_inv Hclean as clean Hc.
  destruct (load_lines_skips_caught l e l1 l2 _ clean Hraise Hcaught Hc)
    as [st' [Hst' [[Hr [Hi Hd]] Herr]]].
  rewrite Hst'. simpl. injection Hclean as <- <-.
  eexists. split; [rewrite Hr; reflexivity |].
  destruct (error st') as [e' |]; [| contradiction].
  simpl. rewrite Hi, Hd, Hr.
  destruct (error clean); simpl; repeat split; reflexivity.
Qed.

Lemma load_files_app (g1 g2 : list file) :
  forall records s,
    load_files dateutil_parse (g1 ++ g2) records s =
    (loaded <- load_files dateutil_parse g1 records s ;;
     load_files dateutil_parse g2 (fst loaded) (snd loaded)).
Proof.
  induction g1 as [| f rest IH]; intros records s; simpl.
  - reflexivity.
  - destruct (load_records dateutil_parse f s) as [[rs s1] | e]; simpl;
      [apply IH | reflexivity].
Qed.




(** C5: a line that fails to decode as JSON is skipped, and the file returns
    the records, message ids and record counts it returns without that line;
    but the file is also copied to the unrecoverable directory and the
    unrecoverable counter is incremented, once for the file. *)
Theorem malformed_line_is_skipped_and_file_quarantined
  (f : file) (l1 l2 : list line) (s s_clean : loader_state)
  (records : list history_record) :
  lines f = Ok (l1 ++ Malformed :: l2) ->
  load_records dateutil_parse {| file_name := file_name f; lines := Ok (l1 ++ l2) |} s
  = Ok (records, s_clean) ->
  exists s',
    load_records dateutil_parse f s = Ok (records, s') /\
    message_ids s' = message_ids s_clean /\
    duplicate_records (counters s') = duplicate_records (counters s_clean) /\
    unique_records (counters s') = unique_records (counters s_clean) /\
    unrecoverable_parse_errors (counters s')
    = unrecoverable_parse_errors (counters s) + 1 /\
    unrecoverable s' = copy_to_unrecoverable f (unrecoverable s).
Proof.
  intros Hlines Hclean.
  apply (load_records_skips_caught f Malformed JSONDecodeError l1 l2 s s_clean records);
    try assumption; reflexivity.
Qed.



End LoaderFacts.

(** *** Concrete runs of the loader and of the validator *)

Lemma malformed_line_is_skipped_and_file_quarantined_witness :
  exists s',
    load_records dateutil_iso (file_of [first_line; Malformed; last_line]) fresh_state
    = Ok (two_records, s') /\
    message_ids s' = message_ids state_after_two /\
    duplicate_records (counters s') = duplicate_records (counters state_after_two) /\
    unique_records (counters s') = unique_records (counters state_after_two) /\
    unrecoverable_parse_errors (counters s')
    = unrecoverable_parse_errors (counters fresh_state) + 1 /\
    unrecoverable s'
    = copy_to_unrecoverable (file_of [first_line; Malformed; last_line])
        (unrecoverable fresh_state).
Proof.
  apply (malformed_line_is_skipped_and_file_quarantined dateutil_iso
           (file_of [first_line; Malformed; last_line]) [first_line] [last_line]
           fresh_state state_after_two two_records).
  - reflexivity.
  - vm_compute. reflexivity.
Defined.

(** A file whose gzip envelope is sound and whose only flaw is one line that
    does not decode is copied to the unrecoverable directory. *)
Lemma malformed_line_has_no_file_impact_fails :
  ~ malformed_line_has_no_file_impact dateutil_iso.
Proof.
  intros H.
  destruct (H (file_of [first_line; Malformed; last_line]) [first_line] [last_line]
              fresh_state two_records state_after_two)
    as [s' [Hrun [Hdir _]]].
  - reflexivity.
  - vm_compute. reflexivity.
  - vm_compute in Hrun. injection Hrun as <-. discriminate Hdir.
Qed.



(** A line without any timestamp makes [load_records] fail as a whole:
    [record[TIMESTAMP_KEY]] raises [KeyError], which neither [except]
    catches. *)
Example missing_timestamp_escapes_load_records :
  load_records dateutil_iso
    (file_of [first_line; Decoded (VDict record_without_timestamp); last_line]) fresh_state
  = Raise KeyError.
Proof. vm_compute. reflexivity. Qed.

Lemma decision_validation_checks_model_presence_only_witness :
  (filter_valid_records hashed_user_1
     ([] ++ decision_without_model :: [loaded "B" 1633584306126000 "event"])
   = filter_valid_records hashed_user_1 ([] ++ [loaded "B" 1633584306126000 "event"]) /\
   skipped_records hashed_user_1
     ([] ++ decision_without_model :: [loaded "B" 1633584306126000 "event"])
   = skipped_records hashed_user_1 ([] ++ [loaded "B" 1633584306126000 "event"]) + 1) /\
  (forall history_id v,
      validate_record (dict_set "count" v decision_with_empty_model) history_id hashed_user_1
      = validate_record decision_with_empty_model history_id hashed_user_1) /\
  (forall history_id v w,
      validate_record (dict_set "model" v decision_with_empty_model) history_id hashed_user_1
      = validate_record (dict_set "model" w decision_with_empty_model) history_id
          hashed_user_1).
Proof.
  apply (decision_validation_checks_model_presence_only hashed_user_1
           decision_without_model [] [loaded "B" 1633584306126000 "event"]
           decision_with_empty_model).
  - reflexivity.
  - reflexivity.
Defined.

(** A decision with an empty model and no count, of the right history, is
    kept. *)
Lemma invalid_decision_is_discarded_fails : ~ invalid_decision_is_discarded.
Proof.
  intros H.
  specialize (H hashed_user_1 decision_with_empty_model eq_refl eq_refl).
  vm_compute in H. discriminate H.
Qed.

(** ** More on the reward engine *)

Section MoreEngineFacts.

Variable cfg : config.


Lemma for_rewards_other_key (r : history_record) (items : list (string * value)) (k : string) :
  forall d d',
    for_rewards cfg d r items = Ok d' ->
    ~ In k (map fst items) ->
    dict_get k d' = dict_get k d.
Proof.
  induction items as [| [k0 v] rest IH]; intros d d' H Hk; simpl in H.
  - injection H as <-. reflexivity.
  - bind_inv H as ls' Hls. simpl in Hk.
    rewrite (IH _ d' H) by (intros Hin; apply Hk; right; exact Hin).
    destruct (dict_has k0 d); [| reflexivity].
    apply dict_get_set_neq. intros ->. apply Hk. left. reflexivity.
Qed.

(** X4: a rewards record changes no bucket but those named by the keys of its
    [rewards] mapping: the listeners filed under any other key stay as they
    are. *)
Theorem rewards_record_leaves_other_buckets
  (d d' : buckets) (r : history_record) (items : list (string * value)) (k : string) :
  type_is r "rewards" = true ->
  rewards_items r = Ok items ->
  process_record cfg d r = Ok d' ->
  ~ In k (map fst items) ->
  dict_get k d' = dict_get k d.
Proof.
  intros Htype Hitems Hrun Hk. unfold process_record in Hrun.
  rewrite (type_is_exclusive r "rewards" "decision" Htype) in Hrun by discriminate.
  rewrite Htype, Hitems in Hrun. simpl in Hrun.
  exact (for_rewards_other_key r items k d d' Hrun Hk).
Qed.


Lemma subseq_refl {A : Type} (l : list A) : subseq l l.
Proof. induction l; constructor; assumption. Qed.

Lemma subseq_trans {A : Type} (l3 l1 l2 : list A) :
  subseq l1 l2 -> subseq l2 l3 -> subseq l1 l3.
Proof.
  intros H12 H23. revert l1 H12.
  induction H23 as [| x mid l H23 IH | x mid l H23 IH]; intros l1 H12.
  - exact H12.
  - constructor. exact (IH l1 H12).
  - inversion H12 as [| y s0 m0 H | y s0 m0 H]; subst.
    + constructor. exact (IH l1 H).
    + apply subseq_take. exact (IH s0 H).
Qed.

Lemma subseq_app {A : Type} (a a' b b' : list A) :
  subseq a a' -> subseq b b' -> subseq (a ++ b) (a' ++ b').
Proof.
  intros Ha Hb. induction Ha; simpl.
  - exact Hb.
  - constructor. exact IHHa.
  - apply subseq_take. exact IHHa.
Qed.

Lemma decisions_for_app (k : string) (l1 l2 : list history_record) :
  decisions_for cfg k (l1 ++ l2) = decisions_for cfg k l1 ++ decisions_for cfg k l2.
Proof. unfold decisions_for. apply filter_app. Qed.

Lemma update_listeners_selects (ls : list history_record) :
  forall ds r v ls',
    Forall2 only_reward_differs ds ls ->
    update_listeners cfg ls r v = Ok ls' ->
    exists ds', subseq ds' ds /\ Forall2 only_reward_differs ds' ls'.
Proof.
  induction ls as [| l rest IH]; intros ds r v ls' Hrel H; simpl in H.
  - injection H as <-. inversion Hrel; subst. exists []. split; constructor.
  - bind_inv H as rest' Hrest. bind_inv H as kept Hkept. injection H as <-.
    inversion Hrel as [| d l0 ds0 rest0 Hd Hrel0]; subst.
    destruct (IH ds0 r v rest' Hrel0 Hrest) as [ds' [Hsub Hrel']].
    destruct (update_listener_cases cfg l r v kept Hkept)
      as [tl [tr [_ [_ [[_ ->] | [_ [r0 [a [_ [_ ->]]]]]]]]]].
    + exists ds'. split; [constructor; exact Hsub | exact Hrel'].
    + exists (d :: ds'). split; [apply subseq_take; exact Hsub |].
      constructor; [| exact Hrel'].
      right. destruct Hd as [-> | [x ->]].
      * eexists. reflexivity.
      * eexists. rewrite dict_set_set. reflexivity.
Qed.

Lemma apply_touches_selects (ts : list (history_record * value)) :
  forall ds ls ls',
    Forall2 only_reward_differs ds ls ->
    apply_touches cfg ls ts = Ok ls' ->
    exists ds', subseq ds' ds /\ Forall2 only_reward_differs ds' ls'.
Proof.
  induction ts as [| [r v] rest IH]; intros ds ls ls' Hrel H; simpl in H.
  - injection H as <-. exists ds. split; [apply subseq_refl | exact Hrel].
  - bind_inv H as ls1 Hls1.
    destruct (update_listeners_selects ls ds r v ls1 Hrel Hls1) as [ds1 [Hsub1 Hrel1]].
    destruct (IH ds1 ls1 ls' Hrel1 H) as [ds' [Hsub Hrel']].
    exists ds'. split; [exact (subseq_trans ds ds' ds1 Hsub Hsub1) | exact Hrel'].
Qed.

Lemma enrolled_decisions_for (k : string) (r : history_record) (new : list history_record) :
  enrolled cfg k r = Ok new -> decisions_for cfg k [r] = new.
Proof.
  unfold enrolled, decisions_for. simpl. destruct (type_is r "decision"); simpl.
  - intros H. bind_inv H as key Hkey. injection H as <-. rewrite Hkey.
    destruct (String.eqb key k); reflexivity.
  - intros H. injection H as <-. reflexivity.
Qed.

Lemma evolve_selects (k : string) (records : list history_record) :
  forall ds ls out,
    Forall2 only_reward_differs ds ls ->
    evolve cfg k ls records = Ok out ->
    exists ds', subseq ds' (ds ++ decisions_for cfg k records) /\
                Forall2 only_reward_differs ds' out.
Proof.
  induction records as [| r rest IH]; intros ds ls out Hrel H; simpl in H.
  - injection H as <-. exists ds. rewrite app_nil_r. split; [apply subseq_refl | exact Hrel].
  - bind_inv H as ls1 Hls1. bind_inv H as new Hnew.
    destruct (apply_touches_selects _ ds ls ls1 Hrel Hls1) as [ds1 [Hsub1 Hrel1]].
    assert (Hrel2 : Forall2 only_reward_differs (ds1 ++ new) (ls1 ++ new)).
    { apply Forall2_app; [exact Hrel1 |].
      clear. induction new; constructor; [left; reflexivity | assumption]. }
    destruct (IH (ds1 ++ new) (ls1 ++ new) out Hrel2 H) as [ds' [Hsub Hrel']].
    exists ds'. split; [| exact Hrel'].
    apply (subseq_trans _ ds' _ Hsub).
    change (r :: rest) with ([r] ++ rest).
    rewrite decisions_for_app, (enrolled_decisions_for k r new Hnew).
    rewrite !app_assoc. apply subseq_app; [| apply subseq_refl].
    apply subseq_app; [exact Hsub1 | apply subseq_refl].
Qed.

(** X6: whatever [assign_rewards_to_decisions] returns under a key is, in
    order, a selection of the decision records of the input with that key:
    no record of another type, no record twice, none out of its arrival
    order; and each comes back as it was but for its [reward] field. *)
Theorem buckets_hold_the_decisions_in_order
  (records : list history_record) (out : buckets) (k : string) :
  assign_rewards_to_decisions cfg records = Ok out ->
  exists ds,
    subseq ds (decisions_for cfg k records) /\
    Forall2 only_reward_differs ds (bucket k out).
Proof.
  intros Hrun. unfold assign_rewards_to_decisions in Hrun.
  pose proof (process_records_evolve cfg records [] out k Hrun) as Hev.
  change (bucket k []) with (@nil history_record) in Hev.
  exact (evolve_selects k records [] [] (bucket k out) (Forall2_nil _) Hev).
Qed.

End MoreEngineFacts.

(** *** Concrete runs *)


Lemma rewards_record_leaves_other_buckets_witness :
  dict_get "j" [("k", [rewarded_decision 2]); ("j", [decision_at t0 "j"])]
  = dict_get "j" [("k", [decision_at t0 "k"]); ("j", [decision_at t0 "j"])].
Proof.
  apply (rewards_record_leaves_other_buckets scenario_config
           [("k", [decision_at t0 "k"]); ("j", [decision_at t0 "j"])]
           [("k", [rewarded_decision 2]); ("j", [decision_at t0 "j"])]
           (rewards_at "2020-01-01T00:00:30.000Z" [("k", VNum 2)]) [("k", VNum 2)] "j").
  - reflexivity.
  - reflexivity.
  - vm_compute. reflexivity.
  - simpl. intros [H | H]; [discriminate H | exact H].
Defined.


Lemma buckets_hold_the_decisions_in_order_witness :
  exists ds,
    subseq ds (decisions_for scenario_config "k" scenario_2) /\
    Forall2 only_reward_differs ds (bucket "k" [("k", [rewarded_decision 1.5])]).
Proof.
  apply (buckets_hold_the_decisions_in_order scenario_config scenario_2).
  vm_compute. reflexivity.
Defined.

(** ** More on the validator *)

Lemma filter_loop_kept_from (hashed : string) (records : list history_record) :
  forall st,
    results (filter_loop hashed records st)
    = results st ++ kept_from hashed (latched_history_id st) records /\
    skipped_record_count (filter_loop hashed records st)
    + Z.of_nat (List.length (kept_from hashed (latched_history_id st) records))
    = skipped_record_count st + Z.of_nat (List.length records).
Proof.
  unfold filter_loop. induction records as [| r rest IH]; intros st.
  - simpl. rewrite app_nil_r. split; [reflexivity | lia].
  - cbn [fold_left kept_from]. destruct (IH (filter_step hashed st r)) as [IHr IHs].
    rewrite IHr. unfold filter_step in *.
    destruct (validate_record r (latched_history_id st) hashed) as [u | e].
    + cbn [results latched_history_id skipped_record_count] in *. fold (latch (latched_history_id st) r) in *.
      rewrite <- app_assoc. split; [reflexivity |].
      cbn [List.length app]. lia.
    + cbn [results latched_history_id skipped_record_count] in *.
      split; [reflexivity |]. cbn [List.length]. lia.
Qed.

Lemma filter_valid_records_kept_from (hashed : string) (records : list history_record) :
  filter_valid_records hashed records = kept_from hashed None records.
Proof.
  unfold filter_valid_records.
  destruct (filter_loop_kept_from hashed records
              {| results := []; latched_history_id := None; skipped_record_count := 0 |})
    as [H _].
  exact H.
Qed.

(** What validation has checked when it returns. *)
Lemma validate_record_Ok (r : history_record) (history_id : option string) (hashed : string) :
  validate_record r history_id hashed = Ok tt ->
  dict_has "timestamp" r = true /\
  dict_has "type" r = true /\
  (type_is r "decision" = true -> dict_has "model" r = true) /\
  exists s, dict_get "history_id" r = Some (VStr s) /\
            if truthy history_id then history_id = Some s
            else sha256_hexdigest s = hashed.
Proof.
  unfold validate_record, dict_get_default.
  destruct (dict_has "timestamp" r); [| discriminate].
  destruct (dict_has "type" r); [| discriminate].
  destruct (dict_has "history_id" r); [| discriminate].
  cbn [negb orb].
  destruct (type_is r "decision"); destruct (dict_has "model" r); cbn [negb andb];
    try discriminate;
    (destruct (truthy history_id);
     [ destruct (dict_get "history_id" r) as [[| | | s | | |] |]; try discriminate;
       destruct history_id as [h |]; try discriminate;
       destruct (String.eqb h s) eqn:E; try discriminate;
       apply String.eqb_eq in E; subst h; intros _;
       repeat split; try (intros; congruence); exists s; split; reflexivity
     | destruct (dict_get "history_id" r) as [[| | | s | | |] |]; try discriminate;
       destruct (String.eqb (sha256_hexdigest s) hashed) eqn:E; try discriminate;
       apply String.eqb_eq in E; intros _;
       repeat split; try (intros; congruence); exists s; split; [reflexivity | exact E] ]).
Qed.

Lemma kept_from_valid (hashed : string) (records : list history_record) :
  forall history_id r,
    (truthy history_id = true ->
     exists s, history_id = Some s /\ sha256_hexdigest s = hashed) ->
    In r (kept_from hashed history_id records) ->
    valid_record hashed r.
Proof.
  induction records as [| r0 rest IH]; intros history_id r Hid Hin; simpl in Hin.
  - contradiction.
  - destruct (validate_record r0 history_id hashed) as [[] | e] eqn:Hv.
    + destruct (validate_record_Ok r0 history_id hashed Hv)
        as [Ht [Hty [Hm [s [Hs Hcheck]]]]].
      assert (Hsha : sha256_hexdigest s = hashed).
      { destruct (truthy history_id) eqn:Etr; [| exact Hcheck].
        destruct (Hid eq_refl) as [s' [Hs' Hsha']]. congruence. }
      destruct Hin as [<- | Hin].
      * repeat split; try assumption. exists s. split; assumption.
      * apply (IH (latch history_id r0) r); [| exact Hin].
        intros _. unfold latch. destruct (truthy history_id) eqn:Etr.
        -- exact (Hid eq_refl).
        -- rewrite Hs. exists s. split; [reflexivity | exact Hsha].
    + exact (IH history_id r Hid Hin).
Qed.

(** X7: every record that [filter_valid_records] returns has a [timestamp], a
    [type] and a [history_id] field, has a [model] field if it is a decision,
    and its [history_id] is a string whose SHA-256 digest is the hashed
    history id of the group: the check against the latched identity never
    lets through an id that does not hash to it. *)
Theorem kept_records_are_valid
  (hashed : string) (records : list history_record) (r : history_record) :
  In r (filter_valid_records hashed records) ->
  valid_record hashed r.
Proof.
  rewrite filter_valid_records_kept_from.
  apply kept_from_valid. discriminate.
Qed.

Lemma kept_from_idempotent (hashed : string) (records : list history_record) :
  forall history_id,
    kept_from hashed history_id (kept_from hashed history_id records)
    = kept_from hashed history_id records.
Proof.
  induction records as [| r rest IH]; intros history_id; simpl.
  - reflexivity.
  - destruct (validate_record r history_id hashed) as [u | e] eqn:Hv.
    + simpl. rewrite Hv. f_equal. apply IH.
    + apply IH.
Qed.

(** X8: filtering is idempotent: the records that [filter_valid_records]
    returns all pass when they are filtered again for the same group, and
    none is counted as skipped. *)
Theorem filter_valid_records_idempotent (hashed : string) (records : list history_record) :
  filter_valid_records hashed (filter_valid_records hashed records)
  = filter_valid_records hashed records /\
  skipped_records hashed (filter_valid_records hashed records) = 0.
Proof.
  assert (Hidem : filter_valid_records hashed (filter_valid_records hashed records)
                  = filter_valid_records hashed records).
  { rewrite !filter_valid_records_kept_from. apply kept_from_idempotent. }
  split; [exact Hidem |].
  unfold skipped_records.
  destruct (filter_loop_kept_from hashed (filter_valid_records hashed records)
              {| results := []; latched_history_id := None; skipped_record_count := 0 |})
    as [_ Hcount].
  cbn [latched_history_id skipped_record_count] in Hcount.
  rewrite <- filter_valid_records_kept_from, Hidem in Hcount. lia.
Qed.

Lemma kept_from_subseq (hashed : string) (records : list history_record) :
  forall history_id, subseq (kept_from hashed history_id records) records.
Proof.
  induction records as [| r rest IH]; intros history_id; simpl.
  - constructor.
  - destruct (validate_record r history_id hashed); constructor; apply IH.
Qed.

(** X9: [filter_valid_records] returns records of its input, in the order of
    the input, and every record of the input is either returned or counted
    as skipped. *)
Theorem every_record_is_kept_or_counted (hashed : string) (records : list history_record) :
  subseq (filter_valid_records hashed records) records /\
  Z.of_nat (List.length (filter_valid_records hashed records)) + skipped_records hashed records
  = Z.of_nat (List.length records).
Proof.
  split.
  - rewrite filter_valid_records_kept_from. apply kept_from_subseq.
  - unfold skipped_records.
    destruct (filter_loop_kept_from hashed records
                {| results := []; latched_history_id := None; skipped_record_count := 0 |})
      as [_ Hcount].
    cbn [latched_history_id skipped_record_count] in Hcount.
    rewrite filter_valid_records_kept_from. lia.
Qed.

Lemma kept_records_are_valid_witness :
  valid_record hashed_user_1 (loaded "B" 1633584306126000 "event").
Proof.
  apply (kept_records_are_valid hashed_user_1 two_records).
  vm_compute. right. left. reflexivity.
Defined.

(** ** More on the history loader *)

Section MoreLoaderFacts.

Variable dateutil_parse : string -> parsed.

Lemma mem_string_In (s : string) (l : list string) : mem_string s l = true <-> In s l.
Proof.
  unfold mem_string. rewrite existsb_exists. split.
  - intros [x [Hin Heq]]. apply String.eqb_eq in Heq. subst x. exact Hin.
  - intros Hin. exists s. split; [exact Hin | apply String.eqb_refl].
Qed.

(** A line either raises whatever ids have been seen, or yields the same
    record and message id whenever the id is new. *)
Lemma load_line_cases (l : line) :
  (exists e, forall ids, load_line dateutil_parse l ids = Raise e) \/
  (exists r id,
      record_of_line dateutil_parse l r /\
      dict_get "message_id" r = Some (VStr id) /\
      forall ids, load_line dateutil_parse l ids
                  = if negb (mem_string id ids) then Ok (Some (r, id)) else Ok None).
Proof.
  destruct l as [v |]; [| left; exists JSONDecodeError; reflexivity].
  unfold load_line.
  destruct v as [| b | x | s | vs | d | t];
    try (left; exists TypeError; reflexivity).
  cbn [subscript].
  destruct (dict_get "timestamp" d) as [tsv |] eqn:Hts;
    [| left; exists KeyError; reflexivity].
  cbn [bind].
  destruct tsv as [| b | x | ts | vs | d' | t'];
    try (left; exists TypeError; reflexivity).
  cbn [parse_timestamp].
  destruct (dateutil_parse ts) as [t | |] eqn:Hparse;
    [| left; exists ValueError; reflexivity | left; exists OverflowError; reflexivity].
  cbn [bind store subscript].
  destruct (dict_get "message_id" (dict_set "timestamp" (VDatetime t) d)) as [mid |] eqn:Hmid;
    [| left; exists KeyError; reflexivity].
  cbn [bind].
  destruct mid as [| b | x | id | vs | d' | t'];
    try (left; eexists; reflexivity).
  right. exists (dict_set "timestamp" (VDatetime t) d), id.
  split; [| split].
  - exists d, ts, t. auto.
  - exact Hmid.
  - intros ids. reflexivity.
Qed.

(** What the loop over the lines adds to the records and to the ids. *)
Lemma load_lines_adds (ls : list line) :
  forall st st',
    load_lines dateutil_parse ls st = Ok st' ->
    exists new ids,
      records_read st' = records_read st ++ new /\
      ids_seen st' = rev ids ++ ids_seen st /\
      map (dict_get "message_id") new = map (fun id => Some (VStr id)) ids /\
      (NoDup (ids_seen st) -> NoDup (ids_seen st')) /\
      Forall (fun r => exists l, In l ls /\ record_of_line dateutil_parse l r) new.
Proof.
  induction ls as [| l rest IH]; intros st st' Hrun; simpl in Hrun.
  - injection Hrun as <-. exists [], []. simpl. rewrite app_nil_r. auto.
  - assert (Hweaken : forall new,
      Forall (fun r => exists l0, In l0 rest /\ record_of_line dateutil_parse l0 r) new ->
      Forall (fun r => exists l0, In l0 (l :: rest) /\ record_of_line dateutil_parse l0 r) new).
    { intros new H. eapply Forall_impl; [| exact H].
      intros r [l0 [Hin Hrec]]. exists l0. split; [right; exact Hin | exact Hrec]. }
    destruct (load_line_cases l) as [[e He] | [r [id [Hrec [Hmid Hline]]]]].
    + rewrite He in Hrun. destruct (caught_per_line e); [| discriminate].
      destruct (IH _ st' Hrun) as [new [ids [Hr [Hi [Hm [Hnd Hsrc]]]]]].
      exists new, ids. simpl in *.
      split; [exact Hr | split; [exact Hi | split; [exact Hm | split; [exact Hnd |]]]].
      exact (Hweaken _ Hsrc).
    + rewrite Hline in Hrun. destruct (mem_string id (ids_seen st)) eqn:Emem; simpl in Hrun.
      * destruct (IH _ st' Hrun) as [new [ids [Hr [Hi [Hm [Hnd Hsrc]]]]]].
        exists new, ids. simpl in *.
      split; [exact Hr | split; [exact Hi | split; [exact Hm | split; [exact Hnd |]]]].
      exact (Hweaken _ Hsrc).
      * destruct (IH _ st' Hrun) as [new [ids [Hr [Hi [Hm [Hnd Hsrc]]]]]].
        exists (r :: new), (id :: ids). simpl in *.
        split; [rewrite Hr, <- app_assoc; reflexivity |].
        split; [rewrite Hi, <- app_assoc; reflexivity |].
        split; [rewrite Hmid, Hm; reflexivity |].
        split.
        -- intros Hnodup. apply Hnd. constructor; [| exact Hnodup].
           intros Hin. apply mem_string_In in Hin. congruence.
        -- constructor; [exists l; split; [left; reflexivity | exact Hrec] |].
           exact (Hweaken _ Hsrc).
Qed.

Lemma load_records_adds (f : file) (s s' : loader_state) (records : list history_record) :
  load_records dateutil_parse f s = Ok (records, s') ->
  exists ids,
    message_ids s' = rev ids ++ message_ids s /\
    map (dict_get "message_id") records = map (fun id => Some (VStr id)) ids /\
    (NoDup (message_ids s) -> NoDup (message_ids s')) /\
    unique_records (counters s')
    = unique_records (counters s) + Z.of_nat (List.length records) /\
    Forall (fun r => exists ls l, lines f = Ok ls /\ In l ls /\
                                  record_of_line dateutil_parse l r) records.
Proof.
  unfold load_records. intros Hrun. bind_inv Hrun as st Hst.
  injection Hrun as <- <-. cbn [message_ids counters].
  assert (Hu : forall q c n, unique_records (count_records (if q : bool then count_unrecoverable c else c) n)
                             = unique_records c + n).
  { intros [|] c n; reflexivity. }
  rewrite Hu. cbn [unique_records].
  destruct (lines f) as [ls | e] eqn:Hlines.
  - destruct (load_lines_adds ls _ st Hst) as [new [ids [Hr [Hi [Hm [Hnd Hsrc]]]]]].
    simpl in Hr, Hi, Hnd. subst new. exists ids.
    repeat split; try assumption; try reflexivity.
    eapply Forall_impl; [| exact Hsrc].
    intros r [l [Hin Hrec]]. exists ls, l. auto.
  - destruct (caught_per_file e); [| discriminate].
    injection Hst as <-. exists []. simpl. repeat split; auto.
Qed.

Lemma load_files_adds (g : list file) :
  forall records s out s',
    load_files dateutil_parse g records s = Ok (out, s') ->
    exists new ids,
      out = records ++ new /\
      message_ids s' = rev ids ++ message_ids s /\
      map (dict_get "message_id") new = map (fun id => Some (VStr id)) ids /\
      (NoDup (message_ids s) -> NoDup (message_ids s')) /\
      unique_records (counters s')
      = unique_records (counters s) + Z.of_nat (List.length new) /\
      Forall (fun r => exists f ls l, In f g /\ lines f = Ok ls /\ In l ls /\
                                      record_of_line dateutil_parse l r) new.
Proof.
  induction g as [| f rest IH]; intros records s out s' Hrun; simpl in Hrun.
  - injection Hrun as <- <-. exists [], []. simpl. rewrite app_nil_r.
    repeat split; auto. lia.
  - bind_inv Hrun as loaded Hload. destruct loaded as [rs s1]. simpl in Hrun.
    destruct (load_records_adds f s s1 rs Hload) as [ids1 [Hi1 [Hm1 [Hnd1 [Hu1 Hsrc1]]]]].
    destruct (IH _ _ out s' Hrun) as [new [ids [Hout [Hi [Hm [Hnd [Hu Hsrc]]]]]]].
    exists (rs ++ new), (ids1 ++ ids).
    split; [rewrite Hout, app_assoc; reflexivity |].
    split; [rewrite Hi, Hi1, rev_app_distr, app_assoc; reflexivity |].
    split; [rewrite !map_app; f_equal; assumption |].
    split; [auto |].
    split; [rewrite Hu, Hu1, length_app; lia |].
    apply Forall_app. split.
    + eapply Forall_impl; [| exact Hsrc1].
      intros r [ls [l [Hl [Hin Hrec]]]]. exists f, ls, l. simpl. auto.
    + eapply Forall_impl; [| exact Hsrc].
      intros r [f0 [ls [l [Hf [Hl [Hin Hrec]]]]]]. exists f0, ls, l. simpl. auto.
Qed.

Lemma NoDup_map_message_ids (ids : list string) :
  NoDup ids -> NoDup (map (fun id => Some (VStr id)) ids).
Proof.
  induction 1 as [| id rest Hnotin Hnodup IH]; simpl; constructor.
  - intros Hin. apply in_map_iff in Hin. destruct Hin as [id' [Heq Hin]].
    injection Heq as ->. contradiction.
  - exact IH.
Qed.

(** X10: the records that [load_history] returns for a group have pairwise
    different message ids, which are the ids of the set [message_ids] in the
    order of the records, and the counter of unique records has grown by the
    number of records returned. *)
Theorem loaded_records_have_distinct_message_ids
  (file_group : list file) (c : stats) (dir : dict file)
  (records : list history_record) (s : loader_state) :
  load_history dateutil_parse file_group c dir = Ok (records, s) ->
  NoDup (map (dict_get "message_id") records) /\
  map (dict_get "message_id") records
  = map (fun id => Some (VStr id)) (rev (message_ids s)) /\
  unique_records (counters s) = unique_records c + Z.of_nat (List.length records).
Proof.
  unfold load_history. intros Hrun.
  destruct (load_files_adds file_group [] _ records s Hrun)
    as [new [ids [Hout [Hi [Hm [Hnd [Hu _]]]]]]].
  simpl in Hout, Hi, Hnd, Hu. subst new. rewrite app_nil_r in Hi.
  rewrite Hi, rev_involutive, Hm.
  split; [| split; [reflexivity | exact Hu]].
  apply NoDup_map_message_ids.
  specialize (Hnd (NoDup_nil _)). rewrite Hi in Hnd.
  apply NoDup_rev in Hnd. rewrite rev_involutive in Hnd. exact Hnd.
Qed.

(** X11: every record that [load_history] returns is a line of a file of the
    group that decoded to an object with a [timestamp] string that
    [dateutil.parser.parse] accepts, and is that object with the string
    replaced by the parsed instant, all other fields as they were. *)
Theorem loaded_record_is_a_line_with_parsed_timestamp
  (file_group : list file) (c : stats) (dir : dict file)
  (records : list history_record) (s : loader_state) (r : history_record) :
  load_history dateutil_parse file_group c dir = Ok (records, s) ->
  In r records ->
  exists f ls l,
    In f file_group /\ lines f = Ok ls /\ In l ls /\
    record_of_line dateutil_parse l r.
Proof.
  unfold load_history. intros Hrun Hin.
  destruct (load_files_adds file_group [] _ records s Hrun)
    as [new [ids [Hout [_ [_ [_ [_ Hsrc]]]]]]].
  simpl in Hout. subst new. rewrite Forall_forall in Hsrc. exact (Hsrc r Hin).
Qed.

(** What a file loads and whether an error is remembered depend on the state
    through the message ids alone: the counter of unrecoverable files moves
    by the same amount. *)
Lemma load_records_shift (f : file) (s1 s2 : loader_state) :
  same_load s1 s2 ->
  match load_records dateutil_parse f s1, load_records dateutil_parse f s2 with
  | Ok (r1, s1'), Ok (r2, s2') =>
      r1 = r2 /\ same_load s1' s2' /\
      unrecoverable_parse_errors (counters s2') - unrecoverable_parse_errors (counters s2)
      = unrecoverable_parse_errors (counters s1') - unrecoverable_parse_errors (counters s1) /\
      (forall n, dict_has n (unrecoverable s2) = true ->
                 dict_has n (unrecoverable s2') = true)
  | Raise e1, Raise e2 => e1 = e2
  | _, _ => False
  end.
Proof.
  intros [Hids [Hdup Huniq]]. unfold load_records. rewrite Hids.
  destruct (match lines f with
            | Ok ls => load_lines dateutil_parse ls _
            | Raise e0 => _
            end) as [st | e]; simpl; [| reflexivity].
  split; [reflexivity | split; [| split]].
  - unfold same_load. simpl.
    destruct (error st); simpl; rewrite Hdup, Huniq; auto.
  - destruct (error st); simpl; lia.
  - intros n Hn. destruct (error st); [| exact Hn].
    unfold copy_to_unrecoverable.
    destruct (String.eqb (file_name f) n) eqn:E.
    + apply String.eqb_eq in E. subst n. apply dict_has_set_eq.
    + apply String.eqb_neq in E. rewrite dict_has_set_neq by exact E. exact Hn.
Qed.

Lemma load_files_shift (g : list file) :
  forall records s1 s2,
    same_load s1 s2 ->
    match load_files dateutil_parse g records s1, load_files dateutil_parse g records s2 with
    | Ok (r1, s1'), Ok (r2, s2') =>
        r1 = r2 /\ same_load s1' s2' /\
        unrecoverable_parse_errors (counters s2') - unrecoverable_parse_errors (counters s2)
        = unrecoverable_parse_errors (counters s1') - unrecoverable_parse_errors (counters s1) /\
        (forall n, dict_has n (unrecoverable s2) = true ->
                   dict_has n (unrecoverable s2') = true)
    | Raise e1, Raise e2 => e1 = e2
    | _, _ => False
    end.
Proof.
  induction g as [| f rest IH]; intros records s1 s2 Hsame; simpl.
  - split; [reflexivity | split; [exact Hsame | split; [lia | auto]]].
  - pose proof (load_records_shift f s1 s2 Hsame) as H.
    destruct (load_records dateutil_parse f s1) as [[r1 s1'] | e1];
      destruct (load_records dateutil_parse f s2) as [[r2 s2'] | e2];
      simpl; try contradiction; try exact H.
    destruct H as [-> [Hsame' [Hcount Hdir]]].
    specialize (IH (records ++ r2) s1' s2' Hsame').
    destruct (load_files dateutil_parse rest (records ++ r2) s1') as [[q1 t1] | e1];
      destruct (load_files dateutil_parse rest (records ++ r2) s2') as [[q2 t2] | e2];
      try contradiction; try exact IH.
    destruct IH as [-> [Hsame'' [Hcount' Hdir']]].
    split; [reflexivity | split; [exact Hsame'' | split; [lia | auto]]].
Qed.

(** X12: a file of the group that gzip cannot read (the outer [except]) gives
    no record and stops nothing: [load_history] returns the records, message
    ids and record counts it returns for the group without that file, with
    the unrecoverable counter one higher and the file copied to the
    unrecoverable directory. *)
Theorem corrupt_file_is_quarantined_and_skipped
  (g1 g2 : list file) (f : file) (c : stats) (dir : dict file)
  (records : list history_record) (s_clean : loader_state) :
  lines f = Raise BadGzipFile ->
  load_history dateutil_parse (g1 ++ g2) c dir = Ok (records, s_clean) ->
  exists s',
    load_history dateutil_parse (g1 ++ f :: g2) c dir = Ok (records, s') /\
    same_load s_clean s' /\
    unrecoverable_parse_errors (counters s')
    = unrecoverable_parse_errors (counters s_clean) + 1 /\
    dict_has (file_name f) (unrecoverable s') = true.
Proof.
  intros Hlines. unfold load_history. rewrite !load_files_app. intros Hclean.
  bind_inv Hclean as loaded1 H1. rewrite H1. destruct loaded1 as [r1 s1].
  cbn [bind fst snd load_files] in *.
  unfold load_records at 1. rewrite Hlines.
  cbn [caught_per_file bind fst snd records_read ids_seen error duplicates List.length].
  rewrite app_nil_r.
  match goal with
  | |- exists s', load_files _ _ _ ?s2 = _ /\ _ =>
      pose proof (load_files_shift g2 r1 s1 s2) as H; set (s2' := s2) in *
  end.
  assert (Hsame : same_load s1 s2').
  { unfold same_load, s2'. simpl. repeat split; lia. }
  specialize (H Hsame). rewrite Hclean in H.
  destruct (load_files dateutil_parse g2 r1 s2') as [[r3 s3] |]; [| contradiction].
  destruct H as [-> [Hsame' [Hcount Hkeep]]].
  exists s3. split; [reflexivity | split; [exact Hsame' | split]].
  - unfold s2' in Hcount. simpl in Hcount. lia.
  - apply Hkeep. unfold s2'. simpl. apply dict_has_set_eq.
Qed.

Lemma load_lines_nothing_new (ls : list line) :
  forall st0 st1,
    load_lines dateutil_parse ls st0 = Ok st1 ->
    forall st,
      incl (ids_seen st1) (ids_seen st) ->
      exists st',
        load_lines dateutil_parse ls st = Ok st' /\
        records_read st' = records_read st /\ ids_seen st' = ids_seen st.
Proof.
  induction ls as [| l rest IH]; intros st0 st1 Hrun st Hincl; simpl in *.
  - exists st. auto.
  - destruct (load_line_cases l) as [[e He] | [r [id [_ [_ Hline]]]]].
    + rewrite He in *. destruct (caught_per_line e); [| discriminate].
      destruct (IH _ st1 Hrun
                  {| records_read := records_read st; ids_seen := ids_seen st;
                     duplicates := duplicates st; error := Some e |} Hincl)
        as [st' [Hst' [Hr Hi]]].
      exists st'. auto.
    + assert (Hseen : In id (ids_seen st)).
      { rewrite Hline in Hrun. apply Hincl.
        destruct (mem_string id (ids_seen st0)) eqn:Emem; simpl in Hrun;
          destruct (load_lines_adds rest _ st1 Hrun) as [new [ids [_ [Hi _]]]];
          rewrite Hi; apply in_or_app; right; simpl.
        - apply mem_string_In. exact Emem.
        - left. reflexivity. }
      rewrite (Hline (ids_seen st)).
      apply mem_string_In in Hseen. rewrite Hseen. simpl.
      rewrite Hline in Hrun.
      destruct (mem_string id (ids_seen st0)); simpl in Hrun.
      * destruct (IH _ st1 Hrun
                    {| records_read := records_read st; ids_seen := ids_seen st;
                       duplicates := duplicates st + 1; error := error st |} Hincl)
          as [st' [Hst' [Hr Hi]]].
        exists st'. auto.
      * destruct (IH _ st1 Hrun
                    {| records_read := records_read st; ids_seen := ids_seen st;
                       duplicates := duplicates st + 1; error := error st |} Hincl)
          as [st' [Hst' [Hr Hi]]].
        exists st'. auto.
Qed.

(** X13: once a file has been loaded, loading a file with the same lines
    later in the group adds nothing: no record is returned, the set of
    message ids and the counter of unique records stay as they are. *)
Theorem reloaded_lines_add_nothing
  (f f' : file) (s0 s1 s : loader_state) (records : list history_record) :
  lines f' = lines f ->
  load_records dateutil_parse f s0 = Ok (records, s1) ->
  incl (message_ids s1) (message_ids s) ->
  exists s',
    load_records dateutil_parse f' s = Ok ([], s') /\
    message_ids s' = message_ids s /\
    unique_records (counters s') = unique_records (counters s).
Proof.
  intros Hsame Hrun Hincl. unfold load_records in *. rewrite Hsame.
  bind_inv Hrun as st1 Hst1. injection Hrun as _ <-. cbn [message_ids] in Hincl.
  destruct (lines f) as [ls | e].
  - destruct (load_lines_nothing_new ls _ st1 Hst1
                {| records_read := []; ids_seen := message_ids s;
                   duplicates := 0; error := None |} Hincl)
      as [st' [Hst' [Hr Hi]]].
    rewrite Hst'. cbn [bind]. simpl in Hr, Hi. rewrite Hr, Hi.
    eexists. split; [reflexivity |]. cbn [message_ids counters List.length].
    split; [reflexivity |].
    destruct (error st'); simpl; lia.
  - destruct (caught_per_file e); [| discriminate].
    cbn [bind records_read ids_seen error].
    eexists. split; [reflexivity |]. simpl. split; [reflexivity | lia].
Qed.

(** X14: a line that decodes to an object without a [timestamp] field, or
    with a good timestamp and without a [message_id] field, raises a
    [KeyError] that neither [except] clause of [load_records] catches: if the
    files and the lines before it load, [load_history] raises [KeyError] for
    the whole group. *)
Theorem record_without_timestamp_or_id_aborts_the_load
  (g1 g2 : list file) (f : file) (l1 l2 : list line) (d : history_record)
  (c : stats) (dir : dict file)
  (records1 : list history_record) (s1 : loader_state) (st1 : reading) :
  load_history dateutil_parse g1 c dir = Ok (records1, s1) ->
  lines f = Ok (l1 ++ Decoded (VDict d) :: l2) ->
  load_lines dateutil_parse l1 (start_reading s1) = Ok st1 ->
  (dict_get "timestamp" d = None \/
   exists ts t, dict_get "timestamp" d = Some (VStr ts) /\ dateutil_parse ts = Parsed t /\
                dict_get "message_id" d = None) ->
  load_history dateutil_parse (g1 ++ f :: g2) c dir = Raise KeyError.
Proof.
  unfold load_history. intros Hg1 Hlines Hl1 Hbad.
  rewrite load_files_app, Hg1. cbn [bind fst snd load_files].
  unfold load_records. rewrite Hlines, load_lines_app.
  fold (start_reading s1). rewrite Hl1. cbn [bind load_lines].
  assert (Hraise : load_line dateutil_parse (Decoded (VDict d)) (ids_seen st1) = Raise KeyError).
  { unfold load_line. cbn [subscript].
    destruct Hbad as [Hts | [ts [t [Hts [Hparse Hid]]]]]; rewrite Hts.
    - reflexivity.
    - cbn [bind parse_timestamp]. rewrite Hparse. cbn [bind store subscript].
      rewrite dict_get_set_neq by discriminate. rewrite Hid. reflexivity. }
  rewrite Hraise. reflexivity.
Qed.

(** The two exceptions that no [except] clause of [load_records] names end
    the load of the file: [UnicodeDecodeError], which [readlines()] raises
    outside the inner [try] on content that is not UTF-8, and the
    [OverflowError] of the parser of timestamps. *)
Lemma undecodable_file_stops_the_load (f : file) (s : loader_state) :
  lines f = Raise UnicodeDecodeError ->
  load_records dateutil_parse f s = Raise UnicodeDecodeError.
Proof. intros Hlines. unfold load_records. rewrite Hlines. reflexivity. Qed.

Lemma timestamp_overflow_stops_the_load (f : file) (d : history_record) (ts : string)
  (l2 : list line) (s : loader_state) :
  lines f = Ok (Decoded (VDict d) :: l2) ->
  dict_get "timestamp" d = Some (VStr ts) ->
  dateutil_parse ts = ParserOverflow ->
  load_records dateutil_parse f s = Raise OverflowError.
Proof.
  intros Hlines Hts Hparse. unfold load_records. rewrite Hlines.
  cbn [load_lines load_line subscript]. rewrite Hts.
  cbn [bind parse_timestamp]. rewrite Hparse. reflexivity.
Qed.

End MoreLoaderFacts.

(** *** Concrete runs of the loader *)

Lemma loaded_records_have_distinct_message_ids_witness :
  NoDup (map (dict_get "message_id") three_records) /\
  map (dict_get "message_id") three_records
  = map (fun id => Some (VStr id)) (rev (message_ids state_after_three)) /\
  unique_records (counters state_after_three)
  = unique_records (counters fresh_state) + Z.of_nat (List.length three_records).
Proof.
  apply (loaded_records_have_distinct_message_ids dateutil_iso
           [file_of [first_line; last_line]; second_file]
           (counters fresh_state) [] three_records state_after_three).
  vm_compute. reflexivity.
Defined.

Lemma loaded_record_is_a_line_with_parsed_timestamp_witness :
  exists f ls l,
    In f [file_of [first_line; last_line]; second_file] /\
    lines f = Ok ls /\ In l ls /\
    record_of_line dateutil_iso l (loaded "E" 1633584366126000 "event").
Proof.
  apply (loaded_record_is_a_line_with_parsed_timestamp dateutil_iso
           [file_of [first_line; last_line]; second_file]
           (counters fresh_state) [] three_records state_after_three).
  - vm_compute. reflexivity.
  - simpl. right. right. left. reflexivity.
Defined.

Lemma corrupt_file_is_quarantined_and_skipped_witness :
  exists s',
    load_history dateutil_iso
      ([file_of [first_line; last_line]]
         ++ {| file_name := "c6c2-0.jsonl.gz"; lines := Raise BadGzipFile |} :: [second_file])
      (counters fresh_state) []
    = Ok (three_records, s') /\
    same_load state_after_three s' /\
    unrecoverable_parse_errors (counters s')
    = unrecoverable_parse_errors (counters state_after_three) + 1 /\
    dict_has "c6c2-0.jsonl.gz" (unrecoverable s') = true.
Proof.
  apply (corrupt_file_is_quarantined_and_skipped dateutil_iso
           [file_of [first_line; last_line]] [second_file]
           {| file_name := "c6c2-0.jsonl.gz"; lines := Raise BadGzipFile |}
           (counters fresh_state) [] three_records state_after_three).
  - reflexivity.
  - vm_compute. reflexivity.
Defined.

Lemma reloaded_lines_add_nothing_witness :
  exists s',
    load_records dateutil_iso
      {| file_name := "c6c2-3.jsonl.gz"; lines := Ok [first_line; last_line] |}
      state_after_three
    = Ok ([], s') /\
    message_ids s' = message_ids state_after_three /\
    unique_records (counters s') = unique_records (counters state_after_three).
Proof.
  apply (reloaded_lines_add_nothing dateutil_iso
           (file_of [first_line; last_line])
           {| file_name := "c6c2-3.jsonl.gz"; lines := Ok [first_line; last_line] |}
           fresh_state state_after_two state_after_three two_records).
  - reflexivity.
  - vm_compute. reflexivity.
  - intros id Hid. simpl in *. right. exact Hid.
Defined.

Lemma record_without_timestamp_or_id_aborts_the_load_witness :
  load_history dateutil_iso
    ([file_of [first_line; last_line]]
       ++ {| file_name := "c6c2-2.jsonl.gz";
             lines := Ok ([line_of "E" "2021-10-07T07:26:06.126+02:00" "event"]
                              ++ Decoded (VDict record_without_timestamp) :: [last_line]) |}
       :: [second_file])
    (counters fresh_state) []
  = Raise KeyError.
Proof.
  apply (record_without_timestamp_or_id_aborts_the_load dateutil_iso
           [file_of [first_line; last_line]] [second_file]
           {| file_name := "c6c2-2.jsonl.gz";
              lines := Ok ([line_of "E" "2021-10-07T07:26:06.126+02:00" "event"]
                               ++ Decoded (VDict record_without_timestamp) :: [last_line]) |}
           [line_of "E" "2021-10-07T07:26:06.126+02:00" "event"] [last_line]
           record_without_timestamp (counters fresh_state) []
           two_records state_after_two
           {| records_read := [loaded "E" 1633584366126000 "event"];
              ids_seen := ["E"; "B"; "A"]; duplicates := 0; error := None |}).
  - vm_compute. reflexivity.
  - reflexivity.
  - vm_compute. reflexivity.
  - left. reflexivity.
Defined.

(** ** More on the shard planner *)

Lemma zero_node_count_is_an_error (entries : list path) (node_id : Z) :
  existsb is_dir entries = true ->
  identify_dirs_to_process entries node_id 0 = None.
Proof.
  induction entries as [| d rest IH]; simpl.
  - discriminate.
  - destruct (is_dir d); simpl; [reflexivity | exact IH].
Qed.

(** X15: with a node count of zero the modulo raises [ZeroDivisionError] at
    the first directory of the listing, so [identify_dirs_to_process] fails
    exactly when the listing has a directory; a listing of plain files alone
    gives the empty list. *)
Theorem zero_node_count_fails_on_the_first_directory (entries : list path) (node_id : Z) :
  identify_dirs_to_process entries node_id 0
  = if existsb is_dir entries then None else Some [].
Proof.
  induction entries as [| d rest IH]; simpl.
  - reflexivity.
  - destruct (is_dir d); simpl; [reflexivity | exact IH].
Qed.

(** X16: a node whose id lies outside [0, node_count) is handed no directory
    and gets no error: the remainder of the unsigned hash by a positive count
    never equals it. *)
Theorem node_id_out_of_range_owns_nothing (entries : list path) (node_id node_count : Z) :
  0 < node_count ->
  node_id < 0 \/ node_count <= node_id ->
  identify_dirs_to_process entries node_id node_count = Some [].
Proof.
  intros Hpos Hout. rewrite identify_dirs_to_process_filter by lia. f_equal.
  induction entries as [| d rest IH]; simpl.
  - reflexivity.
  - pose proof (Z.mod_pos_bound (mmh3_hash (str_prefix 2 (name d)) 0) node_count Hpos) as Hb.
    destruct (mmh3_hash (str_prefix 2 (name d)) 0 mod node_count =? node_id) eqn:E.
    + apply Z.eqb_eq in E. lia.
    + rewrite andb_false_r. exact IH.
Qed.

(** X17: sharding looks at the first two characters of a directory's name
    and at nothing else: two directories of the listing whose names start
    with the same two characters are handed to the same nodes. *)
Theorem same_prefix_same_node
  (entries dirs : list path) (d1 d2 : path) (node_id node_count : Z) :
  identify_dirs_to_process entries node_id node_count = Some dirs ->
  In d1 entries -> In d2 entries ->
  is_dir d1 = true -> is_dir d2 = true ->
  str_prefix 2 (name d1) = str_prefix 2 (name d2) ->
  In d1 dirs <-> In d2 dirs.
Proof.
  intros Hrun Hin1 Hin2 Hdir1 Hdir2 Hprefix.
  destruct (Z.eq_dec node_count 0) as [-> | Hn].
  - rewrite zero_node_count_is_an_error in Hrun.
    + discriminate.
    + apply existsb_exists. exists d1. auto.
  - rewrite identify_dirs_to_process_filter in Hrun by exact Hn.
    injection Hrun as <-. rewrite !filter_In, Hdir1, Hdir2, Hprefix. simpl. tauto.
Qed.

Lemma node_id_out_of_range_owns_nothing_witness :
  identify_dirs_to_process test_listing 3 3 = Some [].
Proof.
  apply (node_id_out_of_range_owns_nothing test_listing 3 3).
  - lia.
  - right. lia.
Defined.

Lemma same_prefix_same_node_witness :
  In {| name := "aa"; is_dir := true |} [{| name := "aa"; is_dir := true |};
                                         {| name := "aab"; is_dir := true |}]
  <-> In {| name := "aab"; is_dir := true |} [{| name := "aa"; is_dir := true |};
                                              {| name := "aab"; is_dir := true |}].
Proof.
  apply (same_prefix_same_node
           [{| name := "aa"; is_dir := true |}; {| name := "bb"; is_dir := true |};
            {| name := "aab"; is_dir := true |}]
           [{| name := "aa"; is_dir := true |}; {| name := "aab"; is_dir := true |}]
           {| name := "aa"; is_dir := true |} {| name := "aab"; is_dir := true |} 1 3).
  - vm_compute. reflexivity.
  - simpl. left. reflexivity.
  - simpl. right. right. left. reflexivity.
  - reflexivity.
  - reflexivity.
  - reflexivity.
Defined.

(** ** The work list and the output files *)

Section WorkListFacts.

Variable name_no_ext : string -> string.
Variable OUTPUT_FILENAME : string -> string.
Variable failing : failures.

Lemma find_app_first {A : Type} (p : A -> bool) (l1 l2 : list A) :
  find p (l1 ++ l2) = match find p l1 with
                      | Some x => Some x
                      | None => find p l2
                      end.
Proof.
  induction l1 as [| x rest IH]; simpl.
  - reflexivity.
  - destruct (p x); [reflexivity | exact IH].
Qed.

Lemma filter_all {A : Type} (p : A -> bool) (l : list A) :
  (forall x, In x l -> p x = true) -> filter p l = l.
Proof.
  induction l as [| x rest IH]; intros Hall; simpl.
  - reflexivity.
  - rewrite (Hall x (or_introl eq_refl)). f_equal. apply IH.
    intros y Hy. apply Hall. right. exact Hy.
Qed.

Lemma find_filter_kept {A : Type} (p q : A -> bool) (l : list A) :
  (forall x, In x l -> p x = true -> q x = true) ->
  find p (filter q l) = find p l.
Proof.
  induction l as [| x rest IH]; intros Hpq; simpl.
  - reflexivity.
  - assert (Hrest : forall y, In y rest -> p y = true -> q y = true).
    { intros y Hy. apply Hpq. right. exact Hy. }
    destruct (q x) eqn:Eq; simpl.
    + rewrite (IH Hrest). reflexivity.
    + destruct (p x) eqn:Ep.
      * rewrite (Hpq x (or_introl eq_refl) Ep) in Eq. discriminate.
      * exact (IH Hrest).
Qed.

Lemma filter_rev {A : Type} (p : A -> bool) (l : list A) :
  filter p (rev l) = rev (filter p l).
Proof.
  induction l as [| x rest IH]; simpl.
  - reflexivity.
  - rewrite filter_app, IH. simpl. destruct (p x); simpl.
    + reflexivity.
    + rewrite app_nil_r. reflexivity.
Qed.

Lemma filter_comm {A : Type} (p q : A -> bool) (l : list A) :
  filter p (filter q l) = filter q (filter p l).
Proof.
  induction l as [| x rest IH]; simpl.
  - reflexivity.
  - destruct (p x) eqn:Ep; destruct (q x) eqn:Eq; simpl; rewrite ?Ep, ?Eq, IH; reflexivity.
Qed.

(** The dict comprehension keeps, for each name stem, the last file of that
    stem. *)
Lemma fold_by_name_no_ext_get (files : list entry) (stem : string) :
  forall d,
    dict_get stem
      (fold_left (fun d f => dict_set (name_no_ext (entry_name f)) f d) files d)
    = match find (fun f => String.eqb (name_no_ext (entry_name f)) stem) (rev files) with
      | Some f => Some f
      | None => dict_get stem d
      end.
Proof.
  induction files as [| f rest IH]; intros d; simpl.
  - reflexivity.
  - rewrite IH, find_app_first.
    destruct (find _ (rev rest)) as [g |]; [reflexivity |]. simpl.
    destruct (String.eqb (name_no_ext (entry_name f)) stem) eqn:E.
    + apply String.eqb_eq in E. subst stem. apply dict_get_set_eq.
    + apply String.eqb_neq in E. apply dict_get_set_neq. exact E.
Qed.

Lemma by_name_no_ext_get (files : list entry) (stem : string) :
  dict_get stem (by_name_no_ext name_no_ext files)
  = find (fun f => String.eqb (name_no_ext (entry_name f)) stem) (rev files).
Proof.
  unfold by_name_no_ext. rewrite fold_by_name_no_ext_get.
  destruct (find _ (rev files)); reflexivity.
Qed.

Lemma by_name_no_ext_has (files : list entry) (stem : string) :
  dict_has stem (by_name_no_ext name_no_ext files) = true <->
  exists f, In f files /\ name_no_ext (entry_name f) = stem.
Proof.
  unfold dict_has. rewrite by_name_no_ext_get. split.
  - destruct (find _ (rev files)) as [f |] eqn:E; [| discriminate].
    intros _. apply find_some in E. destruct E as [Hin Heq].
    exists f. split; [apply in_rev; exact Hin | apply String.eqb_eq; exact Heq].
  - intros [f [Hin Heq]].
    destruct (find _ (rev files)) as [g |] eqn:E; [reflexivity |].
    apply in_rev in Hin. apply (find_none _ _ E f) in Hin.
    apply String.eqb_neq in Hin. contradiction.
Qed.

(** The test on the names in the loop of [identify_files_to_process] never
    fails: staleness is a matter of the modification times alone. *)
Lemma is_stale_newer_than_output (output_root : tree) (dir : string) (f_in : entry) :
  is_stale name_no_ext
    (by_name_no_ext name_no_ext (glob ".gz" (listing_of output_root dir))) f_in
  = newer_than_output name_no_ext output_root dir f_in.
Proof.
  unfold is_stale, newer_than_output, last_output. rewrite by_name_no_ext_get.
  destruct (find _ (rev (glob ".gz" (listing_of output_root dir)))) as [f_out |] eqn:E;
    [| reflexivity].
  apply find_some in E. destruct E as [_ Heq]. apply String.eqb_eq in Heq.
  rewrite Heq, String.eqb_refl. reflexivity.
Qed.

Lemma files_of_dir_newer_than_output (input_root output_root : tree) (d : path) :
  files_of_dir name_no_ext input_root output_root d
  = map (pair (name d))
      (filter (newer_than_output name_no_ext output_root (name d))
         (glob ".jsonl" (listing_of input_root (name d)))).
Proof.
  unfold files_of_dir. destruct (dict_has (name d) output_root) eqn:Ehas; simpl.
  - f_equal. apply filter_ext. intros f. apply is_stale_newer_than_output.
  - f_equal. symmetry. apply filter_all. intros f _.
    unfold newer_than_output, last_output, listing_of.
    unfold dict_has in Ehas. destruct (dict_get (name d) output_root); [discriminate |].
    reflexivity.
Qed.

Lemma identify_files_to_process_flat_map
  (input_root output_root : tree) (dirs_to_process : list path) :
  identify_files_to_process name_no_ext input_root output_root dirs_to_process
  = flat_map (fun d =>
                map (pair (name d))
                  (filter (newer_than_output name_no_ext output_root (name d))
                     (glob ".jsonl" (listing_of input_root (name d)))))
      dirs_to_process.
Proof.
  unfold identify_files_to_process. apply flat_map_ext.
  intros d. apply files_of_dir_newer_than_output.
Qed.


Lemma dict_get_remove_eq {V : Type} (k : string) (d : dict V) :
  dict_get k (dict_remove k d) = None.
Proof.
  unfold dict_remove. induction d as [| [k' v] rest IH]; simpl.
  - reflexivity.
  - destruct (String.eqb k k') eqn:E; simpl; [exact IH |]. rewrite E. exact IH.
Qed.

Lemma dict_get_remove_neq {V : Type} (k k' : string) (d : dict V) :
  k <> k' -> dict_get k' (dict_remove k d) = dict_get k' d.
Proof.
  intros Hne. unfold dict_remove. induction d as [| [k0 v] rest IH]; simpl.
  - reflexivity.
  - destruct (String.eqb k k0) eqn:E; simpl.
    + apply String.eqb_eq in E. subst k0.
      destruct (String.eqb k' k) eqn:E'; [| exact IH].
      apply String.eqb_eq in E'. congruence.
    + rewrite IH. reflexivity.
Qed.

Lemma dict_set_same {V : Type} (k : string) (v : V) (d : dict V) :
  dict_get k d = Some v -> dict_set k v d = d.
Proof.
  induction d as [| [k' v'] rest IH]; simpl.
  - discriminate.
  - destruct (String.eqb k k').
    + intros H. injection H as ->. reflexivity.
    + intros H. rewrite (IH H). reflexivity.
Qed.

(** What [shutil.rmtree] leaves is left again by a second call: the removals
    that failed fail again. *)
Lemma rmtree_entries_fixed (dir : string) (listing : list entry) :
  rmtree_entries failing dir (rmtree_entries failing dir listing)
  = rmtree_entries failing dir listing.
Proof.
  induction listing as [| f rest IH]; simpl.
  - reflexivity.
  - destruct (removal_fails failing dir (entry_name f)) eqn:E; [| exact IH].
    simpl. rewrite E. reflexivity.
Qed.


Lemma rmtree_fixed (dir : string) (listing remaining : list entry) :
  rmtree failing dir listing = Some remaining -> rmtree failing dir remaining = Some remaining.
Proof.
  unfold rmtree.
  destruct (rmtree_entries failing dir listing) as [| f rest] eqn:E.
  - destruct (rmdir_fails failing dir); [| discriminate].
    intros H. injection H as <-. reflexivity.
  - intros H. injection H as <-.
    rewrite <- E, rmtree_entries_fixed, E. reflexivity.
Qed.


Lemma kept_outputs_fixed (input_root : tree) (dir : string) (listing : list entry) :
  kept_outputs name_no_ext failing input_root dir
    (kept_outputs name_no_ext failing input_root dir listing)
  = kept_outputs name_no_ext failing input_root dir listing.
Proof.
  unfold kept_outputs. apply filter_all. intros f Hin. apply filter_In in Hin.
  exact (proj2 Hin).
Qed.

(** The child of a name that one iteration leaves, from the child it
    finds. *)
Lemma try_rmtree_get (output_root : tree) (dir : string) (listing : list entry) :
  dict_get dir (try_rmtree failing output_root dir listing)
  = option_map Folder (rmtree failing dir listing).
Proof.
  unfold try_rmtree. destruct (rmtree failing dir listing) as [remaining |]; simpl.
  - apply dict_get_set_eq.
  - apply dict_get_remove_eq.
Qed.

Lemma try_rmtree_get_other (output_root : tree) (dir dir' : string) (listing : list entry) :
  dir <> dir' ->
  dict_get dir' (try_rmtree failing output_root dir listing) = dict_get dir' output_root.
Proof.
  intros Hne. unfold try_rmtree. destruct (rmtree failing dir listing) as [remaining |].
  - apply dict_get_set_neq. exact Hne.
  - apply dict_get_remove_neq. exact Hne.
Qed.

Lemma try_rmtree_fixed (output_root : tree) (dir : string) (listing : list entry) :
  dict_get dir output_root = Some (Folder listing) ->
  rmtree failing dir listing = Some listing ->
  try_rmtree failing output_root dir listing = output_root.
Proof.
  intros Hget Hleft. unfold try_rmtree. rewrite Hleft. apply dict_set_same. exact Hget.
Qed.

Lemma removed_get (output_root : tree) (dir : string) :
  dict_get dir (removed failing output_root dir)
  = match dict_get dir output_root with
    | Some (Folder listing) => option_map Folder (rmtree failing dir listing)
    | Some PlainFile => Some PlainFile
    | None => None
    end.
Proof.
  unfold removed. destruct (dict_get dir output_root) as [[| listing] |] eqn:E;
    try exact E.
  apply try_rmtree_get.
Qed.

Lemma removed_get_other (output_root : tree) (dir dir' : string) :
  dir <> dir' -> dict_get dir' (removed failing output_root dir) = dict_get dir' output_root.
Proof.
  intros Hne. unfold removed. destruct (dict_get dir output_root) as [[| listing] |];
    try reflexivity.
  apply try_rmtree_get_other. exact Hne.
Qed.

Lemma pruned_get (input_root output_root : tree) (dir : string) :
  dict_get dir (pruned name_no_ext failing input_root output_root dir)
  = match dict_get dir output_root with
    | Some (Folder listing) =>
        if dict_has dir input_root
        then Some (Folder (kept_outputs name_no_ext failing input_root dir listing))
        else option_map Folder (rmtree failing dir listing)
    | Some PlainFile => Some PlainFile
    | None => None
    end.
Proof.
  unfold pruned. destruct (dict_get dir output_root) as [[| listing] |] eqn:E;
    try exact E.
  destruct (dict_has dir input_root); simpl.
  - apply dict_get_set_eq.
  - apply try_rmtree_get.
Qed.

Lemma pruned_get_other (input_root output_root : tree) (dir dir' : string) :
  dir <> dir' ->
  dict_get dir' (pruned name_no_ext failing input_root output_root dir)
  = dict_get dir' output_root.
Proof.
  intros Hne. unfold pruned. destruct (dict_get dir output_root) as [[| listing] |];
    try reflexivity.
  destruct (dict_has dir input_root); simpl.
  - apply dict_get_set_neq. exact Hne.
  - apply try_rmtree_get_other. exact Hne.
Qed.

(** A loop whose iterations each change the child of their own name alone,
    and change it no more the second time: what stands under a name at the
    end. *)
Lemma fold_visits_get (visit : tree -> string -> tree) (change : string -> option node -> option node)
  (dir : string) :
  (forall root, dict_get dir (visit root dir) = change dir (dict_get dir root)) ->
  (forall root dir', dir' <> dir -> dict_get dir (visit root dir') = dict_get dir root) ->
  (forall n, change dir (change dir n) = change dir n) ->
  forall names root,
    dict_get dir (fold_left visit names root)
    = if existsb (String.eqb dir) names then change dir (dict_get dir root)
      else dict_get dir root.
Proof.
  intros Hsame Hother Hfixed. induction names as [| k rest IH]; intros root; simpl.
  - reflexivity.
  - rewrite IH. destruct (String.eqb dir k) eqn:E; simpl.
    + apply String.eqb_eq in E. subst k. rewrite Hsame, Hfixed.
      destruct (existsb (String.eqb dir) rest); reflexivity.
    + apply String.eqb_neq in E. rewrite Hother by (intros Heq; apply E; symmetry; exact Heq).
      reflexivity.
Qed.

Lemma existsb_dict_keys {V : Type} (k : string) (d : dict V) :
  existsb (String.eqb k) (dict_keys d) = dict_has k d.
Proof.
  unfold dict_keys, dict_has. induction d as [| [k' v] rest IH]; simpl.
  - reflexivity.
  - destruct (String.eqb k k'); [reflexivity | exact IH].
Qed.

(** What stands under a name when [delete_output_files] returns. *)
Lemma delete_output_files_get (dirs : list path) (input_root output_root : tree)
  (delete_all : bool) (dir : string) :
  dict_get dir (delete_output_files name_no_ext failing dirs input_root output_root delete_all)
  = match dict_get dir output_root with
    | Some (Folder listing) =>
        if negb delete_all && dict_has dir input_root
        then Some (Folder (kept_outputs name_no_ext failing input_root dir listing))
        else option_map Folder (rmtree failing dir listing)
    | Some PlainFile => Some PlainFile
    | None => None
    end.
Proof.
  unfold delete_output_files. destruct delete_all; simpl.
  - rewrite (fold_visits_get (removed failing)
               (fun dir n => match n with
                             | Some (Folder listing) =>
                                 option_map Folder (rmtree failing dir listing)
                             | Some PlainFile => Some PlainFile
                             | None => None
                             end) dir).
    + rewrite existsb_dict_keys. unfold dict_has.
      destruct (dict_get dir output_root) as [[| listing] |]; reflexivity.
    + intros root. apply removed_get.
    + intros root dir' Hne. apply removed_get_other. exact Hne.
    + intros [[| listing] |]; try reflexivity.
      destruct (rmtree failing dir listing) as [remaining |] eqn:E; simpl; [| reflexivity].
      rewrite (rmtree_fixed dir listing remaining E). reflexivity.
  - rewrite (fold_visits_get (pruned name_no_ext failing input_root)
               (fun dir n => match n with
                             | Some (Folder listing) =>
                                 if dict_has dir input_root
                                 then Some (Folder (kept_outputs name_no_ext failing
                                                      input_root dir listing))
                                 else option_map Folder (rmtree failing dir listing)
                             | Some PlainFile => Some PlainFile
                             | None => None
                             end) dir).
    + rewrite existsb_dict_keys. unfold dict_has at 1.
      destruct (dict_get dir output_root) as [[| listing] |]; reflexivity.
    + intros root. apply pruned_get.
    + intros root dir' Hne. apply pruned_get_other. exact Hne.
    + intros [[| listing] |]; try reflexivity.
      destruct (dict_has dir input_root) eqn:Ehas.
      * rewrite kept_outputs_fixed. reflexivity.
      * destruct (rmtree failing dir listing) as [remaining |] eqn:E; simpl; [| reflexivity].
        rewrite (rmtree_fixed dir listing remaining E). reflexivity.
Qed.


(** X19: when every [shutil.rmtree] succeeds, [delete_output_files] with
    [delete_all] leaves no subdirectory in the output directory, and
    [identify_files_to_process] returns every [*.jsonl] entry of every
    directory to process: all is processed again. *)
Theorem delete_all_makes_every_input_stale
  (dirs input_dirs : list path) (input_root output_root : tree) :
  (forall dir listing,
      dict_get dir output_root = Some (Folder listing) ->
      rmtree failing dir listing = None) ->
  (forall dir n,
      dict_get dir (delete_output_files name_no_ext failing dirs input_root output_root true)
      = Some n ->
      is_folder n = false) /\
  identify_files_to_process name_no_ext input_root
    (delete_output_files name_no_ext failing dirs input_root output_root true) input_dirs
  = flat_map (fun d => map (pair (name d)) (glob ".jsonl" (listing_of input_root (name d))))
      input_dirs.
Proof.
  intros Hremoved.
  assert (Hget : forall dir n,
    dict_get dir (delete_output_files name_no_ext failing dirs input_root output_root true)
    = Some n -> n = PlainFile).
  { intros dir n. rewrite delete_output_files_get. simpl.
    destruct (dict_get dir output_root) as [[| listing] |] eqn:E.
    - intros H. injection H as <-. reflexivity.
    - rewrite (Hremoved dir listing E). discriminate.
    - discriminate. }
  split.
  - intros dir n H. rewrite (Hget dir n H). reflexivity.
  - rewrite identify_files_to_process_flat_map.
    apply flat_map_ext. intros d. f_equal. apply filter_all. intros f _.
    unfold newer_than_output, last_output, listing_of.
    destruct (dict_get (name d) _) as [n |] eqn:E; [| reflexivity].
    rewrite (Hget (name d) n E). reflexivity.
Qed.

(** X20: what [delete_output_files] leaves when [delete_all] is false has no
    orphans but those it failed to remove.  An output subdirectory left
    either has something of its name in the input directory, a directory or
    a plain file, which [exists()] does not tell apart, and then every
    [*.gz] file left in it whose [unlink] did not fail has a [*.jsonl] input
    file with the same name stem, which is in a directory of that name; or
    it has nothing of its name there and is what a failed [shutil.rmtree]
    left of it. *)
Theorem pruned_outputs_have_inputs
  (dirs : list path) (input_root output_root : tree) (dir : string) (listing : list entry) :
  dict_get dir (delete_output_files name_no_ext failing dirs input_root output_root false)
  = Some (Folder listing) ->
  (dict_has dir input_root = true /\
   forall f, In f listing ->
             ends_with ".gz" (entry_name f) = true ->
             entry_is_dir f = false ->
             removal_fails failing dir (entry_name f) = false ->
             exists inputs f_in,
               dict_get dir input_root = Some (Folder inputs) /\
               In f_in (glob ".jsonl" inputs) /\
               name_no_ext (entry_name f_in) = name_no_ext (entry_name f)) \/
  (dict_has dir input_root = false /\
   exists before,
     dict_get dir output_root = Some (Folder before) /\
     rmtree failing dir before = Some listing).
Proof.
  rewrite delete_output_files_get. simpl.
  destruct (dict_get dir output_root) as [[| before] |] eqn:E; try discriminate.
  destruct (dict_has dir input_root) eqn:Ehas.
  - intros H. injection H as <-. left. split; [reflexivity |].
    intros f Hf Hgz Hdir Hfails. unfold kept_outputs in Hf.
    apply filter_In in Hf. destruct Hf as [_ Hkept].
    unfold unlinked in Hkept. rewrite Hgz, Hdir, Hfails in Hkept. simpl in Hkept.
    rewrite !andb_true_r in Hkept. apply negb_true_iff in Hkept.
    apply negb_false_iff in Hkept.
    apply by_name_no_ext_has in Hkept. destruct Hkept as [f_in [Hin Hstem]].
    unfold listing_of in Hin.
    destruct (dict_get dir input_root) as [[| inputs] |]; try contradiction.
    exists inputs, f_in. auto.
  - intros H. right. split; [reflexivity |]. exists before. split; [reflexivity |].
    destruct (rmtree failing dir before) as [remaining |]; [| discriminate].
    simpl in H. injection H as <-. reflexivity.
Qed.

(** What [delete_output_files] has left, an iteration of its loops leaves as
    it is. *)
Lemma delete_output_files_visit_fixed (dirs : list path) (input_root output_root : tree)
  (delete_all : bool) (dir : string) :
  (if delete_all then removed failing else pruned name_no_ext failing input_root)
    (delete_output_files name_no_ext failing dirs input_root output_root delete_all) dir
  = delete_output_files name_no_ext failing dirs input_root output_root delete_all.
Proof.
  pose proof (delete_output_files_get dirs input_root output_root delete_all dir) as Hget.
  set (left_root := delete_output_files name_no_ext failing dirs input_root output_root
                      delete_all) in *.
  assert (Hrmtree : forall before remaining,
            option_map Folder (rmtree failing dir before) = Some (Folder remaining) ->
            rmtree failing dir remaining = Some remaining).
  { intros before remaining H. destruct (rmtree failing dir before) as [l |] eqn:E;
      [| discriminate].
    simpl in H. injection H as <-. exact (rmtree_fixed dir before l E). }
  destruct delete_all; simpl in Hget.
  - unfold removed. destruct (dict_get dir left_root) as [[| remaining] |] eqn:E; try reflexivity.
    apply try_rmtree_fixed; [exact E |].
    destruct (dict_get dir output_root) as [[| before] |]; try discriminate.
    exact (Hrmtree before remaining (eq_sym Hget)).
  - unfold pruned. destruct (dict_get dir left_root) as [[| remaining] |] eqn:E; try reflexivity.
    destruct (dict_get dir output_root) as [[| before] |]; try discriminate.
    destruct (dict_has dir input_root); simpl.
    + injection Hget as ->. rewrite kept_outputs_fixed.
      apply dict_set_same. exact E.
    + apply try_rmtree_fixed; [exact E |]. exact (Hrmtree before remaining (eq_sym Hget)).
Qed.

(** X21: pruning is idempotent, for either value of [delete_all]: a second
    call of [delete_output_files] over the same input directory changes
    nothing. *)
Theorem delete_output_files_idempotent
  (dirs : list path) (input_root output_root : tree) (delete_all : bool) :
  delete_output_files name_no_ext failing dirs input_root
    (delete_output_files name_no_ext failing dirs input_root output_root delete_all) delete_all
  = delete_output_files name_no_ext failing dirs input_root output_root delete_all.
Proof.
  pose proof (delete_output_files_visit_fixed dirs input_root output_root delete_all) as Hfixed.
  set (left_root := delete_output_files name_no_ext failing dirs input_root output_root
                      delete_all) in *.
  assert (Hloop : forall names,
            fold_left (if delete_all then removed failing
                       else pruned name_no_ext failing input_root) names left_root
            = left_root).
  { induction names as [| k rest IH]; simpl; [reflexivity |]. rewrite Hfixed. exact IH. }
  unfold delete_output_files at 1. destruct delete_all; apply Hloop.
Qed.

(** Where the input directory has a child of that name, pruning keeps the
    output child of that name, less the files it unlinks. *)
Lemma listing_of_pruned (dirs : list path) (input_root output_root : tree) (dir : string) :
  dict_has dir input_root = true ->
  listing_of (delete_output_files name_no_ext failing dirs input_root output_root false) dir
  = kept_outputs name_no_ext failing input_root dir (listing_of output_root dir).
Proof.
  intros Hhas. unfold listing_of. rewrite delete_output_files_get. simpl. rewrite Hhas.
  destruct (dict_get dir output_root) as [[| listing] |]; reflexivity.
Qed.

Lemma listing_of_absent (root : tree) (dir : string) :
  dict_has dir root = false -> listing_of root dir = [].
Proof.
  unfold dict_has, listing_of. destruct (dict_get dir root); [discriminate | reflexivity].
Qed.

(** The work list does not see what pruning removes. *)
Lemma identify_files_to_process_pruned
  (dirs dirs_to_process : list path) (input_root output_root : tree) :
  identify_files_to_process name_no_ext input_root
    (delete_output_files name_no_ext failing dirs input_root output_root false) dirs_to_process
  = identify_files_to_process name_no_ext input_root output_root dirs_to_process.
Proof.
  rewrite !identify_files_to_process_flat_map. apply flat_map_ext. intros d.
  f_equal.
  destruct (dict_has (name d) input_root) eqn:Ehas.
  - apply filter_ext_in. intros f Hf.
    unfold newer_than_output, last_output.
    rewrite (listing_of_pruned dirs input_root output_root (name d) Ehas).
    unfold kept_outputs.
    unfold glob at 1. rewrite filter_comm. fold (glob ".gz" (listing_of output_root (name d))).
    rewrite <- filter_rev, find_filter_kept; [reflexivity |].
    intros g _ Hstem. apply String.eqb_eq in Hstem.
    unfold unlinked.
    assert (Hin : dict_has (name_no_ext (entry_name g))
                    (by_name_no_ext name_no_ext (glob ".jsonl" (listing_of input_root (name d))))
                  = true).
    { apply by_name_no_ext_has. exists f. split; [exact Hf | symmetry; exact Hstem]. }
    rewrite Hin. simpl. rewrite andb_false_r. reflexivity.
  - rewrite (listing_of_absent input_root (name d) Ehas). reflexivity.
Qed.

(** X22: pruning the orphans does not change the work list: the files that
    [identify_files_to_process] returns after [delete_output_files] without
    [delete_all] are those it returns before. *)
Theorem pruning_keeps_the_work_list
  (dirs dirs_to_process : list path) (input_root output_root : tree) :
  identify_files_to_process name_no_ext input_root
    (delete_output_files name_no_ext failing dirs input_root output_root false) dirs_to_process
  = identify_files_to_process name_no_ext input_root output_root dirs_to_process.
Proof. apply identify_files_to_process_pruned. Qed.

Lemma In_put_entry (f : entry) (listing : list entry) (g : entry) :
  In g (put_entry f listing) <->
  g = f \/ (In g listing /\ entry_name g <> entry_name f).
Proof.
  unfold put_entry.
  destruct (existsb (fun g0 => String.eqb (entry_name g0) (entry_name f)) listing) eqn:E.
  - rewrite in_map_iff. split.
    + intros [h [Heq Hin]]. destruct (String.eqb (entry_name h) (entry_name f)) eqn:Eh.
      * left. symmetry. exact Heq.
      * right. subst h. apply String.eqb_neq in Eh. auto.
    + intros [-> | [Hin Hne]].
      * apply existsb_exists in E. destruct E as [h [Hin Heq]].
        exists h. rewrite Heq. auto.
      * exists g. apply String.eqb_neq in Hne. rewrite Hne. auto.
  - rewrite in_app_iff. simpl. split.
    + intros [Hin | [<- | []]]; [| left; reflexivity].
      right. split; [exact Hin |]. intros Heq.
      assert (Hex : existsb (fun g0 => String.eqb (entry_name g0) (entry_name f)) listing = true).
      { apply existsb_exists. exists g. split; [exact Hin | apply String.eqb_eq; exact Heq]. }
      congruence.
    + intros [-> | [Hin _]]; auto.
Qed.

(** The one element of a list that satisfies a test is the one [find]
    returns. *)
Lemma find_only {A : Type} (p : A -> bool) (l : list A) (x : A) :
  In x l -> p x = true -> (forall y, In y l -> p y = true -> y = x) ->
  find p l = Some x.
Proof.
  intros Hin Hp Honly. destruct (find p l) as [y |] eqn:E.
  - apply find_some in E. destruct E as [Hy Hpy]. f_equal. exact (Honly y Hy Hpy).
  - rewrite (find_none _ _ E x Hin) in Hp. discriminate.
Qed.

Lemma lookup_put_entry_same (f : entry) (listing : list entry) :
  find (fun g => String.eqb (entry_name g) (entry_name f)) (put_entry f listing) = Some f.
Proof.
  apply find_only.
  - apply In_put_entry. left. reflexivity.
  - apply String.eqb_refl.
  - intros g Hin Heq. apply In_put_entry in Hin. apply String.eqb_eq in Heq.
    destruct Hin as [-> | [_ Hne]]; [reflexivity | contradiction].
Qed.

Lemma lookup_put_entry_other (f : entry) (listing : list entry) (file_name : string) :
  file_name <> entry_name f ->
  find (fun g => String.eqb (entry_name g) file_name) (put_entry f listing)
  = find (fun g => String.eqb (entry_name g) file_name) listing.
Proof.
  intros Hne. unfold put_entry.
  destruct (existsb (fun g0 => String.eqb (entry_name g0) (entry_name f)) listing).
  - induction listing as [| g rest IH]; simpl.
    + reflexivity.
    + destruct (String.eqb (entry_name g) (entry_name f)) eqn:E; simpl.
      * apply String.eqb_eq in E.
        assert (Hf : String.eqb (entry_name f) file_name = false).
        { apply String.eqb_neq. auto. }
        rewrite Hf, E, Hf. exact IH.
      * destruct (String.eqb (entry_name g) file_name); [reflexivity | exact IH].
  - rewrite find_app_first. destruct (find _ listing); [reflexivity |]. simpl.
    assert (Hf : String.eqb (entry_name f) file_name = false).
    { apply String.eqb_neq. auto. }
    rewrite Hf. reflexivity.
Qed.

Lemma listing_of_set_eq (root : tree) (dir : string) (listing : list entry) :
  listing_of (dict_set dir (Folder listing) root) dir = listing.
Proof. unfold listing_of. rewrite dict_get_set_eq. reflexivity. Qed.

Lemma listing_of_set_neq (root : tree) (dir dir' : string) (n : node) :
  dir <> dir' -> listing_of (dict_set dir n root) dir' = listing_of root dir'.
Proof. intros Hne. unfold listing_of. rewrite dict_get_set_neq by exact Hne. reflexivity. Qed.

Lemma write_lines_all (records : list history_record) :
  forallb (fun r => serializable (VDict r)) records = true ->
  write_lines records = (records, true).
Proof.
  induction records as [| r rest IH]; intros Hall.
  - reflexivity.
  - cbn [forallb] in Hall. apply andb_prop in Hall. destruct Hall as [Hr Hrest].
    cbn [write_lines]. rewrite Hr, (IH Hrest). reflexivity.
Qed.

Lemma write_lines_stops (before after : list history_record) (r : history_record) :
  forallb (fun r => serializable (VDict r)) before = true ->
  serializable (VDict r) = false ->
  write_lines (before ++ r :: after) = (before, false).
Proof.
  intros Hbefore Hr. induction before as [| b rest IH].
  - cbn [app write_lines]. rewrite Hr. reflexivity.
  - cbn [forallb] in Hbefore. apply andb_prop in Hbefore. destruct Hbefore as [Hb Hrest].
    cbn [app write_lines]. rewrite Hb, (IH Hrest). reflexivity.
Qed.

Lemma write_lines_finished (records written : list history_record) :
  write_lines records = (written, true) -> written = records.
Proof.
  revert written. induction records as [| r rest IH]; intros written H; cbn [write_lines] in H.
  - injection H as <-. reflexivity.
  - destruct (serializable (VDict r)); [| discriminate].
    destruct (write_lines rest) as [w fin]. injection H as <- ->.
    f_equal. apply IH. reflexivity.
Qed.

(** What [gzip_records] does when the output file can be opened: the file
    holds the lines written, with the time of the write, the other files
    are as they were, and the error is that of [json.dumps] if any. *)
Lemma gzip_records_opens (output_root : tree) (now : float) (input_file : string * entry)
  (rewarded_records : buckets) :
  writable OUTPUT_FILENAME output_root input_file = true ->
  exists output_root',
    gzip_records OUTPUT_FILENAME output_root now input_file rewarded_records
    = (output_root',
       if snd (write_lines (flat_map snd rewarded_records)) then None
       else Some NotSerializable) /\
    listing_of output_root' (fst input_file)
    = put_entry
        (output_entry OUTPUT_FILENAME now input_file
           (fst (write_lines (flat_map snd rewarded_records))))
        (listing_of output_root (fst input_file)) /\
    forall dir, dir <> fst input_file ->
                listing_of output_root' dir = listing_of output_root dir.
Proof.
  unfold writable, gzip_records, output_entry. intros Hw.
  destruct (write_lines (flat_map snd rewarded_records)) as [written finished].
  unfold dict_has, listing_of at 2.
  destruct (dict_get (fst input_file) output_root) as [[| listing] |] eqn:Eget.
  - discriminate.
  - cbn [negb]. rewrite Eget. apply negb_true_iff in Hw. rewrite Hw.
    eexists. split; [reflexivity |]. split.
    + apply listing_of_set_eq.
    + intros dir Hne. apply listing_of_set_neq. auto.
  - cbn [negb]. rewrite dict_get_set_eq. cbn [existsb].
    eexists. split; [reflexivity |]. split.
    + apply listing_of_set_eq.
    + intros dir Hne. rewrite !listing_of_set_neq by auto. reflexivity.
Qed.

(** When the output file cannot be opened, [gzip_records] raises and leaves
    the output directory as it is. *)
Lemma gzip_records_refuses (output_root : tree) (now : float) (input_file : string * entry)
  (rewarded_records : buckets) :
  writable OUTPUT_FILENAME output_root input_file = false ->
  exists e,
    gzip_records OUTPUT_FILENAME output_root now input_file rewarded_records
    = (output_root, Some e) /\
    (e = NotADirectoryError \/ e = IsADirectoryError).
Proof.
  unfold writable, gzip_records. intros Hw. unfold dict_has.
  destruct (dict_get (fst input_file) output_root) as [[| listing] |] eqn:Eget.
  - cbn [negb]. rewrite Eget. eexists. split; [reflexivity | auto].
  - cbn [negb]. rewrite Eget. apply negb_false_iff in Hw. rewrite Hw.
    eexists. split; [reflexivity | auto].
  - discriminate.
Qed.

(** X23: when the output file can be opened and every record can be written
    by [json.dumps], [gzip_records] raises nothing; afterwards the output
    file for the input file holds the records of the buckets, bucket after
    bucket in the order of the keys and each bucket in its order, and bears
    the time of the write; every other file of the output directory is as it
    was. *)
Theorem gzip_records_writes_the_buckets
  (output_root : tree) (now : float) (input_file : string * entry)
  (rewarded_records : buckets) :
  writable OUTPUT_FILENAME output_root input_file = true ->
  forallb (fun r => serializable (VDict r)) (flat_map snd rewarded_records) = true ->
  exists output_root',
    gzip_records OUTPUT_FILENAME output_root now input_file rewarded_records
    = (output_root', None) /\
    lookup_entry output_root' (fst input_file) (OUTPUT_FILENAME (entry_name (snd input_file)))
    = Some (output_entry OUTPUT_FILENAME now input_file (flat_map snd rewarded_records)) /\
    forall dir file_name,
      dir <> fst input_file \/ file_name <> OUTPUT_FILENAME (entry_name (snd input_file)) ->
      lookup_entry output_root' dir file_name = lookup_entry output_root dir file_name.
Proof.
  intros Hw Hser.
  destruct (gzip_records_opens output_root now input_file rewarded_records Hw)
    as [output_root' [Hrun [Hdir Hothers]]].
  rewrite (write_lines_all _ Hser) in Hrun, Hdir. cbn [fst snd] in Hrun, Hdir.
  exists output_root'. split; [exact Hrun | split].
  - unfold lookup_entry. rewrite Hdir.
    apply (lookup_put_entry_same
             (output_entry OUTPUT_FILENAME now input_file (flat_map snd rewarded_records))).
  - intros dir file_name Hdiff. unfold lookup_entry.
    destruct (String.eqb dir (fst input_file)) eqn:E.
    + apply String.eqb_eq in E. subst dir. rewrite Hdir.
      apply lookup_put_entry_other. destruct Hdiff as [Hne | Hne]; [contradiction | exact Hne].
    + apply String.eqb_neq in E. rewrite (Hothers dir E). reflexivity.
Qed.

(** X24: a record that [json.dumps] cannot write makes [gzip_records] raise,
    but not before the output file has been opened and the records before
    it written: the output file is left holding those records alone, with
    the time of the write. *)
Theorem unserializable_record_leaves_a_truncated_output
  (output_root : tree) (now : float) (input_file : string * entry)
  (rewarded_records : buckets) (before after : list history_record) (r : history_record) :
  writable OUTPUT_FILENAME output_root input_file = true ->
  flat_map snd rewarded_records = before ++ r :: after ->
  forallb (fun r => serializable (VDict r)) before = true ->
  serializable (VDict r) = false ->
  exists output_root',
    gzip_records OUTPUT_FILENAME output_root now input_file rewarded_records
    = (output_root', Some NotSerializable) /\
    lookup_entry output_root' (fst input_file) (OUTPUT_FILENAME (entry_name (snd input_file)))
    = Some (output_entry OUTPUT_FILENAME now input_file before).
Proof.
  intros Hw Hsplit Hbefore Hr.
  destruct (gzip_records_opens output_root now input_file rewarded_records Hw)
    as [output_root' [Hrun [Hdir _]]].
  rewrite Hsplit, (write_lines_stops before after r Hbefore Hr) in Hrun, Hdir.
  cbn [fst snd] in Hrun, Hdir.
  exists output_root'. split; [exact Hrun |].
  unfold lookup_entry. rewrite Hdir.
  apply (lookup_put_entry_same (output_entry OUTPUT_FILENAME now input_file before)).
Qed.

(** X25: once [gzip_records] has opened the output file for an input file at
    a time that is not before the input file's modification time, the input
    file is no longer in the work list, whether all the records were written
    or [json.dumps] raised midway; this for an output name that ends in
    [.gz] and has the name stem of the input, and an output directory that
    holds no other [*.gz] file of that stem. *)
Theorem written_input_leaves_the_work_list
  (input_root output_root : tree) (now : float) (dir : string) (f_in : entry)
  (rewarded_records : buckets) (dirs_to_process : list path) :
  writable OUTPUT_FILENAME output_root (dir, f_in) = true ->
  ends_with ".gz" (OUTPUT_FILENAME (entry_name f_in)) = true ->
  name_no_ext (OUTPUT_FILENAME (entry_name f_in)) = name_no_ext (entry_name f_in) ->
  (forall g, In g (listing_of output_root dir) ->
             ends_with ".gz" (entry_name g) = true ->
             name_no_ext (entry_name g) = name_no_ext (entry_name f_in) ->
             entry_name g = OUTPUT_FILENAME (entry_name f_in)) ->
  PrimFloat.ltb now (st_mtime f_in) = false ->
  ~ In (dir, f_in)
      (identify_files_to_process name_no_ext input_root
         (fst (gzip_records OUTPUT_FILENAME output_root now (dir, f_in) rewarded_records))
         dirs_to_process).
Proof.
  intros Hw Hgz Hstem Honly Htime Hin.
  destruct (gzip_records_opens output_root now (dir, f_in) rewarded_records Hw)
    as [output_root' [Hrun [Hdir _]]].
  rewrite Hrun in Hin. cbn [fst snd] in Hin, Hdir.
  rewrite identify_files_to_process_flat_map in Hin.
  apply in_flat_map in Hin. destruct Hin as [d [_ Hin]].
  apply in_map_iff in Hin. destruct Hin as [f [Heq Hin]].
  injection Heq as Hd ->. apply filter_In in Hin. destruct Hin as [_ Hnewer].
  rewrite Hd in Hnewer. unfold newer_than_output, last_output in Hnewer.
  rewrite Hdir in Hnewer.
  set (out := output_entry OUTPUT_FILENAME now (dir, f_in)
                (fst (write_lines (flat_map snd rewarded_records)))) in *.
  assert (Hfind : find (fun g => String.eqb (name_no_ext (entry_name g))
                                   (name_no_ext (entry_name f_in)))
                    (rev (glob ".gz" (put_entry out (listing_of output_root dir))))
                  = Some out).
  { apply find_only.
    - apply in_rev. rewrite rev_involutive. apply filter_In. split.
      + apply In_put_entry. left. reflexivity.
      + exact Hgz.
    - apply String.eqb_eq. exact Hstem.
    - intros g Hg Hsame. apply in_rev in Hg. apply filter_In in Hg.
      destruct Hg as [Hg Hggz]. apply String.eqb_eq in Hsame.
      apply In_put_entry in Hg. destruct Hg as [-> | [Hg Hne]]; [reflexivity |].
      exfalso. apply Hne. exact (Honly g Hg Hggz Hsame). }
  rewrite Hfind in Hnewer. cbn [st_mtime out output_entry] in Hnewer.
  unfold out, output_entry in Hnewer. cbn [st_mtime] in Hnewer. congruence.
Qed.

End WorkListFacts.

(** ** The worker's steps together *)

Section WorkerFacts.

Variable cfg : config.
Variable name_no_ext : string -> string.
Variable OUTPUT_FILENAME : string -> string.

Lemma dict_keys_set_absent {V : Type} (k : string) (v : V) (d : dict V) :
  dict_has k d = false -> dict_keys (dict_set k v d) = dict_keys d ++ [k].
Proof.
  unfold dict_has, dict_keys. induction d as [| [k' v'] rest IH]; simpl.
  - reflexivity.
  - destruct (String.eqb k k'); [discriminate |]. intros H. simpl. f_equal. exact (IH H).
Qed.

Lemma process_record_distinct_keys (d d' : buckets) (r : history_record) :
  NoDup (dict_keys d) -> process_record cfg d r = Ok d' -> NoDup (dict_keys d').
Proof.
  intros Hnd Hrun. unfold process_record in Hrun.
  destruct (type_is r "decision").
  - bind_inv Hrun as key Hkey. injection Hrun as <-.
    destruct (dict_has key d) eqn:Ehas.
    + rewrite dict_keys_set_present by exact Ehas. exact Hnd.
    + rewrite dict_keys_set_absent by exact Ehas.
      apply dict_has_get, dict_get_None in Ehas.
      rewrite <- (rev_involutive (dict_keys d ++ [key])). apply NoDup_rev.
      rewrite rev_app_distr. simpl. constructor.
      * intros Hin. apply in_rev in Hin. contradiction.
      * apply NoDup_rev. exact Hnd.
  - destruct (type_is r "rewards").
    + bind_inv Hrun as items Hitems. rewrite (for_rewards_keys cfg r items d d' Hrun). exact Hnd.
    + destruct (type_is r "event"); [| discriminate].
      bind_inv Hrun as v Hv. rewrite (for_buckets_keys cfg r v d d' Hrun). exact Hnd.
Qed.

Lemma process_records_distinct_keys (records : list history_record) :
  forall d d',
    NoDup (dict_keys d) -> process_records cfg d records = Ok d' -> NoDup (dict_keys d').
Proof.
  induction records as [| r rest IH]; intros d d' Hnd Hrun; simpl in Hrun.
  - injection Hrun as <-. exact Hnd.
  - bind_inv Hrun as d1 Hd1.
    exact (IH d1 d' (process_record_distinct_keys d d1 r Hnd Hd1) Hrun).
Qed.

Lemma dict_get_of_member {V : Type} (d : dict V) (k : string) (v : V) :
  NoDup (dict_keys d) -> In (k, v) d -> dict_get k d = Some v.
Proof.
  unfold dict_keys. induction d as [| [k' v'] rest IH]; intros Hnd Hin; simpl in *.
  - contradiction.
  - inversion Hnd as [| x l Hnotin Hrest]; subst.
    destruct Hin as [Heq | Hin].
    + injection Heq as -> ->. rewrite String.eqb_refl. reflexivity.
    + destruct (String.eqb k k') eqn:E.
      * apply String.eqb_eq in E. subst k'. exfalso. apply Hnotin.
        apply in_map_iff. exists (k, v). auto.
      * exact (IH Hrest Hin).
Qed.

Lemma subseq_In {A : Type} (sub l : list A) (x : A) :
  subseq sub l -> In x sub -> In x l.
Proof.
  induction 1 as [| y sub l Hsub IH | y sub l Hsub IH]; simpl; intros Hin.
  - exact Hin.
  - right. exact (IH Hin).
  - destruct Hin as [-> | Hin]; [left; reflexivity | right; exact (IH Hin)].
Qed.

Lemma type_is_only_reward_differs (d r : history_record) (type : string) :
  only_reward_differs d r -> type_is r type = type_is d type.
Proof.
  intros [-> | [x ->]]; [reflexivity |].
  unfold type_is. rewrite dict_get_set_neq by discriminate. reflexivity.
Qed.

(** The records of the returned buckets are decisions of the input, with at
    most their reward changed. *)
Lemma rewarded_records_are_decisions
  (records : list history_record) (rewarded : buckets) (r : history_record) :
  assign_rewards_to_decisions cfg records = Ok rewarded ->
  In r (flat_map snd rewarded) ->
  type_is r "decision" = true /\
  exists d, In d records /\ only_reward_differs d r.
Proof.
  intros Hrun Hin. apply in_flat_map in Hin. destruct Hin as [[k ls] [Hkv Hr]].
  simpl in Hr. unfold assign_rewards_to_decisions in Hrun.
  assert (Hget : bucket k rewarded = ls).
  { unfold bucket, dict_get_default.
    rewrite (dict_get_of_member rewarded k ls); [reflexivity | | exact Hkv].
    apply (process_records_distinct_keys records [] rewarded); [constructor | exact Hrun]. }
  pose proof (process_records_evolve cfg records [] rewarded k Hrun) as Hev.
  change (bucket k []) with (@nil history_record) in Hev.
  destruct (evolve_selects cfg k records [] [] (bucket k rewarded) (Forall2_nil _) Hev)
    as [ds [Hsub Hrel]].
  rewrite Hget in Hrel. simpl in Hsub.
  assert (Hd : exists d, In d ds /\ only_reward_differs d r).
  { clear -Hrel Hr. induction Hrel as [| d0 r0 ds0 ls0 H0 Hrest IH]; simpl in *.
    - contradiction.
    - destruct Hr as [<- | Hr].
      + exists d0. auto.
      + destruct (IH Hr) as [d [Hd Hdr]]. exists d. auto. }
  destruct Hd as [d [Hd Hdr]].
  apply (subseq_In ds _ d Hsub) in Hd. unfold decisions_for in Hd.
  apply filter_In in Hd. destruct Hd as [Hd Htype].
  apply andb_prop in Htype. destruct Htype as [Htype _].
  split.
  - rewrite (type_is_only_reward_differs d r "decision" Hdr). exact Htype.
  - exists d. auto.
Qed.

(** X26: when [gzip_records] has written what [assign_rewards_to_decisions]
    returned for the records of an input file, as the loop of [worker] has
    it, the output file holds the records of the buckets, and every line of
    it is a decision record of the input, as it was but for its [reward]
    field: no rewards record and no event reaches the output. *)
Theorem output_file_holds_rewarded_decisions
  (records : list history_record) (rewarded : buckets)
  (output_root output_root' : tree) (now : float) (input_file : string * entry) :
  assign_rewards_to_decisions cfg records = Ok rewarded ->
  gzip_records OUTPUT_FILENAME output_root now input_file rewarded = (output_root', None) ->
  lookup_entry output_root' (fst input_file) (OUTPUT_FILENAME (entry_name (snd input_file)))
  = Some (output_entry OUTPUT_FILENAME now input_file (flat_map snd rewarded)) /\
  Forall (fun r => type_is r "decision" = true /\
                   exists d, In d records /\ only_reward_differs d r)
    (flat_map snd rewarded).
Proof.
  intros Hengine Hwrite. split.
  - destruct (writable OUTPUT_FILENAME output_root input_file) eqn:Hw.
    + destruct (gzip_records_opens OUTPUT_FILENAME output_root now input_file rewarded Hw)
        as [root' [Hrun [Hdir _]]].
      rewrite Hrun in Hwrite.
      destruct (write_lines (flat_map snd rewarded)) as [written finished] eqn:Ewl.
      cbn [fst snd] in Hwrite, Hdir. destruct finished; [| discriminate].
      injection Hwrite as <-.
      rewrite (write_lines_finished _ _ Ewl) in Hdir.
      unfold lookup_entry. rewrite Hdir.
      apply (lookup_put_entry_same
               (output_entry OUTPUT_FILENAME now input_file (flat_map snd rewarded))).
    + destruct (gzip_records_refuses OUTPUT_FILENAME output_root now input_file rewarded Hw)
        as [e [Hrun _]].
      rewrite Hrun in Hwrite. discriminate.
  - apply Forall_forall. intros r Hr.
    exact (rewarded_records_are_decisions records rewarded r Hengine Hr).
Qed.


End WorkerFacts.

(** *** Concrete runs of the work list and the output files *)

(** The output directory of the example after [delete_output_files], when
    every removal succeeds and when the two orphans cannot be removed. *)
Example failed_removals_are_left :
  delete_output_files file_stem no_failure [] input_tree output_tree false
  = [("aa", Folder [jsonl_file "abc-1.jsonl.gz" 200])] /\
  delete_output_files file_stem no_failure [] input_tree output_tree true = [] /\
  delete_output_files file_stem stuck_orphans [] input_tree output_tree false = output_tree /\
  delete_output_files file_stem stuck_orphans [] input_tree output_tree true
  = [("aa", Folder [jsonl_file "gone-9.jsonl.gz" 50]);
     ("zz", Folder [jsonl_file "zzz-1.jsonl.gz" 50])].
Proof. repeat split; vm_compute; reflexivity. Qed.

Lemma delete_all_makes_every_input_stale_witness :
  (forall dir n,
      dict_get dir (delete_output_files file_stem no_failure [] input_tree output_tree true)
      = Some n ->
      is_folder n = false) /\
  identify_files_to_process file_stem input_tree
    (delete_output_files file_stem no_failure [] input_tree output_tree true)
    [{| name := "aa"; is_dir := true |}]
  = flat_map (fun d => map (pair (name d)) (glob ".jsonl" (listing_of input_tree (name d))))
      [{| name := "aa"; is_dir := true |}].
Proof.
  apply (delete_all_makes_every_input_stale file_stem no_failure []
           [{| name := "aa"; is_dir := true |}] input_tree output_tree).
  intros dir listing. unfold output_tree. cbn [dict_get].
  destruct (String.eqb dir "aa").
  - intros H. injection H as <-. reflexivity.
  - destruct (String.eqb dir "zz").
    + intros H. injection H as <-. reflexivity.
    + discriminate.
Defined.

Lemma pruned_outputs_have_inputs_witness :
  (dict_has "aa" input_tree = true /\
   forall f, In f [jsonl_file "abc-1.jsonl.gz" 200; jsonl_file "gone-9.jsonl.gz" 50] ->
             ends_with ".gz" (entry_name f) = true ->
             entry_is_dir f = false ->
             removal_fails stuck_orphans "aa" (entry_name f) = false ->
             exists inputs f_in,
               dict_get "aa" input_tree = Some (Folder inputs) /\
               In f_in (glob ".jsonl" inputs) /\
               file_stem (entry_name f_in) = file_stem (entry_name f)) \/
  (dict_has "aa" input_tree = false /\
   exists before,
     dict_get "aa" output_tree = Some (Folder before) /\
     rmtree stuck_orphans "aa" before
     = Some [jsonl_file "abc-1.jsonl.gz" 200; jsonl_file "gone-9.jsonl.gz" 50]).
Proof.
  apply (pruned_outputs_have_inputs file_stem stuck_orphans [] input_tree output_tree "aa"
           [jsonl_file "abc-1.jsonl.gz" 200; jsonl_file "gone-9.jsonl.gz" 50]).
  vm_compute. reflexivity.
Defined.

Lemma gzip_records_writes_the_buckets_witness :
  exists output_root',
    gzip_records output_filename output_tree 400 ("aa", jsonl_file "abd-2.jsonl" 300)
      [("k", [rewarded_decision 1.5])]
    = (output_root', None) /\
    lookup_entry output_root' "aa" "abd-2.jsonl.gz"
    = Some (output_entry output_filename 400 ("aa", jsonl_file "abd-2.jsonl" 300)
              [rewarded_decision 1.5]) /\
    forall dir file_name,
      dir <> "aa" \/ file_name <> "abd-2.jsonl.gz" ->
      lookup_entry output_root' dir file_name = lookup_entry output_tree dir file_name.
Proof.
  apply (gzip_records_writes_the_buckets output_filename output_tree 400
           ("aa", jsonl_file "abd-2.jsonl" 300) [("k", [rewarded_decision 1.5])]).
  - reflexivity.
  - reflexivity.
Defined.

Lemma unserializable_record_leaves_a_truncated_output_witness :
  exists output_root',
    gzip_records output_filename output_tree 400 ("aa", jsonl_file "abd-2.jsonl" 300)
      [("k", [rewarded_decision 1.5; loaded "A" 1633584246126000 "decision"])]
    = (output_root', Some NotSerializable) /\
    lookup_entry output_root' "aa" "abd-2.jsonl.gz"
    = Some (output_entry output_filename 400 ("aa", jsonl_file "abd-2.jsonl" 300)
              [rewarded_decision 1.5]).
Proof.
  apply (unserializable_record_leaves_a_truncated_output output_filename output_tree 400
           ("aa", jsonl_file "abd-2.jsonl" 300)
           [("k", [rewarded_decision 1.5; loaded "A" 1633584246126000 "decision"])]
           [rewarded_decision 1.5] [] (loaded "A" 1633584246126000 "decision")).
  - reflexivity.
  - reflexivity.
  - reflexivity.
  - reflexivity.
Defined.

Lemma written_input_leaves_the_work_list_witness :
  ~ In ("aa", jsonl_file "abd-2.jsonl" 300)
      (identify_files_to_process file_stem input_tree
         (fst (gzip_records output_filename output_tree 400
                 ("aa", jsonl_file "abd-2.jsonl" 300) [("k", [rewarded_decision 1.5])]))
         [{| name := "aa"; is_dir := true |}]).
Proof.
  apply (written_input_leaves_the_work_list file_stem output_filename input_tree output_tree
           400 "aa" (jsonl_file "abd-2.jsonl" 300) [("k", [rewarded_decision 1.5])]
           [{| name := "aa"; is_dir := true |}]).
  - reflexivity.
  - reflexivity.
  - reflexivity.
  - intros g [<- | [<- | []]] _ Hstem; vm_compute in Hstem; discriminate Hstem.
  - vm_compute. reflexivity.
Defined.

Lemma output_file_holds_rewarded_decisions_witness :
  lookup_entry
    (fst (gzip_records output_filename output_tree 400 ("aa", jsonl_file "abd-2.jsonl" 300)
            [("k", [rewarded_decision 1.5])]))
    "aa" "abd-2.jsonl.gz"
  = Some (output_entry output_filename 400 ("aa", jsonl_file "abd-2.jsonl" 300)
            (flat_map snd [("k", [rewarded_decision 1.5])])) /\
  Forall (fun r => type_is r "decision" = true /\
                   exists d, In d scenario_2 /\ only_reward_differs d r)
    (flat_map snd [("k", [rewarded_decision 1.5])]).
Proof.
  apply (output_file_holds_rewarded_decisions scenario_config output_filename scenario_2
           [("k", [rewarded_decision 1.5])] output_tree
           (fst (gzip_records output_filename output_tree 400
                   ("aa", jsonl_file "abd-2.jsonl" 300) [("k", [rewarded_decision 1.5])]))
           400 ("aa", jsonl_file "abd-2.jsonl" 300)).
  - vm_compute. reflexivity.
  - vm_compute. reflexivity.
Defined.


(** ** The runs of the worker *)

Section WorkerRuns.

Variable cfg : config.
Variable name_no_ext : string -> string.
Variable OUTPUT_FILENAME : string -> string.
Variable failing : failures.
Variable load_sorted_records : string * entry -> result (list history_record).







(** The listings that [gzip_records] leaves: that of the directory of the
    input file has the output file put in if it could be opened, the others
    are as they were. *)
Lemma gzip_records_listings (output_root : tree) (now : float) (input_file : string * entry)
  (rewarded_records : buckets) :
  (forall dir, dir <> fst input_file ->
               listing_of (fst (gzip_records OUTPUT_FILENAME output_root now input_file
                                  rewarded_records)) dir
               = listing_of output_root dir) /\
  (listing_of (fst (gzip_records OUTPUT_FILENAME output_root now input_file rewarded_records))
     (fst input_file)
   = listing_of output_root (fst input_file) \/
   exists written,
     listing_of (fst (gzip_records OUTPUT_FILENAME output_root now input_file rewarded_records))
       (fst input_file)
     = put_entry (output_entry OUTPUT_FILENAME now input_file written)
         (listing_of output_root (fst input_file))).
Proof.
  destruct (writable OUTPUT_FILENAME output_root input_file) eqn:Hw.
  - destruct (gzip_records_opens OUTPUT_FILENAME output_root now input_file rewarded_records Hw)
      as [root' [Hrun [Hdir Hothers]]].
    rewrite Hrun. cbn [fst]. split; [exact Hothers |].
    right. eexists. exact Hdir.
  - destruct (gzip_records_refuses OUTPUT_FILENAME output_root now input_file rewarded_records Hw)
      as [e [Hrun _]].
    rewrite Hrun. cbn [fst]. auto.
Qed.


Lemma work_list_member (input_root output_root : tree) (dirs_to_process : list path)
  (dir : string) (f : entry) :
  In (dir, f) (identify_files_to_process name_no_ext input_root output_root dirs_to_process)
  <-> (exists d, In d dirs_to_process /\ name d = dir) /\
      In f (glob ".jsonl" (listing_of input_root dir)) /\
      newer_than_output name_no_ext output_root dir f = true.
Proof.
  rewrite identify_files_to_process_flat_map, in_flat_map. split.
  - intros [d [Hd Hin]]. apply in_map_iff in Hin. destruct Hin as [f' [Heq Hin]].
    injection Heq as <- ->. apply filter_In in Hin. destruct Hin as [Hin Hnewer].
    split; [exists d; auto | auto].
  - intros [[d [Hd <-]] [Hin Hnewer]]. exists d. split; [exact Hd |].
    apply in_map. apply filter_In. auto.
Qed.







Lemma process_files_other_directories (sigterm : nat -> bool) (clock : nat -> float)
  (dir : string) (files : list (string * entry)) :
  forall k output_root,
    ~ In dir (map fst files) ->
    listing_of (fst (process_files cfg OUTPUT_FILENAME load_sorted_records sigterm clock k
                       output_root files)) dir
    = listing_of output_root dir.
Proof.
  induction files as [| file rest IH]; intros k output_root Hnotin; cbn [process_files].
  - reflexivity.
  - destruct (sigterm k); [reflexivity |].
    destruct (load_sorted_records file) as [sorted_records | e]; [| reflexivity].
    destruct (assign_rewards_to_decisions cfg sorted_records) as [rewarded | e];
      [| reflexivity].
    destruct (gzip_records_listings output_root (clock k) file rewarded) as [Hothers _].
    assert (Hne : dir <> fst file).
    { intros ->. apply Hnotin. left. reflexivity. }
    specialize (Hothers dir Hne).
    destruct (gzip_records OUTPUT_FILENAME output_root (clock k) file rewarded)
      as [root1 [e |]]; cbn [fst] in *.
    + exact Hothers.
    + rewrite IH; [exact Hothers |]. intros Hin. apply Hnotin. right. exact Hin.
Qed.

Lemma identify_dirs_to_process_owned (entries dirs : list path) (node_id node_count : Z)
  (d : path) :
  identify_dirs_to_process entries node_id node_count = Some dirs ->
  In d dirs ->
  mmh3_hash (str_prefix 2 (name d)) 0 mod node_count = node_id.
Proof.
  revert dirs. induction entries as [| e rest IH]; intros dirs Hrun Hin; simpl in Hrun.
  - injection Hrun as <-. contradiction.
  - destruct (is_dir e).
    + unfold owned_by in Hrun. destruct (node_count =? 0); [discriminate |].
      destruct (identify_dirs_to_process rest node_id node_count) as [dirs' |];
        [| discriminate].
      destruct (mmh3_hash (str_prefix 2 (name e)) 0 mod node_count =? node_id) eqn:E;
        injection Hrun as <-.
      * destruct Hin as [<- | Hin]; [apply Z.eqb_eq; exact E | exact (IH dirs' eq_refl Hin)].
      * exact (IH dirs' eq_refl Hin).
    + exact (IH dirs Hrun Hin).
Qed.

(** X30: [worker] writes into the output directories of its own shard
    alone: in an output directory whose name the hash gives to another node,
    whatever way the run ends, it leaves what [delete_output_files] leaves,
    which with [reprocess_all] is what [shutil.rmtree] leaves of it: nothing
    if the removal succeeds. *)
Theorem worker_writes_into_its_own_shard_alone
  (node_id node_count : Z) (reprocess_all : bool) (input_root output_root : tree)
  (sigterm : nat -> bool) (clock : nat -> float) (dirs : list path) (dir : string) :
  identify_dirs_to_process (iterdir input_root) node_id node_count = Some dirs ->
  mmh3_hash (str_prefix 2 dir) 0 mod node_count <> node_id ->
  listing_of
    (fst (worker cfg name_no_ext OUTPUT_FILENAME failing load_sorted_records node_id node_count
            reprocess_all input_root output_root sigterm clock)) dir
  = listing_of (delete_output_files name_no_ext failing dirs input_root output_root
                  reprocess_all) dir /\
  (reprocess_all = true ->
   listing_of
     (fst (worker cfg name_no_ext OUTPUT_FILENAME failing load_sorted_records node_id node_count
             reprocess_all input_root output_root sigterm clock)) dir
   = left_by_rmtree failing output_root dir /\
   ((forall listing, dict_get dir output_root = Some (Folder listing) ->
                     rmtree failing dir listing = None) ->
    listing_of
      (fst (worker cfg name_no_ext OUTPUT_FILENAME failing load_sorted_records node_id
              node_count reprocess_all input_root output_root sigterm clock)) dir = [])).
Proof.
  intros Hdirs Hother. unfold worker. rewrite Hdirs.
  assert (Hframe :
    listing_of
      (fst (process_files cfg OUTPUT_FILENAME load_sorted_records sigterm clock 0
              (delete_output_files name_no_ext failing dirs input_root output_root
                 reprocess_all)
              (identify_files_to_process name_no_ext input_root
                 (delete_output_files name_no_ext failing dirs input_root output_root
                    reprocess_all)
                 dirs))) dir
    = listing_of (delete_output_files name_no_ext failing dirs input_root output_root
                    reprocess_all) dir).
  { apply process_files_other_directories. intros Hin.
    apply in_map_iff in Hin. destruct Hin as [[dir' f] [Heq Hin]]. cbn [fst] in Heq. subst dir'.
    apply work_list_member in Hin. destruct Hin as [[d [Hd Hname]] _].
    apply Hother. rewrite <- Hname.
    exact (identify_dirs_to_process_owned _ dirs node_id node_count d Hdirs Hd). }
  split; [exact Hframe |].
  intros ->. rewrite Hframe. unfold listing_of, left_by_rmtree.
  rewrite delete_output_files_get. cbn [negb andb].
  destruct (dict_get dir output_root) as [[| listing] |]; try (split; reflexivity).
  split.
  - destruct (rmtree failing dir listing); reflexivity.
  - intros Hremoved. rewrite (Hremoved listing eq_refl). reflexivity.
Qed.

End WorkerRuns.

(** *** Concrete runs of the worker *)





Lemma worker_writes_into_its_own_shard_alone_witness :
  listing_of
    (fst (worker scenario_config file_stem output_filename stuck_orphans load_scenario_2 1 3
            true input_tree shared_output_tree no_sigterm clock_400)) "bb"
  = listing_of (delete_output_files file_stem stuck_orphans
                  [{| name := "aa"; is_dir := true |}] input_tree shared_output_tree true)
      "bb" /\
  listing_of
    (fst (worker scenario_config file_stem output_filename stuck_orphans load_scenario_2 1 3
            true input_tree shared_output_tree no_sigterm clock_400)) "bb"
  = left_by_rmtree stuck_orphans shared_output_tree "bb" /\
  listing_of
    (fst (worker scenario_config file_stem output_filename stuck_orphans load_scenario_2 1 3
            true input_tree shared_output_tree no_sigterm clock_400)) "bb" = [].
Proof.
  assert (Hdirs : identify_dirs_to_process (iterdir input_tree) 1 3
                  = Some [{| name := "aa"; is_dir := true |}]).
  { vm_compute. reflexivity. }
  assert (Hother : mmh3_hash (str_prefix 2 "bb") 0 mod 3 <> 1).
  { vm_compute. discriminate. }
  destruct (worker_writes_into_its_own_shard_alone scenario_config file_stem output_filename
              stuck_orphans load_scenario_2 1 3 true input_tree shared_output_tree
              no_sigterm clock_400 [{| name := "aa"; is_dir := true |}] "bb" Hdirs Hother)
    as [Hframe Hall].
  destruct (Hall eq_refl) as [Hleft Hempty].
  split; [exact Hframe | split; [exact Hleft |]].
  apply Hempty. intros listing H. vm_compute in H. injection H as <-. reflexivity.
Defined.
